(** * logical_disk collector: volume resolution and BitLocker status worker

    A shallow embedding of the resolution core of
    [internal/collector/logical_disk/logical_disk.go]:

    - [getVolumeInfo]: maps a volume to its physical disk numbers and its
      static metadata (disk-extent buffer parsing, drive type, volume
      information);
    - [getAllMountedVolumes]: enumerates the mounted volumes;
    - [workerBitlocker]: the request handler of the BitLocker status worker;
    - the one-hot BitLocker indicator emission of [Collect].

    Calls into the operating system are modelled by explicit oracles (what
    the OS answers) together with a log of the calls the code issues. *)

From Stdlib Require Import ZArith Lia Ascii.
From Stdlib Require Strings.Byte.
From stdpp Require Import base option list sorting strings gmap.

Local Open Scope Z_scope.

(** ** Outcomes of Go code *)

(** A Go function either returns or panics.  [Exhausted] is specific to the
    scripted OS model of [getAllMountedVolumes]: the script of OS answers
    ended before the code stopped asking. *)
Inductive outcome (A : Type) : Type :=
| Returned (a : A)
| Panicked
| Exhausted.
Arguments Returned {A} a.
Arguments Panicked {A}.
Arguments Exhausted {A}.

(** ** Fixed-width integers *)

Definition uint32 (z : Z) : Z := z mod 2 ^ 32.
Definition uint64 (z : Z) : Z := z mod 2 ^ 64.
(** Go's [uint] and [int] are 64 bits wide on the 64-bit Windows targets. *)
Definition uint (z : Z) : Z := uint64 z.
Definition int (z : Z) : Z := (z + 2 ^ 63) mod 2 ^ 64 - 2 ^ 63.

(** ** Go errors *)

(** An [error] value: an OS error number ([syscall.Errno]) with the text the
    OS gives for it, or a [fmt.Errorf] value.  [Wrapf prefix cause] is
    [fmt.Errorf(prefix + "%w", cause)]; [Plainf text] is a [fmt.Errorf]
    without [%w]. *)
Inductive error : Type :=
| Errno (code : Z) (text : string)
| Wrapf (prefix : string) (cause : error)
| Plainf (text : string).

(** [err.Error()] *)
Fixpoint Error (e : error) : string :=
  match e with
  | Errno _ text => text
  | Wrapf prefix cause => prefix +:+ Error cause
  | Plainf text => text
  end.

(** [errors.Is(err, target)] for an [Errno] target: walks the [%w] chain. *)
Fixpoint errorsIs (e : error) (target : Z) : bool :=
  match e with
  | Errno code _ => bool_decide (code = target)
  | Wrapf _ cause => errorsIs cause target
  | Plainf _ => false
  end.

(** The result of an OS call that reports failure through an [error]. *)
Inductive result (A : Type) : Type :=
| Ok (a : A)
| Fail (e : error).
Arguments Ok {A} a.
Arguments Fail {A} e.

Definition is_Ok {A} (r : result A) : Prop :=
  match r with
  | Ok _ => True
  | Fail _ => False
  end.

(** ** The Go standard library functions the code uses *)

Module strings.

Fixpoint HasPrefix (s prefix : string) : bool :=
  match prefix, s with
  | EmptyString, _ => true
  | String p prefix', String c s' =>
      if Ascii.eqb c p then HasPrefix s' prefix' else false
  | String _ _, EmptyString => false
  end.

Fixpoint drop (n : nat) (s : string) : string :=
  match n, s with
  | O, _ => s
  | S n', String _ s' => drop n' s'
  | S _, EmptyString => EmptyString
  end.

(** [strings.CutPrefix(s, prefix)]: [s] without the leading [prefix] and
    whether it was found. *)
Definition CutPrefix (s prefix : string) : string * bool :=
  if HasPrefix s prefix then (drop (String.length prefix) s, true)
  else (s, false).

(** [strings.Contains(s, substr)]: [substr] occurs at some position. *)
Fixpoint Contains (s substr : string) : bool :=
  if HasPrefix s substr then true
  else match s with
       | EmptyString => false
       | String _ s' => Contains s' substr
       end.

Definition HasSuffix (s suffix : string) : bool :=
  let n := String.length s in
  let k := String.length suffix in
  (k <=? n)%nat && String.eqb (drop (n - k) s) suffix.

(** [strings.TrimSuffix(s, suffix)]: removes one trailing [suffix]. *)
Definition TrimSuffix (s suffix : string) : string :=
  if HasSuffix s suffix
  then String.substring 0 (String.length s - String.length suffix) s
  else s.

(** [strings.Join(elems, sep)] *)
Fixpoint Join (elems : list string) (sep : string) : string :=
  match elems with
  | [] => EmptyString
  | [e] => e
  | e :: rest => e +:+ sep +:+ Join rest sep
  end.

End strings.

Module strconv.

Definition digitChar (d : Z) : ascii :=
  ascii_of_nat (Z.to_nat (if d <? 10 then 48 + d else 55 + d)).

(** The digit loop of [strconv.FormatUint]: the least significant digit
    of [u] is put in front of [acc] until the quotient is zero.  [fuel]
    bounds the number of digits. *)
Fixpoint formatBits (fuel : nat) (base u : Z) (acc : string) : string :=
  match fuel with
  | O => acc
  | S fuel' =>
      let acc' := String (digitChar (u mod base)) acc in
      if u / base =? 0 then acc' else formatBits fuel' base (u / base) acc'
  end.

(** [strconv.FormatUint(u, 10)] for a [uint64]: at most 20 digits. *)
Definition FormatUint (u : Z) : string := formatBits 20 10 u EmptyString.

(** [fmt.Sprintf("%X", u)] for a [uint32]: upper-case hexadecimal. *)
Definition FormatHex (u : Z) : string := formatBits 8 16 u EmptyString.

(** The value of a decimal text, continuing from the value [acc] of the
    digits already read (the digit loop of [strconv.ParseUint]). *)
Fixpoint parseDigits (acc : Z) (s : string) : Z :=
  match s with
  | EmptyString => acc
  | String c s' => parseDigits (acc * 10 + (Z.of_nat (nat_of_ascii c) - 48)) s'
  end.

End strconv.

Module binary.

Definition byteVal (b : Byte.byte) : Z := Z.of_N (Byte.to_N b).

(** [binary.LittleEndian.Uint32(b)]; [None] is the panic of the bounds
    check [_ = b[3]]. *)
Definition Uint32 (b : list Byte.byte) : option Z :=
  match b with
  | b0 :: b1 :: b2 :: b3 :: _ =>
      Some (Z.lor (Z.lor (Z.lor (byteVal b0) (Z.shiftl (byteVal b1) 8))
                         (Z.shiftl (byteVal b2) 16))
                  (Z.shiftl (byteVal b3) 24))
  | _ => None
  end.

End binary.

Module slices.

(** [slices.Sort] on a [[]string]: ascending in Go's string order, which
    compares byte-wise ([String.le] is the same order). *)
Definition Sort (l : list string) : list string := merge_sort String.le l.

(** [slices.Compact]: replaces each run of consecutive equal elements by
    a single copy. *)
Fixpoint Compact (l : list string) : list string :=
  match l with
  | [] => []
  | x :: rest =>
      match rest with
      | [] => [x]
      | y :: _ => if String.eqb x y then Compact rest else x :: Compact rest
      end
  end.

End slices.

(** ** The [golang.org/x/sys/windows] names the code uses *)

Module windows.

Definition DRIVE_UNKNOWN : Z := 0.
Definition DRIVE_NO_ROOT_DIR : Z := 1.
Definition DRIVE_REMOVABLE : Z := 2.
Definition DRIVE_FIXED : Z := 3.
Definition DRIVE_REMOTE : Z := 4.
Definition DRIVE_CDROM : Z := 5.
Definition DRIVE_RAMDISK : Z := 6.

Definition FILE_SHARE_READ : Z := 1.
Definition FILE_SHARE_WRITE : Z := 2.
Definition FILE_SHARE_DELETE : Z := 4.
Definition FILE_ATTRIBUTE_READONLY : Z := 1.
Definition OPEN_EXISTING : Z := 3.
Definition FILE_READ_ONLY_VOLUME : Z := 0x00080000.
Definition MAX_PATH : Z := 260.

Definition ERROR_FILE_NOT_FOUND : Z := 2.
Definition ERROR_NO_MORE_FILES : Z := 18.
Definition ERROR_MORE_DATA : Z := 234.

(** [windows.StringToUTF16Ptr(s)] panics when [s] contains a NUL
    character ([None]); otherwise the pointer stands for the text
    itself. *)
Definition StringToUTF16Ptr (s : string) : option string :=
  if strings.Contains s (String zero EmptyString) then None else Some s.

End windows.

(** ** The operating system as seen by the collector *)

(** The OS and COM calls the code issues, with the arguments that matter.
    For [GetVolumePathNamesForVolumeName], [bufferCap] is the number of
    16-bit units of the buffer the pointer argument points into and
    [bufferLength] the length argument passed along. *)
Inductive syscall : Type :=
| CreateFile (name : string) (access mode createmode attrs : Z)
| Close (fd : Z)
| DeviceIoControl (handle ioControlCode outBufferSize : Z)
| GetDriveType (rootPathName : string)
| GetVolumeInformation (rootPathName : string)
| FindFirstVolume (bufferLength : Z)
| FindNextVolume (findVolume bufferLength : Z)
| FindVolumeClose (findVolume : Z)
| GetVolumePathNamesForVolumeName
    (volumeName : string) (bufferCap bufferLength : Z)
| SHCreateItemFromParsingName (path : string)
| GetProperty (item : Z)
| Release (item : Z)
| VariantClear (val : Z).

(** What [windows.GetVolumeInformation] stores through its out-pointers when
    it succeeds; the two name buffers are given by the text they decode to
    ([windows.UTF16PtrToString]). *)
Record volumeInformation : Type := {
  volBufLabel : string;
  volSerialNum : Z;
  fsFlags : Z;
  volBufType : string
}.

(** The answers of the OS.  [os_DeviceIoControl] gives the bytes the OS
    writes at the start of the output buffer. *)
Record OS : Type := {
  os_CreateFile : string -> Z -> Z -> Z -> Z -> result Z;
  os_DeviceIoControl : Z -> Z -> Z -> result (list Byte.byte);
  os_GetDriveType : string -> Z;
  os_GetVolumeInformation : string -> result volumeInformation
}.

(** Code that may panic and that logs the OS calls it issues. *)
Definition Sys (A : Type) : Type := list syscall -> outcome A * list syscall.

Definition sys_ret {A} (a : A) : Sys A := fun log => (Returned a, log).

Definition sys_bind {A B} (m : Sys A) (k : A -> Sys B) : Sys B :=
  fun log =>
    match m log with
    | (Returned a, log') => k a log'
    | (Panicked, log') => (Panicked, log')
    | (Exhausted, log') => (Exhausted, log')
    end.

Definition sys_panic {A} : Sys A := fun log => (Panicked, log).

Definition sys_exhausted {A} : Sys A := fun log => (Exhausted, log).

(** Issue the call [c] and take the answer [a] of the OS. *)
Definition sys_call {A} (c : syscall) (a : A) : Sys A :=
  fun log => (Returned a, log ++ [c]).

(** [defer]: the call [c] runs when [body] is left, by a return or by a
    panic. *)
Definition sys_defer {A} (c : syscall) (body : Sys A) : Sys A :=
  fun log => let '(o, log') := body log in (o, log' ++ [c]).

(** A value that may be a panic, lifted into [Sys]. *)
Definition sys_try {A} (o : option A) : Sys A :=
  match o with
  | Some a => sys_ret a
  | None => sys_panic
  end.

Notation "'let*' x := m 'in' k" := (sys_bind m (fun x => k))
  (at level 10, x name, m at level 100, k at level 200,
   format "'[v' 'let*'  x  :=  m  'in' '/' k ']'").

(** ** [volumeInfo] and [getDriveType] *)

(** [readonly] is a [float64] in the source; it only ever holds the result
    of converting a [uint32], which is exact, so it is kept as the integer
    it represents. *)
Record volumeInfo : Type := {
  diskIDs : string;
  filesystem : string;
  serialNumber : string;
  label : string;
  volumeType : string;
  readonly : Z
}.

(** The zero value [volumeInfo{}]. *)
Definition volumeInfo_zero : volumeInfo :=
  {| diskIDs := ""; filesystem := ""; serialNumber := ""; label := "";
     volumeType := ""; readonly := 0 |}.

Definition getDriveType (driveType : Z) : string :=
  if driveType =? windows.DRIVE_UNKNOWN then "unknown"
  else if driveType =? windows.DRIVE_NO_ROOT_DIR then "norootdir"
  else if driveType =? windows.DRIVE_REMOVABLE then "removable"
  else if driveType =? windows.DRIVE_FIXED then "fixed"
  else if driveType =? windows.DRIVE_REMOTE then "remote"
  else if driveType =? windows.DRIVE_CDROM then "cdrom"
  else if driveType =? windows.DRIVE_RAMDISK then "ramdisk"
  else "unknown".

(** ** [getVolumeInfo] *)

(** [diskExtentSize] Size of the DiskExtent structure in bytes. *)
Definition diskExtentSize : Z := 24.

(** [make([]byte, n)] after the OS has written [written] at its start. *)
Definition outBuffer (n : nat) (written : list Byte.byte) : list Byte.byte :=
  take n (written ++ replicate n Byte.x00).

(** [b[off:]]; [None] is the panic "slice bounds out of range". *)
Definition sliceFrom (b : list Byte.byte) (off : Z) : option (list Byte.byte) :=
  if off <=? Z.of_nat (length b) then Some (drop (Z.to_nat off) b) else None.

(** The loop [for i := range numDiskIDs] with [todo] iterations left:
    [diskIDs[i]] receives the decimal text of the 32-bit little-endian value
    at [volumeDiskExtents[8+i*diskExtentSize:]]. *)
Fixpoint diskIDsLoop (volumeDiskExtents : list Byte.byte) (todo : nat) (i : Z)
    (diskIDs : list string) : option (list string) :=
  match todo with
  | O => Some diskIDs
  | S todo' =>
      tail ← sliceFrom volumeDiskExtents (uint (8 + i * diskExtentSize));
      diskNumber ← binary.Uint32 tail;
      diskIDsLoop volumeDiskExtents todo' (i + 1)
        (<[Z.to_nat i := strconv.FormatUint (uint64 diskNumber)]> diskIDs)
  end.

(** The working path: [rootDrive], or the volume GUID path it is mounted
    from without the [\\?\] prefix. *)
Definition volumePath (volumes : gmap string string) (rootDrive : string)
    : string :=
  match volumes !! rootDrive with
  | Some volumeGUID => fst (strings.CutPrefix volumeGUID "\\?\")
  | None => rootDrive
  end.

(** The root path given to [GetDriveType] and [GetVolumeInformation]. *)
Definition volumeInformationRootDrive (volumePath : string) : string :=
  let volumeInformationRootDrive := volumePath +:+ "\" in
  if strings.Contains volumePath "Volume"
  then "\\?\" +:+ volumeInformationRootDrive
  else volumeInformationRootDrive.

Definition mode : Z :=
  uint32 (Z.lor (Z.lor windows.FILE_SHARE_READ windows.FILE_SHARE_WRITE)
                windows.FILE_SHARE_DELETE).
Definition attr : Z := uint32 windows.FILE_ATTRIBUTE_READONLY.
(** IOCTL_VOLUME_GET_VOLUME_DISK_EXTENTS *)
Definition controlCode : Z := uint32 5636096.
(** [len(volumeDiskExtents)] *)
Definition volumeDiskExtentsLen : Z := 16 * 1024.

Definition getVolumeInfo (os : OS) (volumes : gmap string string)
    (rootDrive : string) : Sys (volumeInfo * option error) :=
  let volumePath := volumePath volumes rootDrive in
  let* volumePathPtr :=
    sys_try (windows.StringToUTF16Ptr ("\\.\" +:+ volumePath)) in
  let* opened :=
    sys_call (CreateFile volumePathPtr 0 mode windows.OPEN_EXISTING attr)
      (os_CreateFile os volumePathPtr 0 mode windows.OPEN_EXISTING attr) in
  match opened with
  | Fail err =>
      sys_ret (volumeInfo_zero,
               Some (Wrapf ("could not open volume for " +:+ rootDrive +:+ ": ")
                           err))
  | Ok volumeHandle =>
      sys_defer (Close volumeHandle) (
        let* ioctl :=
          sys_call (DeviceIoControl volumeHandle controlCode
                      (uint32 volumeDiskExtentsLen))
            (os_DeviceIoControl os volumeHandle controlCode
               (uint32 volumeDiskExtentsLen)) in
        match ioctl with
        | Fail err =>
            sys_ret (volumeInfo_zero,
                     Some (Wrapf ("could not identify physical drive for "
                                  +:+ rootDrive +:+ ": ") err))
        | Ok written =>
            let volumeDiskExtents :=
              outBuffer (Z.to_nat volumeDiskExtentsLen) written in
            let* count := sys_try (binary.Uint32 volumeDiskExtents) in
            let numDiskIDs := uint count in
            if numDiskIDs <? 1 then
              sys_ret (volumeInfo_zero,
                       Some (Plainf ("could not identify physical drive for "
                                     +:+ rootDrive
                                     +:+ ": no disk IDs returned")))
            else
              let* diskIDs :=
                sys_try (diskIDsLoop volumeDiskExtents (Z.to_nat numDiskIDs) 0
                           (replicate (Z.to_nat numDiskIDs) EmptyString)) in
              let diskIDs := slices.Sort diskIDs in
              let diskIDs := slices.Compact diskIDs in
              let volumeInformationRootDrive :=
                volumeInformationRootDrive volumePath in
              let* volumeInformationRootDrivePtr :=
                sys_try (windows.StringToUTF16Ptr volumeInformationRootDrive) in
              let* driveType :=
                sys_call (GetDriveType volumeInformationRootDrivePtr)
                  (uint32 (os_GetDriveType os volumeInformationRootDrivePtr)) in
              let* queried :=
                sys_call (GetVolumeInformation volumeInformationRootDrivePtr)
                  (os_GetVolumeInformation os volumeInformationRootDrivePtr) in
              match queried with
              | Fail err =>
                  if (driveType =? windows.DRIVE_CDROM)
                     || (driveType =? windows.DRIVE_REMOVABLE)
                  then sys_ret (volumeInfo_zero, None)
                  else
                    sys_ret (volumeInfo_zero,
                             Some (Wrapf ("could not get volume information for "
                                          +:+ volumeInformationRootDrive
                                          +:+ ": ") err))
              | Ok info =>
                  sys_ret
                    ({| diskIDs := strings.Join diskIDs ";";
                        volumeType := getDriveType driveType;
                        label := volBufLabel info;
                        filesystem := volBufType info;
                        serialNumber :=
                          strconv.FormatHex (uint32 (volSerialNum info));
                        readonly :=
                          Z.land (uint32 (fsFlags info))
                                 windows.FILE_READ_ONLY_VOLUME |},
                     None)
              end
        end)
  end.

(** ** [getAllMountedVolumes] *)

(** The enumeration calls answer differently each time they are issued, so
    the OS is given by a script: the answers of [FindFirstVolume] and of the
    successive [FindNextVolume] calls and, for each volume found, the
    answers of the successive [GetVolumePathNamesForVolumeName] calls made
    for it.  [returnLength] is the value of [rootPathLen] after the call.  A
    failed call leaves the buffers as they were. *)
Inductive pathNamesReply : Type :=
| PathNamesOk (text : string) (returnLength : Z)
| PathNamesFail (err : error) (returnLength : Z).

Inductive volumeReply : Type :=
| VolumeFound (guid : string) (pathNames : list pathNamesReply)
| VolumeFail (err : error).

Record volumeScript : Type := {
  hFindVolume : Z;
  replies : list volumeReply
}.

(** [rootPathBuf]: a [[]uint16] of [cap] units that decodes
    ([windows.UTF16ToString]) to [text]; a fresh buffer holds zeros and
    decodes to the empty text. *)
Record pathBuf : Type := {
  cap : Z;
  text : string
}.

Definition makePathBuf (n : Z) : pathBuf := {| cap := n; text := "" |}.

(** How the inner [for] loop is left. *)
Inductive loopExit : Type :=
| Break (rootPathBuf : pathBuf)
| Return (err : error).

(** The inner loop [for { err = GetVolumePathNamesForVolumeName(...) ... }].
    Taking [&rootPathBuf[0]] panics on an empty buffer. *)
Fixpoint pathNamesLoop (guid : string) (rootPathBufLen : Z)
    (script : list pathNamesReply) (rootPathBuf : pathBuf) : Sys loopExit :=
  if cap rootPathBuf =? 0 then sys_panic
  else
    match script with
    | [] => sys_exhausted
    | reply :: script' =>
        let* answer :=
          sys_call (GetVolumePathNamesForVolumeName guid (cap rootPathBuf)
                      rootPathBufLen) reply in
        match answer with
        | PathNamesOk written _ =>
            sys_ret (Break {| cap := cap rootPathBuf; text := written |})
        | PathNamesFail err rootPathLen =>
            if errorsIs err windows.ERROR_FILE_NOT_FOUND then
              (* the volume is not mounted *)
              sys_ret (Break rootPathBuf)
            else if errorsIs err windows.ERROR_NO_MORE_FILES then
              pathNamesLoop guid rootPathBufLen script'
                (makePathBuf (uint32 (uint32 rootPathLen + 1) / 2))
            else
              sys_ret (Return (Wrapf "GetVolumePathNamesForVolumeName: " err))
        end
    end.

(** The outer loop [for ; ; err = FindNextVolume(...)], entered with the
    volume [guid] in [guidBuf] and a nil [err]; [script] holds the answers of
    the [FindNextVolume] calls still to come. *)
Fixpoint volumesLoop (h guidBufLen : Z) (guid : string)
    (pathNames : list pathNamesReply) (script : list volumeReply)
    (volumes : gmap string string) : Sys (result (gmap string string)) :=
  let rootPathBuf := makePathBuf (windows.MAX_PATH + 1) in
  let rootPathBufLen := uint32 (cap rootPathBuf * 2) in
  let* exit := pathNamesLoop guid rootPathBufLen pathNames rootPathBuf in
  match exit with
  | Return err => sys_ret (Fail err)
  | Break rootPathBuf =>
      let mountPoint := text rootPathBuf in
      let volumes :=
        (* Skip unmounted volumes *)
        if (String.length mountPoint =? 0)%nat then volumes
        else <[strings.TrimSuffix mountPoint "\" :=
                 strings.TrimSuffix guid "\"]> volumes in
      match script with
      | [] => sys_exhausted
      | reply :: script' =>
          let* answer := sys_call (FindNextVolume h guidBufLen) reply in
          match answer with
          | VolumeFail err =>
              if errorsIs err windows.ERROR_NO_MORE_FILES
              then sys_ret (Ok volumes)
              else sys_ret (Fail (Wrapf "FindNextVolume: " err))
          | VolumeFound guid' pathNames' =>
              volumesLoop h guidBufLen guid' pathNames' script' volumes
          end
      end
  end.

Definition getAllMountedVolumes (os : volumeScript)
    : Sys (result (gmap string string)) :=
  let guidBufLen := uint32 ((windows.MAX_PATH + 1) * 2) in
  match replies os with
  | [] => sys_exhausted
  | reply :: script =>
      let* answer := sys_call (FindFirstVolume guidBufLen) reply in
      match answer with
      | VolumeFail err => sys_ret (Fail (Wrapf "FindFirstVolume: " err))
      | VolumeFound guid pathNames =>
          sys_defer (FindVolumeClose (hFindVolume os))
            (volumesLoop (hFindVolume os) guidBufLen guid pathNames script ∅)
      end
  end.

(** ** The BitLocker worker *)

(** [ole.VARIANT]: only the [Val int64] field is read. *)
Record VARIANT : Type := {
  VT : Z;
  Val : Z
}.

(** The answers of the shell: [SHCreateItemFromParsingName] gives a shell
    item, [item.GetProperty(&pkey, &v)] fills a variant, [v.Clear()] gives
    an error or nil.  These are the answers of calls that return; which
    calls panic instead is given apart, in [guarded]. *)
Record Shell : Type := {
  sh_SHCreateItemFromParsingName : string -> result Z;
  sh_GetProperty : Z -> result VARIANT;
  sh_Clear : VARIANT -> option error
}.

(** What is sent on [bitlockerResCh]. *)
Record bitlockerRes : Type := {
  err : option error;
  status : Z
}.

(** The function literal [func(path string) (int, error)] of the worker. *)
Definition bitlockerQuery (sh : Shell) (path : string)
    : Sys (Z * option error) :=
  let* created :=
    sys_call (SHCreateItemFromParsingName path)
      (sh_SHCreateItemFromParsingName sh path) in
  match created with
  | Fail err =>
      sys_ret (-1, Some (Wrapf "SHCreateItemFromParsingName failed: " err))
  | Ok item =>
      sys_defer (Release item) (
        let* got := sys_call (GetProperty item) (sh_GetProperty sh item) in
        match got with
        | Fail err => sys_ret (-1, Some (Wrapf "GetProperty failed: " err))
        | Ok v =>
            let* cleared := sys_call (VariantClear (Val v)) (sh_Clear sh v) in
            sys_ret (int (Val v), cleared)
        end)
  end.

(** The body of [case path, ok := <-c.bitlockerReqCh] for a received
    [path]: the value sent on [bitlockerResCh]. *)
Definition workerBitlocker_request (sh : Shell) (path : string)
    : Sys bitlockerRes :=
  if negb (strings.Contains path ":") then
    sys_ret {| err := None; status := -1 |}
  else
    let* answer := bitlockerQuery sh path in
    sys_ret {| err := snd answer; status := fst answer |}.

(** What the [select] of the worker loop picks. *)
Inductive selected : Type :=
| ctxDone
| received (path : string)
| closed.

(** The loop [for { select { ... } }] of [workerBitlocker] after a
    successful initialisation, run on the events its [select] picks:
    the responses it sends, in order.  This is the loop when every shell
    call returns; [guarded.workerBitlocker_loop] is the loop when some
    panic. *)
Fixpoint workerBitlocker_loop (sh : Shell) (events : list selected)
    : Sys (list bitlockerRes) :=
  match events with
  | [] => sys_ret []
  | ctxDone :: _ => sys_ret []
  | closed :: _ => sys_ret []
  | received path :: events' =>
      let* res := workerBitlocker_request sh path in
      let* sent := workerBitlocker_loop sh events' in
      sys_ret (res :: sent)
  end.

(** ** The BitLocker indicators of [Collect] *)

Record metric : Type := {
  value : Z;
  labelValues : list string
}.

Definition bitlockerLabels : list string :=
  ["disabled"; "on"; "off"; "encrypting"; "decrypting"; "suspended";
   "locked"; "unknown"; "waiting_for_activation"].

(** The part of [Collect] that follows the receipt of [bitlockerStatus] for
    the volume [name]: the [bitlockerStatus] metrics sent on [ch].  The
    values [0.0] and [1.0] are kept as the integers they are. *)
Definition Collect_bitlocker (name : string) (bitlockerStatus : bitlockerRes)
    : list metric :=
  match err bitlockerStatus with
  | Some _ => []
  | None =>
      if status bitlockerStatus =? -1 then []
      else
        imap (fun i status' =>
                {| value := if status bitlockerStatus =? Z.of_nat i
                            then 1 else 0;
                   labelValues := [name; status'] |})
             bitlockerLabels
  end.

(** ** What the specification says *)

(** The disk-ID text as the specification words it: the disk numbers sorted
    ascending, deduplicated, written in decimal and joined with [;]. *)
Definition spec_diskIDs (diskNumbers : list Z) : string :=
  strings.Join
    (strconv.FormatUint <$> remove_dups (merge_sort Z.le diskNumbers)) ";".

(** The 32-bit little-endian value at offset [off] of a buffer. *)
Definition uint32At (b : list Byte.byte) (off : Z) : option Z :=
  sliceFrom b off ≫= binary.Uint32.

(** The disk number the source reads for the extent [i]. *)
Definition diskNumberAt (volumeDiskExtents : list Byte.byte) (i : Z)
    : option Z :=
  uint32At volumeDiskExtents (8 + i * diskExtentSize).

(** A well-formed disk-extent buffer for [diskNumbers]: the full 16 KiB
    buffer, whose extent count is their number and whose extent [i], all
    inside the buffer, holds the disk number [i]. *)
Definition encodesExtents (volumeDiskExtents : list Byte.byte)
    (diskNumbers : list Z) : Prop :=
  Z.of_nat (length volumeDiskExtents) = volumeDiskExtentsLen ∧
  binary.Uint32 volumeDiskExtents = Some (Z.of_nat (length diskNumbers)) ∧
  8 + Z.of_nat (length diskNumbers) * diskExtentSize <= volumeDiskExtentsLen ∧
  ∀ (i : nat) (n : Z),
    diskNumbers !! i = Some n →
    diskNumberAt volumeDiskExtents (Z.of_nat i) = Some n.

(** The OS lets [getVolumeInfo] open the volume and answers its disk-extent
    query, leaving [volumeDiskExtents] in the output buffer. *)
Definition answersExtents (os : OS) (volumes : gmap string string)
    (rootDrive : string) (volumeHandle : Z)
    (volumeDiskExtents : list Byte.byte) : Prop :=
  let volumePathPtr := "\\.\" +:+ volumePath volumes rootDrive in
  ∃ written,
    windows.StringToUTF16Ptr volumePathPtr = Some volumePathPtr ∧
    os_CreateFile os volumePathPtr 0 mode windows.OPEN_EXISTING attr
      = Ok volumeHandle ∧
    os_DeviceIoControl os volumeHandle controlCode
      (uint32 volumeDiskExtentsLen) = Ok written ∧
    volumeDiskExtents = outBuffer (Z.to_nat volumeDiskExtentsLen) written.

(** ... and the extent loop runs through it, giving [diskIDs]. *)
Definition parsesExtents (volumeDiskExtents : list Byte.byte)
    (diskIDs : list string) : Prop :=
  ∃ count,
    binary.Uint32 volumeDiskExtents = Some count ∧
    1 <= uint count ∧
    diskIDsLoop volumeDiskExtents (Z.to_nat (uint count)) 0
      (replicate (Z.to_nat (uint count)) EmptyString) = Some diskIDs.

(** The calls of a run of [getVolumeInfo] that gets as far as the
    volume-information query. *)
Definition fullLog (volumes : gmap string string) (rootDrive : string)
    (volumeHandle : Z) : list syscall :=
  let volumePath := volumePath volumes rootDrive in
  [ CreateFile ("\\.\" +:+ volumePath) 0 mode windows.OPEN_EXISTING attr;
    DeviceIoControl volumeHandle controlCode (uint32 volumeDiskExtentsLen);
    GetDriveType (volumeInformationRootDrive volumePath);
    GetVolumeInformation (volumeInformationRootDrive volumePath);
    Close volumeHandle ].

Definition isPathNamesCall (c : syscall) : bool :=
  match c with
  | GetVolumePathNamesForVolumeName _ _ _ => true
  | _ => false
  end.

(** The number of [GetVolumePathNamesForVolumeName] calls in a log. *)
Definition pathNamesCalls (log : list syscall) : nat :=
  length (List.filter isPathNamesCall log).

(** The buffer sizes, in 16-bit units, of the
    [GetVolumePathNamesForVolumeName] calls in a log. *)
Definition pathNamesCaps (log : list syscall) : list Z :=
  omap (fun c => match c with
                 | GetVolumePathNamesForVolumeName _ bufferCap _ =>
                     Some bufferCap
                 | _ => None
                 end) log.

(** The size, in 16-bit units, of the buffer the source allocates when
    [rootPathLen] holds the length the OS reported. *)
Definition resized (rootPathLen : Z) : Z :=
  uint32 (uint32 rootPathLen + 1) / 2.

(** The OS reports that the output buffer is too small:
    [GetVolumePathNamesForVolumeName] fails with [ERROR_MORE_DATA] and
    reports the required length. *)
Definition undersized (reply : pathNamesReply) : bool :=
  match reply with
  | PathNamesOk _ _ => false
  | PathNamesFail err _ => errorsIs err windows.ERROR_MORE_DATA
  end.

(** The answers on which the inner loop allocates a new buffer and calls
    again: the test of the source,
    [errors.Is(err, windows.ERROR_NO_MORE_FILES)]. *)
Definition retried (reply : pathNamesReply) : bool :=
  match reply with
  | PathNamesOk _ _ => false
  | PathNamesFail err _ => errorsIs err windows.ERROR_NO_MORE_FILES
  end.

(** The value of [rootPathLen] after an answer. *)
Definition reportedLength (reply : pathNamesReply) : Z :=
  match reply with
  | PathNamesOk _ n => n
  | PathNamesFail _ n => n
  end.

(** The buffer in use after the retried answers [reports]. *)
Definition lastPathBuf (rootPathBuf : pathBuf) (reports : list pathNamesReply)
    : pathBuf :=
  foldl (fun _ r => makePathBuf (resized (reportedLength r)))
        rootPathBuf reports.

(** How the inner loop is left on an answer that is not retried: success,
    skip, or error. *)
Definition settle (rootPathBuf : pathBuf) (reply : pathNamesReply)
    : loopExit :=
  match reply with
  | PathNamesOk written _ =>
      Break {| cap := cap rootPathBuf; text := written |}
  | PathNamesFail err _ =>
      if errorsIs err windows.ERROR_FILE_NOT_FOUND then Break rootPathBuf
      else Return (Wrapf "GetVolumePathNamesForVolumeName: " err)
  end.

(** ** Concrete inputs *)

Module Inputs.

Definition byteOf (z : Z) : Byte.byte :=
  default Byte.x00 (Byte.of_N (Z.to_N (z mod 256))).

Definition le32 (z : Z) : list Byte.byte :=
  [byteOf z; byteOf (z / 2 ^ 8); byteOf (z / 2 ^ 16); byteOf (z / 2 ^ 24)].

(** A 24-byte extent record given by its first two 32-bit words. *)
Definition extentRecord (r : Z * Z) : list Byte.byte :=
  le32 (fst r) ++ le32 (snd r) ++ replicate 16 Byte.x00.

(** The bytes of a disk-extent answer: the count, four more bytes, and
    the records from offset 8 on. *)
Definition extents (records : list (Z * Z)) : list Byte.byte :=
  le32 (Z.of_nat (length records)) ++ le32 0
    ++ concat (extentRecord <$> records).

Definition ntfs (flags : Z) : volumeInformation :=
  {| volBufLabel := "System"; volSerialNum := 0xC0FFEE; fsFlags := flags;
     volBufType := "NTFS" |}.

Definition os (written : result (list Byte.byte)) (driveType : Z)
    (info : result volumeInformation) : OS :=
  {| os_CreateFile := fun _ _ _ _ _ => Ok 7;
     os_DeviceIoControl := fun _ _ _ => written;
     os_GetDriveType := fun _ => driveType;
     os_GetVolumeInformation := fun _ => info |}.

Definition notReady : error := Errno 21 "The device is not ready.".

Definition moreData (n : Z) : pathNamesReply :=
  PathNamesFail (Errno windows.ERROR_MORE_DATA "More data is available.") n.

Definition noMoreVolumes : volumeReply :=
  VolumeFail (Errno windows.ERROR_NO_MORE_FILES "There are no more files.").

Definition shell (created : result Z) (got : result VARIANT)
    (cleared : option error) : Shell :=
  {| sh_SHCreateItemFromParsingName := fun _ => created;
     sh_GetProperty := fun _ => got;
     sh_Clear := fun _ => cleared |}.

End Inputs.

(** * The rest of the collector *)

(** ** Reading a log of calls *)

Definition isClose (c : syscall) : bool :=
  match c with
  | Close _ => true
  | _ => false
  end.

Definition isFindVolumeClose (c : syscall) : bool :=
  match c with
  | FindVolumeClose _ => true
  | _ => false
  end.


Definition isRelease (c : syscall) : bool :=
  match c with
  | Release _ => true
  | _ => false
  end.

Definition isVariantClear (c : syscall) : bool :=
  match c with
  | VariantClear _ => true
  | _ => false
  end.

(** The number of calls of a kind in a log. *)
Definition countCalls (kind : syscall -> bool) (log : list syscall) : nat :=
  length (List.filter kind log).

(** The access rights a call asks for: only [CreateFile] asks for any, in
    its [access] argument. *)
Definition accessOf (c : syscall) : Z :=
  match c with
  | CreateFile _ access _ _ _ => access
  | _ => 0
  end.

(** The share mode a [CreateFile] call grants to other processes. *)
Definition shareModeOf (c : syscall) : option Z :=
  match c with
  | CreateFile _ _ mode _ _ => Some mode
  | _ => None
  end.

(** ** [getAllMountedVolumes]: volumes settled by their first answer *)

(** An answer that ends the inner loop without an error: the mount points
    were written, or the volume is not mounted. *)
Definition settled (reply : pathNamesReply) : bool :=
  match reply with
  | PathNamesOk _ _ => true
  | PathNamesFail err _ => errorsIs err windows.ERROR_FILE_NOT_FOUND
  end.

(** The text [rootPathBuf] decodes to after such an answer, starting from a
    fresh buffer. *)
Definition mountPointOf (reply : pathNamesReply) : string :=
  match reply with
  | PathNamesOk written _ => written
  | PathNamesFail _ _ => EmptyString
  end.

(** The last statements of the outer loop body: an empty mount point is
    skipped, any other is stored, both sides without one trailing
    separator. *)
Definition addMount (volumes : gmap string string) (volume : string * pathNamesReply)
    : gmap string string :=
  let mountPoint := mountPointOf (snd volume) in
  if (String.length mountPoint =? 0)%nat then volumes
  else <[strings.TrimSuffix mountPoint "\" :=
           strings.TrimSuffix (fst volume) "\"]> volumes.

(** The script of an OS that reports the volumes [found], each settled by
    its first answer, and then the error [last]. *)
Definition enumerationOf (h : Z) (found : list (string * pathNamesReply))
    (last : error) : volumeScript :=
  {| hFindVolume := h;
     replies := ((fun v => VolumeFound (fst v) [snd v]) <$> found)
                ++ [VolumeFail last] |}.

(** The calls made for the volumes [found]: for each, one mount-point query
    with the initial buffer and the [FindNextVolume] call that follows. *)
Definition settledCalls (h : Z) (found : list (string * pathNamesReply))
    : list syscall :=
  found ≫= fun v =>
    [GetVolumePathNamesForVolumeName (fst v) 261 522; FindNextVolume h 522].

(** ** The BitLocker worker: a whole run *)

(** The requests the loop of the worker takes up: those received before the
    first cancellation or closed channel. *)
Fixpoint served (events : list selected) : list string :=
  match events with
  | received path :: events' => path :: served events'
  | _ => []
  end.

(** Whether the loop returns: its [select] picks a cancellation or a closed
    channel at some point. *)
Fixpoint stopped (events : list selected) : bool :=
  match events with
  | [] => false
  | received _ :: events' => stopped events'
  | _ => true
  end.

(** The response to a request, as sent on [bitlockerResCh]. *)
Definition responseTo (sh : Shell) (path : string) : bitlockerRes :=
  match fst (workerBitlocker_request sh path []) with
  | Returned res => res
  | _ => {| err := None; status := -1 |}
  end.

(** The names of [github.com/go-ole/go-ole] the worker uses. *)
Module ole.

Definition S_OK : Z := 0.
Definition COINIT_APARTMENTTHREADED : Z := 0x2.
Definition COINIT_DISABLE_OLE1DDE : Z := 0x4.

End ole.

(** A non-nil error of [ole.CoInitializeEx]: [oleCode] is the code of the
    [*ole.OleError] that [errors.As] finds in it, if there is one. *)
Record comError : Type := {
  oleCode : option Z;
  comErr : error
}.

(** The answers of COM and of the property system; [None] is a nil
    error. *)
Record COM : Type := {
  com_CoInitializeEx : Z -> Z -> option comError;
  com_PSGetPropertyKeyFromName : string -> option error
}.

(** The calls of the worker, those of its requests included. *)
Inductive workerCall : Type :=
| LockOSThread
| UnlockOSThread
| CoInitializeEx (p coinit : Z)
| CoUninitialize
| PSGetPropertyKeyFromName (name : string)
| ShellCall (c : syscall).

(** A run of the worker: what the receiver of [initErrCh] gets (the error
    sent, or nil once the channel is closed), the responses sent, and the
    calls made. *)
Record workerRun : Type := {
  initErr : option error;
  sent : list bitlockerRes;
  workerCalls : list workerCall
}.

(** The test made on the error of [CoInitializeEx]: it is an OLE error whose
    code is neither [S_OK] nor [0x00000001]. *)
Definition refuses (e : comError) : bool :=
  match oleCode e with
  | Some code => negb (code =? ole.S_OK) && negb (code =? 0x00000001)
  | None => false
  end.

(** [workerBitlocker], run on the events its [select] picks.  The deferred
    calls run when the function returns: [CoUninitialize] (once it is
    registered), then [UnlockOSThread].  The function does not return while
    the loop waits for the next event.  This is the worker when no call
    panics, so that the deferred [recover] finds nothing;
    [guarded.workerBitlocker] is the worker with the panics of the shell
    calls and the restarts that follow them. *)
Definition workerBitlocker (com : COM) (sh : Shell) (events : list selected)
    : workerRun :=
  let coinit :=
    Z.lor ole.COINIT_APARTMENTTHREADED ole.COINIT_DISABLE_OLE1DDE in
  let name := "System.Volume.BitLockerProtection" in
  let entered := [LockOSThread; CoInitializeEx 0 coinit] in
  let initialized :=
    match com_PSGetPropertyKeyFromName com name with
    | Some e =>
        {| initErr := Some (Wrapf "PSGetPropertyKeyFromName failed: " e);
           sent := [];
           workerCalls :=
             entered ++ [PSGetPropertyKeyFromName name; CoUninitialize;
                         UnlockOSThread] |}
    | None =>
        let run := workerBitlocker_loop sh events [] in
        {| initErr := None;
           sent := match fst run with Returned rs => rs | _ => [] end;
           workerCalls :=
             entered ++ [PSGetPropertyKeyFromName name]
             ++ (ShellCall <$> snd run)
             ++ (if stopped events
                 then [CoUninitialize; UnlockOSThread] else []) |}
    end in
  match com_CoInitializeEx com 0 coinit with
  | Some e =>
      if refuses e then
        {| initErr := Some (Wrapf "CoInitializeEx: " (comErr e));
           sent := [];
           workerCalls := entered ++ [UnlockOSThread] |}
      else initialized
  | None => initialized
  end.

(** ** [Build] *)

Definition subCollectorMetrics : string := "metrics".
Definition subCollectorBitlocker : string := "bitlocker_status".

(** [slices.Contains] on a [[]string]. *)
Definition slices_Contains (s : list string) (v : string) : bool :=
  existsb (String.eqb v) s.

(** The loop of [Build] over [c.config.CollectorsEnabled]: the error it
    returns, if any. *)
Fixpoint Build_enabled (CollectorsEnabled : list string) : option error :=
  match CollectorsEnabled with
  | [] => None
  | collector :: rest =>
      if negb (slices_Contains [subCollectorMetrics; subCollectorBitlocker]
                 collector)
      then
        Some (Plainf ("unknown sub collector: " +:+ collector
                      +:+ ". Possible values: "
                      +:+ strings.Join
                            [subCollectorMetrics; subCollectorBitlocker] ", "))
      else Build_enabled rest
  end.

(** [Build]: the error it returns and the worker it has started, if any.
    [newCollector] is the error of [pdh.NewCollector]; the descriptors it
    creates in between have no part in the result. *)
Definition Build (CollectorsEnabled : list string)
    (newCollector : option error) (com : COM) (sh : Shell)
    (events : list selected) : option error * option workerRun :=
  match Build_enabled CollectorsEnabled with
  | Some e => (Some e, None)
  | None =>
      match newCollector with
      | Some e =>
          (Some (Wrapf "failed to create LogicalDisk collector: " e), None)
      | None =>
          if slices_Contains CollectorsEnabled subCollectorBitlocker then
            let worker := workerBitlocker com sh events in
            match initErr worker with
            | Some e =>
                (Some (Wrapf "failed to initialize BitLocker worker: " e),
                 Some worker)
            | None => (None, Some worker)
            end
          else (None, None)
      end
  end.

(** [strings.Split(s, sep)] for a separator of one character; [field] is
    the part of the current field already read. *)
Fixpoint Split_from (sep : ascii) (field s : string) : list string :=
  match s with
  | EmptyString => [field]
  | String c s' =>
      if Ascii.eqb c sep then field :: Split_from sep EmptyString s'
      else Split_from sep (field +:+ String c EmptyString) s'
  end.

Definition Split (s : string) (sep : ascii) : list string :=
  Split_from sep EmptyString s.

(** ** [Collect] *)

(** The descriptors of the [Collector]. *)
Inductive descriptor : Type :=
| avgReadQueue | avgWriteQueue | freeSpace | idleTime | information
| readBytesTotal | readLatency | readOnly | readsTotal | readTime
| readWriteLatency | requestsQueued | splitIOs | totalSpace
| writeBytesTotal | writeLatency | writesTotal | writeTime
| bitlockerStatus.

Inductive valueType : Type :=
| GaugeValue
| CounterValue.

(** [Config]: the patterns are given by their [MatchString]. *)
Record Config : Type := {
  CollectorsEnabled : list string;
  VolumeInclude : string -> bool;
  VolumeExclude : string -> bool
}.

Section Collect.

(** The counter values are [float64]s, which are left abstract: the value of
    a metric is kept as the expression the source computes. *)
Variable float64 : Type.

(** One row of performance data: [perfDataCounterValues], whose declaration
    is in another file of the package; these are the fields [Collect]
    reads. *)
Record perfDataCounterValues : Type := {
  Name : string;
  CurrentDiskQueueLength : float64;
  AvgDiskReadQueueLength : float64;
  AvgDiskWriteQueueLength : float64;
  DiskReadBytesPerSec : float64;
  DiskReadsPerSec : float64;
  DiskWriteBytesPerSec : float64;
  DiskWritesPerSec : float64;
  PercentDiskReadTime : float64;
  PercentDiskWriteTime : float64;
  FreeSpace : float64;
  PercentFreeSpace : float64;
  PercentIdleTime : float64;
  SplitIOPerSec : float64;
  AvgDiskSecPerRead : float64;
  AvgDiskSecPerWrite : float64;
  AvgDiskSecPerTransfer : float64
}.

(** The value of a metric: [x], [x * pdh.TicksToSecondScaleFactor],
    [x * 1024 * 1024], or a literal. *)
Inductive sampleValue : Type :=
| plain (x : float64)
| ticksToSeconds (x : float64)
| mebi (x : float64)
| literal (z : Z).

(** A metric sent on [ch] by [prometheus.MustNewConstMetric]. *)
Record sample : Type := {
  desc : descriptor;
  kind : valueType;
  sampleOf : sampleValue;
  sampleLabels : list string
}.

(** The metrics of the "metrics" sub collector for one row. *)
Definition Collect_metrics (data : perfDataCounterValues) : list sample :=
  let metric d k v :=
    {| desc := d; kind := k; sampleOf := v; sampleLabels := [Name data] |} in
  [ metric requestsQueued GaugeValue (plain (CurrentDiskQueueLength data));
    metric avgReadQueue GaugeValue
      (ticksToSeconds (AvgDiskReadQueueLength data));
    metric avgWriteQueue GaugeValue
      (ticksToSeconds (AvgDiskWriteQueueLength data));
    metric readBytesTotal CounterValue (plain (DiskReadBytesPerSec data));
    metric readsTotal CounterValue (plain (DiskReadsPerSec data));
    metric writeBytesTotal CounterValue (plain (DiskWriteBytesPerSec data));
    metric writesTotal CounterValue (plain (DiskWritesPerSec data));
    metric readTime CounterValue (plain (PercentDiskReadTime data));
    metric writeTime CounterValue (plain (PercentDiskWriteTime data));
    metric freeSpace GaugeValue (mebi (FreeSpace data));
    metric totalSpace GaugeValue (mebi (PercentFreeSpace data));
    metric idleTime CounterValue (plain (PercentIdleTime data));
    metric splitIOs CounterValue (plain (SplitIOPerSec data));
    metric readLatency CounterValue (ticksToSeconds (AvgDiskSecPerRead data));
    metric writeLatency CounterValue
      (ticksToSeconds (AvgDiskSecPerWrite data));
    metric readWriteLatency CounterValue
      (ticksToSeconds (AvgDiskSecPerTransfer data)) ].

(** The "information" metric of a volume. *)
Definition Collect_information (name : string) (info : volumeInfo) : sample :=
  {| desc := information; kind := GaugeValue; sampleOf := literal 1;
     sampleLabels := [diskIDs info; volumeType info; name; label info;
                      filesystem info; serialNumber info] |}.

(** The body of the loop of [Collect] for one row.  The error of
    [getVolumeInfo] is logged and otherwise ignored.  The request to the
    worker and its response pass through the two channels; the worker is
    taken to be waiting in its loop. *)
Definition Collect_row (config : Config) (volumes : gmap string string)
    (os : OS) (sh : Shell) (data : perfDataCounterValues)
    : Sys (list sample) :=
  if VolumeExclude config (Name data)
     || negb (VolumeInclude config (Name data))
  then sys_ret []
  else
    let* resolved := getVolumeInfo os volumes (Name data) in
    let info := fst resolved in
    let emitted :=
      Collect_information (Name data) info
      :: (if slices_Contains (CollectorsEnabled config) subCollectorMetrics
          then Collect_metrics data else []) in
    if slices_Contains (CollectorsEnabled config) subCollectorBitlocker then
      let* response := workerBitlocker_request sh (Name data) in
      sys_ret
        (emitted
         ++ ((fun m => {| desc := bitlockerStatus; kind := GaugeValue;
                          sampleOf := literal (value m);
                          sampleLabels := labelValues m |})
               <$> Collect_bitlocker (Name data) response))
    else sys_ret emitted.

(** The loop [for _, data := range c.perfDataObject]. *)
Fixpoint Collect_rows (config : Config) (volumes : gmap string string)
    (os : OS) (sh : Shell) (rows : list perfDataCounterValues)
    : Sys (list sample) :=
  match rows with
  | [] => sys_ret []
  | data :: rows' =>
      let* first := Collect_row config volumes os sh data in
      let* others := Collect_rows config volumes os sh rows' in
      sys_ret (first ++ others)
  end.

(** [Collect]: the metrics sent on [ch] and the error returned.
    [perfDataObject] is what [c.perfDataCollector.Collect] gives. *)
Definition Collect (config : Config)
    (perfDataObject : result (list perfDataCounterValues))
    (enumeration : volumeScript) (os : OS) (sh : Shell)
    : Sys (list sample * option error) :=
  match perfDataObject with
  | Fail err =>
      sys_ret ([], Some (Wrapf "failed to collect LogicalDisk metrics: " err))
  | Ok rows =>
      let* mounted := getAllMountedVolumes enumeration in
      match mounted with
      | Fail err => sys_ret ([], Some (Wrapf "failed to get volumes: " err))
      | Ok volumes =>
          let* samples := Collect_rows config volumes os sh rows in
          sys_ret (samples, None)
      end
  end.

End Collect.

Arguments Name {float64} _.
Arguments plain {float64} x.
Arguments ticksToSeconds {float64} x.
Arguments mebi {float64} x.
Arguments literal {float64} z.
Arguments desc {float64} _.
Arguments kind {float64} _.
Arguments sampleOf {float64} _.
Arguments sampleLabels {float64} _.
Arguments Collect_metrics {float64} data.
Arguments Collect_information {float64} name info.
Arguments Collect_row {float64} config volumes os sh data.
Arguments Collect_rows {float64} config volumes os sh rows.
Arguments Collect {float64} config perfDataObject enumeration os sh.

(** The "information" metrics among those sent. *)
Definition isInformation (d : descriptor) : bool :=
  match d with
  | information => true
  | _ => false
  end.

(** Sample inputs of [Collect]. *)
Module CollectInputs.

Definition row (name : string) : perfDataCounterValues Z :=
  {| Name := name;
     CurrentDiskQueueLength := 0;
     AvgDiskReadQueueLength := 1;
     AvgDiskWriteQueueLength := 2;
     DiskReadBytesPerSec := 3;
     DiskReadsPerSec := 4;
     DiskWriteBytesPerSec := 5;
     DiskWritesPerSec := 6;
     PercentDiskReadTime := 7;
     PercentDiskWriteTime := 8;
     FreeSpace := 9;
     PercentFreeSpace := 10;
     PercentIdleTime := 11;
     SplitIOPerSec := 12;
     AvgDiskSecPerRead := 13;
     AvgDiskSecPerWrite := 14;
     AvgDiskSecPerTransfer := 15 |}.

(** Every volume but [HarddiskVolume1]. *)
Definition config (enabled : list string) : Config :=
  {| CollectorsEnabled := enabled;
     VolumeInclude := fun _ => true;
     VolumeExclude := fun name => String.eqb name "HarddiskVolume1" |}.


Definition healthy : OS :=
  Inputs.os (Ok (Inputs.extents [(1, 0)])) windows.DRIVE_FIXED
    (Ok (Inputs.ntfs 0)).

Definition encrypted : Shell :=
  Inputs.shell (Ok 11) (Ok {| VT := 19; Val := 1 |}) None.

Definition oneVolume : volumeScript :=
  enumerationOf 3 [("\\?\Volume{a}\", PathNamesOk "C:\" 4)]
    (Errno windows.ERROR_NO_MORE_FILES "no more files").

End CollectInputs.

(** * The older collector: [pkg/collector/logical_disk] *)

Module pkg.

Record Config : Type := {
  VolumeInclude : string;
  VolumeExclude : string
}.

Definition ConfigDefaults : Config :=
  {| VolumeInclude := ".+"; VolumeExclude := "" |}.

(** [fmt.Sprintf("^(?:%s)$", expr)] *)
Definition anchored (expr : string) : string := "^(?:" +:+ expr +:+ ")$".

Definition blacklistError : error :=
  Plainf ("--collector.logical_disk.volume-blacklist and "
          +:+ "--collector.logical_disk.volume-exclude are mutually exclusive").

Definition whitelistError : error :=
  Plainf ("--collector.logical_disk.volume-whitelist and "
          +:+ "--collector.logical_disk.volume-include are mutually exclusive").

Section collector.

(** [regexp.Compile] and the [MatchString] of a compiled pattern. *)
Context {Regexp : Type}.
Variable Compile : string -> result Regexp.
Variable MatchString : Regexp -> string -> bool.

(** The fields of [collector] that [Build] and [collect] read or write
    beyond the descriptors.  A [*string] or [*regexp.Regexp] is [None] when
    nil and otherwise holds what it points to; the four strings are
    distinct variables. *)
Record collector : Type := {
  volumeOldInclude : option string;
  volumeOldExclude : option string;
  volumeInclude : option string;
  volumeExclude : option string;
  volumeIncludeSet : bool;
  volumeExcludeSet : bool;
  volumeIncludePattern : option Regexp;
  volumeExcludePattern : option Regexp
}.

(** [New]; [config] is [None] for nil. *)
Definition New (config : option Config) : collector :=
  let config := default ConfigDefaults config in
  {| volumeOldInclude := None;
     volumeOldExclude := None;
     volumeInclude := Some (VolumeInclude config);
     volumeExclude := Some (VolumeExclude config);
     volumeIncludeSet := false;
     volumeExcludeSet := false;
     volumeIncludePattern := None;
     volumeExcludePattern := None |}.

Definition setVolumeExclude (c : collector) (v : string) : collector :=
  {| volumeOldInclude := volumeOldInclude c;
     volumeOldExclude := volumeOldExclude c;
     volumeInclude := volumeInclude c;
     volumeExclude := Some v;
     volumeIncludeSet := volumeIncludeSet c;
     volumeExcludeSet := volumeExcludeSet c;
     volumeIncludePattern := volumeIncludePattern c;
     volumeExcludePattern := volumeExcludePattern c |}.

Definition setVolumeInclude (c : collector) (v : string) : collector :=
  {| volumeOldInclude := volumeOldInclude c;
     volumeOldExclude := volumeOldExclude c;
     volumeInclude := Some v;
     volumeExclude := volumeExclude c;
     volumeIncludeSet := volumeIncludeSet c;
     volumeExcludeSet := volumeExcludeSet c;
     volumeIncludePattern := volumeIncludePattern c;
     volumeExcludePattern := volumeExcludePattern c |}.

Definition setVolumeIncludePattern (c : collector) (re : option Regexp)
    : collector :=
  {| volumeOldInclude := volumeOldInclude c;
     volumeOldExclude := volumeOldExclude c;
     volumeInclude := volumeInclude c;
     volumeExclude := volumeExclude c;
     volumeIncludeSet := volumeIncludeSet c;
     volumeExcludeSet := volumeExcludeSet c;
     volumeIncludePattern := re;
     volumeExcludePattern := volumeExcludePattern c |}.

Definition setVolumeExcludePattern (c : collector) (re : option Regexp)
    : collector :=
  {| volumeOldInclude := volumeOldInclude c;
     volumeOldExclude := volumeOldExclude c;
     volumeInclude := volumeInclude c;
     volumeExclude := volumeExclude c;
     volumeIncludeSet := volumeIncludeSet c;
     volumeExcludeSet := volumeExcludeSet c;
     volumeIncludePattern := volumeIncludePattern c;
     volumeExcludePattern := re |}.

(** [Build]: the collector as [Build] leaves it and the error returned;
    dereferencing a nil pointer panics.  The descriptors, whose creation
    cannot fail, are left out. *)
Definition Build (c : collector) : outcome (collector * option error) :=
  match volumeOldExclude c with
  | None => Panicked
  | Some oldExclude =>
      let excluded :=
        if negb (String.eqb oldExclude "") then
          if negb (volumeExcludeSet c) then
            match volumeExclude c with
            | None => Panicked
            | Some _ => Returned (Ok (setVolumeExclude c oldExclude))
            end
          else Returned (Fail blacklistError)
        else Returned (Ok c) in
      match excluded with
      | Panicked => Panicked
      | Exhausted => Exhausted
      | Returned (Fail err) => Returned (c, Some err)
      | Returned (Ok c) =>
          match volumeOldInclude c with
          | None => Panicked
          | Some oldInclude =>
              let included :=
                if negb (String.eqb oldInclude "") then
                  if negb (volumeIncludeSet c) then
                    match volumeInclude c with
                    | None => Panicked
                    | Some _ => Returned (Ok (setVolumeInclude c oldInclude))
                    end
                  else Returned (Fail whitelistError)
                else Returned (Ok c) in
              match included with
              | Panicked => Panicked
              | Exhausted => Exhausted
              | Returned (Fail err) => Returned (c, Some err)
              | Returned (Ok c) =>
                  match volumeInclude c with
                  | None => Panicked
                  | Some include =>
                      match Compile (anchored include) with
                      | Fail err =>
                          Returned (setVolumeIncludePattern c None, Some err)
                      | Ok re =>
                          let c := setVolumeIncludePattern c (Some re) in
                          match volumeExclude c with
                          | None => Panicked
                          | Some exclude =>
                              match Compile (anchored exclude) with
                              | Fail err =>
                                  Returned
                                    (setVolumeExcludePattern c None, Some err)
                              | Ok re =>
                                  Returned
                                    (setVolumeExcludePattern c (Some re), None)
                              end
                          end
                      end
                  end
              end
          end
      end
  end.

Context {float64 : Type}.

(** [logicalDisk]: one row of the "LogicalDisk" performance object. *)
Record logicalDisk : Type := {
  Name : string;
  CurrentDiskQueueLength : float64;
  AvgDiskReadQueueLength : float64;
  AvgDiskWriteQueueLength : float64;
  DiskReadBytesPerSec : float64;
  DiskReadsPerSec : float64;
  DiskWriteBytesPerSec : float64;
  DiskWritesPerSec : float64;
  PercentDiskReadTime : float64;
  PercentDiskWriteTime : float64;
  PercentFreeSpace : float64;
  PercentFreeSpace_Base : float64;
  PercentIdleTime : float64;
  SplitIOPerSec : float64;
  AvgDiskSecPerRead : float64;
  AvgDiskSecPerWrite : float64;
  AvgDiskSecPerTransfer : float64
}.

(** The metrics [collect] sends for one row, under the descriptors of the
    same metric names as in the newer collector. *)
Definition collect_metrics (volume : logicalDisk) : list (sample float64) :=
  let metric d k v :=
    {| desc := d; kind := k; sampleOf := v; sampleLabels := [Name volume] |} in
  [ metric requestsQueued GaugeValue (plain (CurrentDiskQueueLength volume));
    metric avgReadQueue GaugeValue
      (ticksToSeconds (AvgDiskReadQueueLength volume));
    metric avgWriteQueue GaugeValue
      (ticksToSeconds (AvgDiskWriteQueueLength volume));
    metric readBytesTotal CounterValue (plain (DiskReadBytesPerSec volume));
    metric readsTotal CounterValue (plain (DiskReadsPerSec volume));
    metric writeBytesTotal CounterValue (plain (DiskWriteBytesPerSec volume));
    metric writesTotal CounterValue (plain (DiskWritesPerSec volume));
    metric readTime CounterValue (plain (PercentDiskReadTime volume));
    metric writeTime CounterValue (plain (PercentDiskWriteTime volume));
    metric freeSpace GaugeValue (mebi (PercentFreeSpace_Base volume));
    metric totalSpace GaugeValue (mebi (PercentFreeSpace volume));
    metric idleTime CounterValue (plain (PercentIdleTime volume));
    metric splitIOs CounterValue (plain (SplitIOPerSec volume));
    metric readLatency CounterValue
      (ticksToSeconds (AvgDiskSecPerRead volume));
    metric writeLatency CounterValue
      (ticksToSeconds (AvgDiskSecPerWrite volume));
    metric readWriteLatency CounterValue
      (ticksToSeconds (AvgDiskSecPerTransfer volume)) ].

(** The loop of [collect]; [MatchString] on a nil pattern panics. *)
Fixpoint collect_rows (c : collector) (dst : list logicalDisk)
    : outcome (list (sample float64)) :=
  match dst with
  | [] => Returned []
  | volume :: dst' =>
      let skip : outcome bool :=
        if String.eqb (Name volume) "_Total" then Returned true
        else
          match volumeExcludePattern c with
          | None => Panicked
          | Some exclude =>
              if MatchString exclude (Name volume) then Returned true
              else
                match volumeIncludePattern c with
                | None => Panicked
                | Some include =>
                    Returned (negb (MatchString include (Name volume)))
                end
          end in
      match skip with
      | Panicked => Panicked
      | Exhausted => Exhausted
      | Returned skipped =>
          match collect_rows c dst' with
          | Panicked => Panicked
          | Exhausted => Exhausted
          | Returned others =>
              Returned
                ((if skipped then [] else collect_metrics volume) ++ others)
          end
      end
  end.

(** [collect] and [Collect]: the metrics sent and the error returned;
    [unmarshalled] is what [perflib.UnmarshalObject] gives. *)
Definition collect (c : collector) (unmarshalled : result (list logicalDisk))
    : outcome (list (sample float64) * option error) :=
  match unmarshalled with
  | Fail err => Returned ([], Some err)
  | Ok dst =>
      match collect_rows c dst with
      | Panicked => Panicked
      | Exhausted => Exhausted
      | Returned samples => Returned (samples, None)
      end
  end.

End collector.

Arguments collector : clear implicits.
Arguments logicalDisk : clear implicits.

End pkg.

(** The row of the newer collector with the same counters: "Free Megabytes"
    is [PercentFreeSpace_Base] in the older collector and [FreeSpace] in the
    newer one. *)
Definition asPerfData {float64 : Type} (volume : pkg.logicalDisk float64)
    : perfDataCounterValues float64 :=
  {| Name := pkg.Name volume;
     CurrentDiskQueueLength := pkg.CurrentDiskQueueLength volume;
     AvgDiskReadQueueLength := pkg.AvgDiskReadQueueLength volume;
     AvgDiskWriteQueueLength := pkg.AvgDiskWriteQueueLength volume;
     DiskReadBytesPerSec := pkg.DiskReadBytesPerSec volume;
     DiskReadsPerSec := pkg.DiskReadsPerSec volume;
     DiskWriteBytesPerSec := pkg.DiskWriteBytesPerSec volume;
     DiskWritesPerSec := pkg.DiskWritesPerSec volume;
     PercentDiskReadTime := pkg.PercentDiskReadTime volume;
     PercentDiskWriteTime := pkg.PercentDiskWriteTime volume;
     FreeSpace := pkg.PercentFreeSpace_Base volume;
     PercentFreeSpace := pkg.PercentFreeSpace volume;
     PercentIdleTime := pkg.PercentIdleTime volume;
     SplitIOPerSec := pkg.SplitIOPerSec volume;
     AvgDiskSecPerRead := pkg.AvgDiskSecPerRead volume;
     AvgDiskSecPerWrite := pkg.AvgDiskSecPerWrite volume;
     AvgDiskSecPerTransfer := pkg.AvgDiskSecPerTransfer volume |}.

(** Sample inputs of the older collector: patterns without operators, kept
    as their expression. *)
Module pkgInputs.

Definition Compile (expr : string) : result string :=
  if strings.Contains expr "[" then Fail (Plainf "missing closing ]")
  else Ok expr.

Definition MatchString (re name : string) : bool :=
  String.eqb re (pkg.anchored name).

(** The collector after the flags [--collector.logical_disk.volume-whitelist
    C:] and [--collector.logical_disk.volume-exclude D:]. *)
Definition flags : pkg.collector string :=
  {| pkg.volumeOldInclude := Some "C:";
     pkg.volumeOldExclude := Some "";
     pkg.volumeInclude := Some ".+";
     pkg.volumeExclude := Some "D:";
     pkg.volumeIncludeSet := false;
     pkg.volumeExcludeSet := true;
     pkg.volumeIncludePattern := None;
     pkg.volumeExcludePattern := None |}.

Definition row (name : string) : pkg.logicalDisk Z :=
  {| pkg.Name := name;
     pkg.CurrentDiskQueueLength := 0;
     pkg.AvgDiskReadQueueLength := 1;
     pkg.AvgDiskWriteQueueLength := 2;
     pkg.DiskReadBytesPerSec := 3;
     pkg.DiskReadsPerSec := 4;
     pkg.DiskWriteBytesPerSec := 5;
     pkg.DiskWritesPerSec := 6;
     pkg.PercentDiskReadTime := 7;
     pkg.PercentDiskWriteTime := 8;
     pkg.PercentFreeSpace := 10;
     pkg.PercentFreeSpace_Base := 9;
     pkg.PercentIdleTime := 11;
     pkg.SplitIOPerSec := 12;
     pkg.AvgDiskSecPerRead := 13;
     pkg.AvgDiskSecPerWrite := 14;
     pkg.AvgDiskSecPerTransfer := 15 |}.

End pkgInputs.

(** * The worker under faults *)

(** The worker modelled so far never panics.  In the source a call of the
    shell may panic; the deferred [recover] of [workerBitlocker] then logs
    the panic and starts a new worker, which takes up the requests that
    follow.  Here [panics] tells which shell calls panic, and [com n] holds
    the answers of COM and of the property system to the worker number [n]:
    the first worker is number 0 and every restart adds one.  The calls of
    the start-up are taken to return. *)
Module guarded.

Section worker.

Variable com : nat -> COM.
Variable sh : Shell.
Variable panics : syscall -> bool.

(** A call of the shell: it panics, or gives the answer [a]. *)
Definition shell_call {A} (c : syscall) (a : A) : Sys A :=
  if panics c then fun log => (Panicked, log ++ [c]) else sys_call c a.

(** [defer] of a shell call: [c] runs when [body] is left, by a return or
    by a panic, and may panic itself. *)
Definition shell_defer {A} (c : syscall) (body : Sys A) : Sys A :=
  fun log =>
    let '(o, log') := body log in
    (if panics c then Panicked else o, log' ++ [c]).

(** The function literal [func(path string) (int, error)] of the worker. *)
Definition bitlockerQuery (path : string) : Sys (Z * option error) :=
  let* created :=
    shell_call (SHCreateItemFromParsingName path)
      (sh_SHCreateItemFromParsingName sh path) in
  match created with
  | Fail err =>
      sys_ret (-1, Some (Wrapf "SHCreateItemFromParsingName failed: " err))
  | Ok item =>
      shell_defer (Release item) (
        let* got := shell_call (GetProperty item) (sh_GetProperty sh item) in
        match got with
        | Fail err => sys_ret (-1, Some (Wrapf "GetProperty failed: " err))
        | Ok v =>
            let* cleared := shell_call (VariantClear (Val v)) (sh_Clear sh v) in
            sys_ret (int (Val v), cleared)
        end)
  end.

(** The body of [case path, ok := <-c.bitlockerReqCh] for a received
    [path]: the value sent on [bitlockerResCh], unless the query panics. *)
Definition workerBitlocker_request (path : string) : Sys bitlockerRes :=
  if negb (strings.Contains path ":") then
    sys_ret {| err := None; status := -1 |}
  else
    let* answer := bitlockerQuery path in
    sys_ret {| err := snd answer; status := fst answer |}.

(** The start-up of the worker number [n], from [runtime.LockOSThread] to
    [close(initErrCh)]: what the receiver of [initErrCh] gets and the calls
    made, those deferred included when the worker returns at once. *)
Definition workerBitlocker_start (n : nat) : option error * list workerCall :=
  let coinit :=
    Z.lor ole.COINIT_APARTMENTTHREADED ole.COINIT_DISABLE_OLE1DDE in
  let name := "System.Volume.BitLockerProtection" in
  let entered := [LockOSThread; CoInitializeEx 0 coinit] in
  let lookup :=
    match com_PSGetPropertyKeyFromName (com n) name with
    | Some e =>
        (Some (Wrapf "PSGetPropertyKeyFromName failed: " e),
         entered ++ [PSGetPropertyKeyFromName name; CoUninitialize;
                     UnlockOSThread])
    | None => (None, entered ++ [PSGetPropertyKeyFromName name])
    end in
  match com_CoInitializeEx (com n) 0 coinit with
  | Some e =>
      if refuses e then
        (Some (Wrapf "CoInitializeEx: " (comErr e)),
         entered ++ [UnlockOSThread])
      else lookup
  | None => lookup
  end.

(** The loop of the worker number [n], once started, and of the workers
    that replace it: the responses sent and the calls made.  When a request
    panics, the deferred [CoUninitialize] and [UnlockOSThread] run, and the
    deferred [recover] starts the worker number [n + 1] and waits for its
    [initErrCh]; no response is sent for that request.  A restart that
    fails is logged, and no worker is left.  While it waits for the next
    event the worker does not return. *)
Fixpoint workerBitlocker_loop (n : nat) (events : list selected)
    : list bitlockerRes * list workerCall :=
  match events with
  | [] => ([], [])
  | ctxDone :: _ => ([], [CoUninitialize; UnlockOSThread])
  | closed :: _ => ([], [CoUninitialize; UnlockOSThread])
  | received path :: events' =>
      match workerBitlocker_request path [] with
      | (Returned res, log) =>
          let run := workerBitlocker_loop n events' in
          (res :: fst run, (ShellCall <$> log) ++ snd run)
      | (Panicked, log) =>
          let restart := workerBitlocker_start (S n) in
          let unwound :=
            (ShellCall <$> log) ++ [CoUninitialize; UnlockOSThread]
            ++ snd restart in
          match fst restart with
          | Some _ => ([], unwound)
          | None =>
              let run := workerBitlocker_loop (S n) events' in
              (fst run, unwound ++ snd run)
          end
      | (Exhausted, log) => ([], ShellCall <$> log)
      end
  end.

(** [workerBitlocker], run on the events the [select] of its loop and of
    the loops of its replacements pick. *)
Definition workerBitlocker (events : list selected) : workerRun :=
  let start := workerBitlocker_start 0 in
  match fst start with
  | Some e => {| initErr := Some e; sent := []; workerCalls := snd start |}
  | None =>
      let run := workerBitlocker_loop 0 events in
      {| initErr := None; sent := fst run;
         workerCalls := snd start ++ snd run |}
  end.

End worker.

End guarded.

(** The response to a request, if its query returns, and the shell calls
    made for it. *)
Definition responseOf (sh : Shell) (panics : syscall -> bool) (path : string)
    : option bitlockerRes :=
  match fst (guarded.workerBitlocker_request sh panics path []) with
  | Returned res => Some res
  | _ => None
  end.

Definition requestCalls (sh : Shell) (panics : syscall -> bool)
    (path : string) : list syscall :=
  snd (guarded.workerBitlocker_request sh panics path []).

(** Sample inputs of the worker: a shell whose item for the drive [D:] is 2
    and for every other path 1, and in which reading the property of the
    item 2 panics. *)
Module WorkerInputs.

Definition com (n : nat) : COM :=
  {| com_CoInitializeEx := fun _ _ => None;
     com_PSGetPropertyKeyFromName := fun _ => None |}.

(** As [com], but the start-up of every restarted worker fails. *)
Definition comOnce (n : nat) : COM :=
  {| com_CoInitializeEx := fun _ _ => None;
     com_PSGetPropertyKeyFromName :=
       fun _ => match n with
                | O => None
                | S _ => Some (Plainf "Element not found.")
                end |}.

Definition shell : Shell :=
  {| sh_SHCreateItemFromParsingName :=
       fun path => Ok (if String.eqb path "D:" then 2 else 1);
     sh_GetProperty := fun _ => Ok {| VT := 19; Val := 1 |};
     sh_Clear := fun _ => None |}.

Definition panics (c : syscall) : bool :=
  match c with
  | GetProperty 2 => true
  | _ => false
  end.

End WorkerInputs.

(** * Properties *)

(** Unfolds the plumbing of [Sys] in a goal. *)
Ltac sys_simpl :=
  unfold sys_bind, sys_call, sys_defer, sys_try, sys_ret, sys_panic,
    sys_exhausted;
  cbv beta iota zeta.

(** ** Strings *)

Lemma append_cons (c : ascii) (s t : string) :
  String c s +:+ t = String c (s +:+ t).
Proof. reflexivity. Qed.

Lemma append_nil_l (t : string) : EmptyString +:+ t = t.
Proof. reflexivity. Qed.

Lemma append_assoc (a b c : string) : a +:+ b +:+ c = (a +:+ b) +:+ c.
Proof. induction a as [|x a IH]; [done|]. by rewrite !append_cons, IH. Qed.

Lemma HasPrefix_nil (s : string) : strings.HasPrefix s EmptyString = true.
Proof. by destruct s. Qed.

Lemma HasPrefix_append (p t : string) : strings.HasPrefix (p +:+ t) p = true.
Proof.
  induction p as [|c p IH]; [apply HasPrefix_nil|].
  rewrite append_cons. simpl. by rewrite Ascii.eqb_refl.
Qed.

Lemma Contains_prefix (s sub : string) :
  strings.HasPrefix s sub = true → strings.Contains s sub = true.
Proof. intros H. destruct s; cbn [strings.Contains]; by rewrite H. Qed.

Lemma Contains_append_r (a s sub : string) :
  strings.Contains s sub = true → strings.Contains (a +:+ s) sub = true.
Proof.
  intros H. induction a as [|c a IH]; [done|].
  rewrite append_cons. cbn [strings.Contains].
  destruct (strings.HasPrefix (String c (a +:+ s)) sub); [done|]. exact IH.
Qed.

Lemma Contains_append_mid (a s b : string) :
  strings.Contains (a +:+ s +:+ b) s = true.
Proof. apply Contains_append_r, Contains_prefix, HasPrefix_append. Qed.

(** Occurrence of a single character distributes over concatenation. *)
Lemma Contains_char_append (a b : string) (c : ascii) :
  strings.Contains (a +:+ b) (String c EmptyString)
  = strings.Contains a (String c EmptyString)
    || strings.Contains b (String c EmptyString).
Proof.
  induction a as [|x a IH]; [done|].
  rewrite append_cons. simpl.
  destruct (Ascii.eqb x c); simpl; [by rewrite !HasPrefix_nil|]. exact IH.
Qed.

Lemma StringToUTF16Ptr_Some (s p : string) :
  windows.StringToUTF16Ptr s = Some p →
  p = s ∧ strings.Contains s (String zero EmptyString) = false.
Proof.
  unfold windows.StringToUTF16Ptr.
  destruct (strings.Contains s _); [done|]. by intros [= <-].
Qed.

(** A working path without NUL gives a root path without NUL: the second
    pointer conversion of [getVolumeInfo] cannot panic. *)
Lemma volumeInformationRootDrive_ptr (volumePath : string) :
  windows.StringToUTF16Ptr ("\\.\" +:+ volumePath)
    = Some ("\\.\" +:+ volumePath) →
  windows.StringToUTF16Ptr (volumeInformationRootDrive volumePath)
    = Some (volumeInformationRootDrive volumePath).
Proof.
  intros [_ H]%StringToUTF16Ptr_Some.
  rewrite Contains_char_append in H. apply orb_false_elim in H as [_ H].
  unfold windows.StringToUTF16Ptr, volumeInformationRootDrive.
  destruct (strings.Contains volumePath "Volume");
    rewrite ?Contains_char_append, H; reflexivity.
Qed.

(** ** The BitLocker worker *)

Lemma bitlockerQuery_returns (sh : Shell) (path : string) (log : list syscall) :
  ∃ answer log', bitlockerQuery sh path log = (Returned answer, log').
Proof.
  unfold bitlockerQuery, sys_bind, sys_call, sys_defer, sys_ret.
  destruct (sh_SHCreateItemFromParsingName sh path) as [item|e]; [|by eauto].
  destruct (sh_GetProperty sh item) as [v|e]; by eauto.
Qed.

(** C7. A request path without [:] is answered with status [-1] and a nil
    error, and no shell-item or property query is made: the log of calls is
    left as it was.  The worker loop sends exactly this response. *)
Theorem workerBitlocker_no_colon (sh : Shell) (path : string)
    (log : list syscall) :
  strings.Contains path ":" = false →
  workerBitlocker_request sh path log
    = (Returned {| err := None; status := -1 |}, log)
  ∧ workerBitlocker_loop sh [received path] log
    = (Returned [{| err := None; status := -1 |}], log).
Proof.
  intros Hcolon.
  assert (workerBitlocker_request sh path log
          = (Returned {| err := None; status := -1 |}, log)) as Hreq.
  { unfold workerBitlocker_request. by rewrite Hcolon. }
  split; [exact Hreq|].
  simpl. unfold sys_bind. by rewrite Hreq.
Qed.

Lemma workerBitlocker_no_colon_witness :
  workerBitlocker_request
    (Inputs.shell (Ok 1) (Ok {| VT := 3; Val := 1 |}) None)
    "HarddiskVolume1" []
  = (Returned {| err := None; status := -1 |}, []).
Proof.
  apply (workerBitlocker_no_colon
           (Inputs.shell (Ok 1) (Ok {| VT := 3; Val := 1 |}) None)
           "HarddiskVolume1" []).
  reflexivity.
Defined.

(** C10. When the query made for a request fails (the shell item cannot be
    created, or the property cannot be read), the response has status [-1]
    and a non-nil error; a response with a non-negative status comes from a
    query that succeeded, and its error is the one of clearing the
    variant. *)
Theorem workerBitlocker_failed_query (sh : Shell) (path : string)
    (log : list syscall) :
  (strings.Contains path ":" = true →
   (∃ e, sh_SHCreateItemFromParsingName sh path = Fail e)
   ∨ (∃ item e, sh_SHCreateItemFromParsingName sh path = Ok item
                ∧ sh_GetProperty sh item = Fail e) →
   ∃ res log',
     workerBitlocker_request sh path log = (Returned res, log')
     ∧ status res = -1 ∧ is_Some (err res))
  ∧ (∃ res log',
       workerBitlocker_request sh path log = (Returned res, log')
       ∧ (0 <= status res →
          ∃ item v,
            sh_SHCreateItemFromParsingName sh path = Ok item
            ∧ sh_GetProperty sh item = Ok v
            ∧ status res = int (Val v)
            ∧ err res = sh_Clear sh v)).
Proof.
  unfold workerBitlocker_request, bitlockerQuery,
    sys_bind, sys_call, sys_defer, sys_ret.
  split.
  - intros -> [[e He]|(item & e & Hitem & He)]; simpl.
    + rewrite He. eexists _, _. split; [reflexivity|]. simpl. eauto.
    + rewrite Hitem, He. eexists _, _. split; [reflexivity|]. simpl. eauto.
  - destruct (strings.Contains path ":"); simpl.
    + destruct (sh_SHCreateItemFromParsingName sh path) as [item|e].
      * destruct (sh_GetProperty sh item) as [v|e] eqn:Hv;
          eexists _, _; (split; [reflexivity|]); simpl; [by eauto 10|lia].
      * eexists _, _. split; [reflexivity|]. simpl. lia.
    + eexists _, _. split; [reflexivity|]. simpl. lia.
Qed.

Lemma workerBitlocker_failed_query_witness :
  ∃ res log',
    workerBitlocker_request
      (Inputs.shell (Ok 1) (Fail (Errno 5 "Access is denied.")) None)
      "C:" []
    = (Returned res, log')
    ∧ status res = -1 ∧ is_Some (err res).
Proof.
  apply (proj1 (workerBitlocker_failed_query
                  (Inputs.shell (Ok 1) (Fail (Errno 5 "Access is denied."))
                     None) "C:" [])).
  - reflexivity.
  - right. eexists _, _. split; reflexivity.
Defined.

(** ** The BitLocker indicators *)

(** C8. For each of the nine status codes [0..8] the nine indicator values,
    in the order of the labels, are [1] at the index of the status and [0]
    elsewhere: exactly one [1] and eight [0]s. *)
Theorem Collect_bitlocker_one_hot (name : string) (s : Z) :
  0 <= s <= 8 →
  let emitted := Collect_bitlocker name {| err := None; status := s |} in
  labelValues <$> emitted = (fun l => [name; l]) <$> bitlockerLabels
  ∧ value <$> emitted = <[Z.to_nat s := 1]> (replicate 9 0)
  ∧ length (filter (fun v => v = 1) (value <$> emitted)) = 1%nat
  ∧ length (filter (fun v => v = 0) (value <$> emitted)) = 8%nat.
Proof.
  intros Hs.
  assert (s = 0 ∨ s = 1 ∨ s = 2 ∨ s = 3 ∨ s = 4 ∨ s = 5 ∨ s = 6 ∨ s = 7
          ∨ s = 8) as Hcases by lia.
  repeat destruct Hcases as [->|Hcases]; try subst s; by vm_compute.
Qed.

Lemma Collect_bitlocker_one_hot_witness :
  value <$> Collect_bitlocker "C:" {| err := None; status := 3 |}
  = [0; 0; 0; 1; 0; 0; 0; 0; 0].
Proof.
  apply (Collect_bitlocker_one_hot "C:" 3). lia.
Defined.

(** ** Bytes and 32-bit reads *)

Lemma byteVal_bound (b : Byte.byte) : 0 <= binary.byteVal b < 256.
Proof.
  unfold binary.byteVal. pose proof (Byte.to_N_bounded b). lia.
Qed.

Lemma lor_bound (n a b : Z) :
  0 <= n → 0 <= a < 2 ^ n → 0 <= b < 2 ^ n → 0 <= Z.lor a b < 2 ^ n.
Proof.
  intros Hn Ha Hb. split; [apply Z.lor_nonneg; lia|].
  assert (0 < 2 ^ n) as Hpow by (apply Z.pow_pos_nonneg; lia).
  destruct (decide (Z.lor a b = 0)) as [->|Hne]; [exact Hpow|].
  assert (0 < Z.lor a b) as Hpos.
  { assert (0 <= Z.lor a b) by (apply Z.lor_nonneg; lia). lia. }
  assert (0 < n) as Hn'.
  { destruct (decide (n = 0)) as [->|]; [|lia].
    assert (a = 0) as -> by lia. assert (b = 0) as -> by lia. done. }
  apply Z.log2_lt_pow2; [done|].
  rewrite Z.log2_lor by lia.
  apply Z.max_lub_lt.
  - destruct (decide (a = 0)) as [->|]; [simpl; lia|].
    apply Z.log2_lt_pow2; lia.
  - destruct (decide (b = 0)) as [->|]; [simpl; lia|].
    apply Z.log2_lt_pow2; lia.
Qed.

Lemma Uint32_bound (b : list Byte.byte) (v : Z) :
  binary.Uint32 b = Some v → 0 <= v < 2 ^ 32.
Proof.
  destruct b as [|b0 [|b1 [|b2 [|b3 b]]]]; try done. intros [= <-].
  pose proof (byteVal_bound b0). pose proof (byteVal_bound b1).
  pose proof (byteVal_bound b2). pose proof (byteVal_bound b3).
  rewrite !Z.shiftl_mul_pow2 by lia.
  repeat apply lor_bound; lia.
Qed.

Lemma Uint32_is_Some (b : list Byte.byte) :
  (4 <= length b)%nat → is_Some (binary.Uint32 b).
Proof.
  destruct b as [|b0 [|b1 [|b2 [|b3 b]]]]; simpl; try lia. by eauto.
Qed.

Lemma uint_small (z : Z) : 0 <= z < 2 ^ 64 → uint z = z.
Proof. intros. unfold uint, uint64. by apply Z.mod_small. Qed.

(** Every extent whose first four bytes lie inside the buffer can be
    read. *)
Lemma diskNumberAt_is_Some (volumeDiskExtents : list Byte.byte) (i : Z) :
  0 <= i →
  8 + i * diskExtentSize + 4 <= Z.of_nat (length volumeDiskExtents) →
  is_Some (diskNumberAt volumeDiskExtents i).
Proof.
  intros Hi Hlen. unfold diskNumberAt, uint32At, sliceFrom, diskExtentSize in *.
  rewrite (proj2 (Z.leb_le _ _)) by lia. simpl.
  apply Uint32_is_Some. rewrite length_drop. lia.
Qed.

(** ** The extent loop *)

(** Loop invariant: with the entries [pre] already written and the entries
    [post] still to be written, the loop writes the decimal text of the
    disk numbers it reads, in the order of the extents. *)
Lemma diskIDsLoop_invariant (volumeDiskExtents : list Byte.byte)
    (diskNumbers : list Z) :
  ∀ pre post : list string,
    length post = length diskNumbers →
    8 + Z.of_nat (length pre + length diskNumbers) * diskExtentSize < 2 ^ 64 →
    (∀ (k : nat) (n : Z),
       diskNumbers !! k = Some n →
       diskNumberAt volumeDiskExtents (Z.of_nat (length pre + k)) = Some n) →
    diskIDsLoop volumeDiskExtents (length diskNumbers)
      (Z.of_nat (length pre)) (pre ++ post)
    = Some (pre ++ (strconv.FormatUint <$> diskNumbers)).
Proof.
  induction diskNumbers as [|n diskNumbers IH]; intros pre post Hpost Hfit Hread.
  - destruct post; [|done]. reflexivity.
  - destruct post as [|p post]; [done|]. simpl in Hpost.
    cbn [diskIDsLoop length].
    pose proof (Hread 0%nat n eq_refl) as Hn.
    rewrite Nat.add_0_r in Hn.
    unfold diskNumberAt, uint32At in Hn.
    unfold diskExtentSize in *. simpl length in Hfit.
    rewrite uint_small by lia.
    destruct (sliceFrom volumeDiskExtents _) as [tail|]; [|done].
    simpl in Hn |- *. rewrite Hn. simpl.
    pose proof (Uint32_bound _ _ Hn) as Hbound.
    unfold uint64. rewrite Z.mod_small by lia.
    rewrite Nat2Z.id, insert_app_r_alt, Nat.sub_diag by lia. simpl.
    replace (Z.of_nat (length pre) + 1)
      with (Z.of_nat (length (pre ++ [strconv.FormatUint n])))
      by (rewrite length_app; simpl; lia).
    rewrite (cons_middle _ pre post), (assoc_L (++)).
    rewrite (IH (pre ++ [strconv.FormatUint n]) post).
    + by rewrite <-(assoc_L (++)).
    + lia.
    + rewrite length_app. simpl. lia.
    + intros k m Hk. rewrite length_app. simpl.
      replace (length pre + 1 + k)%nat with (length pre + S k)%nat by lia.
      by apply Hread.
Qed.

Lemma diskIDsLoop_reads (volumeDiskExtents : list Byte.byte)
    (diskNumbers : list Z) :
  8 + Z.of_nat (length diskNumbers) * diskExtentSize < 2 ^ 64 →
  (∀ (k : nat) (n : Z),
     diskNumbers !! k = Some n →
     diskNumberAt volumeDiskExtents (Z.of_nat k) = Some n) →
  diskIDsLoop volumeDiskExtents (length diskNumbers) 0
    (replicate (length diskNumbers) EmptyString)
  = Some (strconv.FormatUint <$> diskNumbers).
Proof.
  intros Hfit Hread.
  apply (diskIDsLoop_invariant volumeDiskExtents diskNumbers [] _).
  - by rewrite length_replicate.
  - done.
  - done.
Qed.

(** The disk numbers of the first [count] extents of a buffer. *)
Lemma diskNumbers_exist (volumeDiskExtents : list Byte.byte) (count : nat) :
  8 + Z.of_nat count * diskExtentSize
    <= Z.of_nat (length volumeDiskExtents) + 20 →
  ∃ diskNumbers : list Z,
    length diskNumbers = count
    ∧ ∀ (k : nat) (n : Z),
        diskNumbers !! k = Some n ↔
        (k < count)%nat ∧ diskNumberAt volumeDiskExtents (Z.of_nat k) = Some n.
Proof.
  intros Hfit.
  exists ((fun k => default 0 (diskNumberAt volumeDiskExtents (Z.of_nat k)))
            <$> seq 0 count).
  split; [by rewrite length_fmap, length_seq|].
  intros k n. rewrite list_lookup_fmap.
  destruct (decide (k < count)%nat) as [Hk|Hk].
  - rewrite lookup_seq_lt by done. simpl.
    destruct (diskNumberAt_is_Some volumeDiskExtents (Z.of_nat k)) as [v Hv];
      [lia|unfold diskExtentSize in *; lia|].
    rewrite Hv. simpl. tauto.
  - rewrite lookup_seq_ge by lia. simpl. split; [done|tauto].
Qed.

(** ** The record layout *)

(** C2, as the code has it.  For every full-size disk-extent buffer and
    every extent count whose extents lie inside it, the loop returns, and
    the entry it writes for the extent [i] is the decimal text of the
    little-endian 32-bit value at buffer offset [8 + 24*i]: the 24-byte
    records start at offset 8 and the disk number is the first field of a
    record. *)
Theorem diskIDsLoop_offsets (volumeDiskExtents : list Byte.byte)
    (count i : nat) :
  Z.of_nat (length volumeDiskExtents) = volumeDiskExtentsLen →
  (count <= 683)%nat →
  (i < count)%nat →
  ∃ ids v,
    diskIDsLoop volumeDiskExtents count 0 (replicate count EmptyString)
      = Some ids
    ∧ length ids = count
    ∧ uint32At volumeDiskExtents (8 + 24 * Z.of_nat i) = Some v
    ∧ ids !! i = Some (strconv.FormatUint v).
Proof.
  intros Hlen Hcount Hi. unfold volumeDiskExtentsLen in Hlen.
  destruct (diskNumbers_exist volumeDiskExtents count)
    as (diskNumbers & Hlength & Hnumbers);
    [unfold diskExtentSize; lia|].
  destruct (diskNumberAt_is_Some volumeDiskExtents (Z.of_nat i)) as [v Hv];
    [lia|unfold diskExtentSize; lia|].
  exists (strconv.FormatUint <$> diskNumbers), v. split_and!.
  - rewrite <-Hlength. apply diskIDsLoop_reads.
    + unfold diskExtentSize. lia.
    + intros k n Hk. by apply Hnumbers.
  - by rewrite length_fmap.
  - unfold diskNumberAt, diskExtentSize in Hv. rewrite <-Hv. f_equal. lia.
  - rewrite list_lookup_fmap.
    by rewrite (proj2 (Hnumbers i v) (conj Hi Hv)).
Qed.

Lemma diskIDsLoop_offsets_witness :
  ∃ ids v,
    diskIDsLoop
      (outBuffer (Z.to_nat volumeDiskExtentsLen)
         (Inputs.extents [(7, 9); (2, 4)])) 2 0 (replicate 2 EmptyString)
      = Some ids
    ∧ length ids = 2%nat
    ∧ uint32At
        (outBuffer (Z.to_nat volumeDiskExtentsLen)
           (Inputs.extents [(7, 9); (2, 4)])) (8 + 24 * Z.of_nat 1) = Some v
    ∧ ids !! 1%nat = Some (strconv.FormatUint v).
Proof.
  apply (diskIDsLoop_offsets
           (outBuffer (Z.to_nat volumeDiskExtentsLen)
              (Inputs.extents [(7, 9); (2, 4)])) 2 1).
  - vm_compute. reflexivity.
  - lia.
  - lia.
Defined.

(** C2, as stated, fails: in this answer the extent 0 has the value 7 at
    buffer offset 8 and the value 9 at buffer offset [4 + 24*0 + 8]; the
    disk number read is 7. *)
Lemma diskIDsLoop_offset_12_counterexample :
  let volumeDiskExtents :=
    outBuffer (Z.to_nat volumeDiskExtentsLen) (Inputs.extents [(7, 9)]) in
  binary.Uint32 volumeDiskExtents = Some 1
  ∧ uint32At volumeDiskExtents (4 + 24 * 0 + 8) = Some 9
  ∧ diskIDsLoop volumeDiskExtents 1 0 (replicate 1 EmptyString)
    = Some [strconv.FormatUint 7]
  ∧ strconv.FormatUint 7 ≠ strconv.FormatUint 9
  ∧ ∃ vi log,
      getVolumeInfo
        (Inputs.os (Ok (Inputs.extents [(7, 9)])) windows.DRIVE_FIXED
           (Ok (Inputs.ntfs 0))) ∅ "C:" []
      = (Returned (vi, None), log)
      ∧ diskIDs vi = "7".
Proof.
  split_and!; [by vm_compute..|].
  eexists _, _. split; by vm_compute.
Qed.

(** ** Decimal text *)

Lemma digitChar_value (d : Z) :
  0 <= d < 10 → Z.of_nat (nat_of_ascii (strconv.digitChar d)) - 48 = d.
Proof.
  intros Hd. unfold strconv.digitChar.
  rewrite (proj2 (Z.ltb_lt _ _)) by lia.
  rewrite nat_ascii_embedding by lia. lia.
Qed.

(** Reading back the digits written by [formatBits] gives the number. *)
Lemma parseDigits_formatBits (fuel : nat) :
  ∀ (u : Z) (acc : string),
    0 <= u < 10 ^ Z.of_nat fuel →
    strconv.parseDigits 0 (strconv.formatBits fuel 10 u acc)
    = strconv.parseDigits u acc.
Proof.
  induction fuel as [|fuel IH]; intros u acc Hu.
  - simpl in *. by replace u with 0 by lia.
  - rewrite Nat2Z.inj_succ, Z.pow_succ_r in Hu by lia.
    cbn [strconv.formatBits].
    pose proof (Z.div_mod u 10 ltac:(lia)) as Hdm.
    pose proof (Z.mod_pos_bound u 10 ltac:(lia)) as Hmod.
    destruct (u / 10 =? 0) eqn:Hq.
    + apply Z.eqb_eq in Hq. cbn [strconv.parseDigits].
      rewrite digitChar_value by done. f_equal. lia.
    + rewrite IH.
      * cbn [strconv.parseDigits].
        rewrite digitChar_value by done. f_equal. lia.
      * split; [apply Z.div_pos; lia|].
        apply Z.div_lt_upper_bound; lia.
Qed.

Lemma FormatUint_inj (u v : Z) :
  0 <= u < 2 ^ 64 → 0 <= v < 2 ^ 64 →
  strconv.FormatUint u = strconv.FormatUint v → u = v.
Proof.
  intros Hu Hv Heq.
  assert (strconv.parseDigits 0 (strconv.FormatUint u) = u) as Hpu.
  { unfold strconv.FormatUint. rewrite parseDigits_formatBits; [done|].
    change (10 ^ Z.of_nat 20) with 100000000000000000000.
    change (2 ^ 64) with 18446744073709551616 in Hu. lia. }
  assert (strconv.parseDigits 0 (strconv.FormatUint v) = v) as Hpv.
  { unfold strconv.FormatUint. rewrite parseDigits_formatBits; [done|].
    change (10 ^ Z.of_nat 20) with 100000000000000000000.
    change (2 ^ 64) with 18446744073709551616 in Hv. lia. }
  by rewrite <-Hpu, <-Hpv, Heq.
Qed.

(** ** Sorting and compacting *)

Lemma Compact_cons_cons (x y : string) (l : list string) :
  slices.Compact (x :: y :: l)
  = if String.eqb x y then slices.Compact (y :: l)
    else x :: slices.Compact (y :: l).
Proof. reflexivity. Qed.

Lemma Compact_head (l : list string) : head (slices.Compact l) = head l.
Proof.
  induction l as [|x [|y l] IH]; [done..|].
  rewrite Compact_cons_cons.
  destruct (String.eqb x y) eqn:Hxy; [|done].
  apply String.eqb_eq in Hxy as ->. exact IH.
Qed.

Lemma Compact_elem_of (l : list string) (s : string) :
  s ∈ slices.Compact l ↔ s ∈ l.
Proof.
  induction l as [|x [|y l] IH]; [done..|].
  rewrite Compact_cons_cons.
  destruct (String.eqb x y) eqn:Hxy.
  - apply String.eqb_eq in Hxy as ->. rewrite IH.
    rewrite !elem_of_cons. tauto.
  - rewrite (elem_of_cons (slices.Compact _)), IH, !elem_of_cons. tauto.
Qed.

(** Compacting an ascending list leaves a strictly ascending one. *)
Lemma Compact_Sorted (l : list string) :
  Sorted String.le l → Sorted (strict String.le) (slices.Compact l).
Proof.
  induction 1 as [|x l Hsorted IH Hhd]; [constructor|].
  destruct l as [|y l]; [repeat constructor|].
  rewrite Compact_cons_cons.
  destruct (String.eqb x y) eqn:Hxy; [done|].
  apply String.eqb_neq in Hxy.
  constructor; [done|].
  pose proof (Compact_head (y :: l)) as Hhead.
  destruct (slices.Compact (y :: l)) as [|z k]; [constructor|].
  simpl in Hhead. injection Hhead as ->.
  constructor. apply HdRel_inv in Hhd.
  apply strict_spec_alt. done.
Qed.

Lemma StronglySorted_strict_NoDup (l : list string) :
  StronglySorted (strict String.le) l → NoDup l.
Proof.
  induction 1 as [|x l _ IH Hall]; constructor; [|done].
  intros Hx. rewrite Forall_forall in Hall.
  by apply (irreflexivity (strict String.le) x), Hall.
Qed.

(** [slices.Compact (slices.Sort l)] is the strictly ascending list of the
    elements of [l]. *)
Lemma Compact_Sort_spec (l : list string) :
  StronglySorted (strict String.le) (slices.Compact (slices.Sort l))
  ∧ ∀ s, s ∈ slices.Compact (slices.Sort l) ↔ s ∈ l.
Proof.
  split.
  - apply Sorted_StronglySorted; [apply _|].
    apply Compact_Sorted, Sorted_merge_sort. apply _.
  - intros s. rewrite Compact_elem_of. unfold slices.Sort.
    by rewrite merge_sort_Permutation.
Qed.

(** Below ten, string order and numeric order agree. *)
Lemma FormatUint_digit_lt (x y : Z) :
  0 <= x → x < y → y < 10 →
  strict String.le (strconv.FormatUint x) (strconv.FormatUint y).
Proof.
  intros Hx Hxy Hy. apply strict_spec_alt.
  assert (x = 0 ∨ x = 1 ∨ x = 2 ∨ x = 3 ∨ x = 4 ∨ x = 5 ∨ x = 6 ∨ x = 7
          ∨ x = 8 ∨ x = 9) as Hxs by lia.
  assert (y = 0 ∨ y = 1 ∨ y = 2 ∨ y = 3 ∨ y = 4 ∨ y = 5 ∨ y = 6 ∨ y = 7
          ∨ y = 8 ∨ y = 9) as Hys by lia.
  repeat destruct Hxs as [->|Hxs]; try subst x;
    repeat destruct Hys as [->|Hys]; try subst y;
    try lia; by vm_compute.
Qed.

Lemma remove_dups_StronglySorted (l : list Z) :
  StronglySorted Z.le l → StronglySorted Z.lt (remove_dups l).
Proof.
  induction 1 as [|x l _ IH Hall]; [constructor|].
  cbn [remove_dups]. destruct (decide_rel elem_of x l) as [|Hx]; [done|].
  constructor; [done|].
  rewrite Forall_forall in Hall |- *.
  intros y Hy. rewrite elem_of_remove_dups in Hy.
  pose proof (Hall y Hy). assert (y ≠ x) by (by intros ->). lia.
Qed.

Lemma FormatUint_digits_StronglySorted (l : list Z) :
  StronglySorted Z.lt l →
  (∀ n, n ∈ l → 0 <= n < 10) →
  StronglySorted (strict String.le) (strconv.FormatUint <$> l).
Proof.
  induction 1 as [|x l _ IH Hall]; intros Hdigits; [constructor|].
  rewrite fmap_cons. constructor.
  - apply IH. intros n Hn. apply Hdigits. by right.
  - rewrite Forall_fmap, Forall_forall. rewrite Forall_forall in Hall.
    intros y Hy. simpl.
    pose proof (Hdigits x ltac:(left)). pose proof (Hdigits y ltac:(by right)).
    apply FormatUint_digit_lt; [lia|by apply Hall|lia].
Qed.

(** For disk numbers below ten the code gives the text the specification
    describes. *)
Lemma Compact_Sort_digits (diskNumbers : list Z) :
  (∀ n, n ∈ diskNumbers → 0 <= n < 10) →
  strings.Join
    (slices.Compact (slices.Sort (strconv.FormatUint <$> diskNumbers))) ";"
  = spec_diskIDs diskNumbers.
Proof.
  intros Hdigits. unfold spec_diskIDs. f_equal.
  destruct (Compact_Sort_spec (strconv.FormatUint <$> diskNumbers))
    as [Hsorted Helem].
  assert (StronglySorted (strict String.le)
            (strconv.FormatUint <$> remove_dups (merge_sort Z.le diskNumbers)))
    as Hspec.
  { apply FormatUint_digits_StronglySorted.
    - apply remove_dups_StronglySorted, StronglySorted_merge_sort; apply _.
    - intros n Hn. rewrite elem_of_remove_dups in Hn. apply Hdigits.
      by rewrite <-(merge_sort_Permutation Z.le diskNumbers). }
  apply (StronglySorted_unique_strong (strict String.le)); [|done..|].
  - intros s t _ _ Hst Hts.
    destruct (irreflexivity (strict String.le) s). by trans t.
  - apply NoDup_Permutation; [by apply StronglySorted_strict_NoDup..|].
    intros s. rewrite Helem, !list_elem_of_fmap.
    setoid_rewrite elem_of_remove_dups.
    by setoid_rewrite (merge_sort_Permutation Z.le diskNumbers).
Qed.

(** ** Well-formed extent buffers *)

(** A well-formed buffer for a non-empty list of disk numbers is parsed
    into their decimal texts, in the order of the extents. *)
Lemma encodesExtents_parses (volumeDiskExtents : list Byte.byte)
    (diskNumbers : list Z) :
  encodesExtents volumeDiskExtents diskNumbers →
  diskNumbers ≠ [] →
  parsesExtents volumeDiskExtents (strconv.FormatUint <$> diskNumbers).
Proof.
  intros (Hlen & Hcount & Hfit & Hread) Hne.
  unfold volumeDiskExtentsLen, diskExtentSize in *.
  exists (Z.of_nat (length diskNumbers)).
  assert (0 < length diskNumbers)%nat by (destruct diskNumbers; simpl; [done|lia]).
  rewrite uint_small, Nat2Z.id by lia.
  split_and!; [done|lia|].
  apply diskIDsLoop_reads; [unfold diskExtentSize; lia|done].
Qed.

Lemma encodesExtents_range (volumeDiskExtents : list Byte.byte)
    (diskNumbers : list Z) (n : Z) :
  encodesExtents volumeDiskExtents diskNumbers →
  n ∈ diskNumbers → 0 <= n < 2 ^ 32.
Proof.
  intros (_ & _ & _ & Hread) [i Hi]%list_elem_of_lookup.
  apply Hread in Hi. unfold diskNumberAt, uint32At in Hi.
  destruct (sliceFrom _ _) as [tail|]; [|done].
  by apply (Uint32_bound tail).
Qed.

(** ** [getVolumeInfo] *)

Section resolve.

(** A run in which the OS lets [getVolumeInfo] open the volume and answers
    its disk-extent query. *)
Context (os : OS) (volumes : gmap string string) (rootDrive : string).
Context (h : Z) (volumeDiskExtents : list Byte.byte).
Hypothesis Hanswer : answersExtents os volumes rootDrive h volumeDiskExtents.

Let root : string := volumeInformationRootDrive (volumePath volumes rootDrive).
Let driveType : Z := uint32 (os_GetDriveType os root).

(** Once the disk-extent query is answered, [getVolumeInfo] is decided by
    the extent count: here the count is zero. *)
Lemma getVolumeInfo_no_extents :
  binary.Uint32 volumeDiskExtents = Some 0 →
  getVolumeInfo os volumes rootDrive []
  = (Returned
       (volumeInfo_zero,
        Some (Plainf ("could not identify physical drive for " +:+ rootDrive
                      +:+ ": no disk IDs returned"))),
     [CreateFile ("\\.\" +:+ volumePath volumes rootDrive) 0 mode
        windows.OPEN_EXISTING attr;
      DeviceIoControl h controlCode (uint32 volumeDiskExtentsLen);
      Close h]).
Proof.
  destruct Hanswer as (written & Hptr & Hopen & Hioctl & Hbuf).
  rewrite Hbuf. intros Hcount.
  unfold getVolumeInfo. sys_simpl.
  rewrite Hptr. sys_simpl. rewrite Hopen. sys_simpl.
  rewrite Hioctl. sys_simpl. rewrite Hcount. sys_simpl.
  reflexivity.
Qed.

(** ... and here the extents are parsed: both the drive-type and the
    volume-information query are made on the root path, and the answer to
    the latter decides the result. *)
Lemma getVolumeInfo_parsed (ids : list string) :
  parsesExtents volumeDiskExtents ids →
  getVolumeInfo os volumes rootDrive []
  = (Returned
       match os_GetVolumeInformation os root with
       | Fail err =>
           if (driveType =? windows.DRIVE_CDROM)
              || (driveType =? windows.DRIVE_REMOVABLE)
           then (volumeInfo_zero, None)
           else (volumeInfo_zero,
                 Some (Wrapf ("could not get volume information for "
                              +:+ root +:+ ": ") err))
       | Ok info =>
           ({| diskIDs := strings.Join (slices.Compact (slices.Sort ids)) ";";
               volumeType := getDriveType driveType;
               label := volBufLabel info;
               filesystem := volBufType info;
               serialNumber := strconv.FormatHex (uint32 (volSerialNum info));
               readonly := Z.land (uint32 (fsFlags info))
                                  windows.FILE_READ_ONLY_VOLUME |},
            None)
       end,
     fullLog volumes rootDrive h).
Proof.
  destruct Hanswer as (written & Hptr & Hopen & Hioctl & Hbuf).
  rewrite Hbuf. intros (count & Hcount & Hpos & Hloop).
  pose proof (volumeInformationRootDrive_ptr _ Hptr) as Hroot.
  unfold getVolumeInfo. sys_simpl.
  rewrite Hptr. sys_simpl. rewrite Hopen. sys_simpl.
  rewrite Hioctl. sys_simpl. rewrite Hcount. sys_simpl.
  rewrite (proj2 (Z.ltb_ge _ _)) by lia. sys_simpl.
  rewrite Hloop. sys_simpl. rewrite Hroot. sys_simpl.
  fold root. fold driveType. unfold fullLog.
  destruct (os_GetVolumeInformation os root) as [info|e]; [reflexivity|].
  destruct ((driveType =? windows.DRIVE_CDROM)
            || (driveType =? windows.DRIVE_REMOVABLE)); reflexivity.
Qed.

(** C3. When the disk-extent query is answered with a buffer whose leading
    extent count is zero, [getVolumeInfo] returns an error whose text
    contains "no disk IDs returned"; it does not return a success. *)
Theorem getVolumeInfo_zero_extents :
  binary.Uint32 volumeDiskExtents = Some 0 →
  ∃ e log,
    getVolumeInfo os volumes rootDrive []
      = (Returned (volumeInfo_zero, Some e), log)
    ∧ strings.Contains (Error e) "no disk IDs returned" = true.
Proof.
  intros Hcount. rewrite (getVolumeInfo_no_extents Hcount).
  eexists _, _. split; [reflexivity|].
  cbn [Error]. apply Contains_append_r, Contains_append_r. reflexivity.
Qed.

(** C4. When the volume-information query fails: for a CD-ROM or removable
    drive [getVolumeInfo] returns the empty [volumeInfo] and a nil error;
    for every other drive type it returns an error whose text names the
    root path the query was made on. *)
Theorem getVolumeInfo_query_fails (ids : list string) (cause : error) :
  parsesExtents volumeDiskExtents ids →
  os_GetVolumeInformation os root = Fail cause →
  (driveType = windows.DRIVE_CDROM ∨ driveType = windows.DRIVE_REMOVABLE →
   getVolumeInfo os volumes rootDrive []
   = (Returned (volumeInfo_zero, None), fullLog volumes rootDrive h))
  ∧ (driveType ≠ windows.DRIVE_CDROM →
     driveType ≠ windows.DRIVE_REMOVABLE →
     ∃ e,
       getVolumeInfo os volumes rootDrive []
       = (Returned (volumeInfo_zero, Some e), fullLog volumes rootDrive h)
       ∧ Error e = "could not get volume information for " +:+ root +:+ ": "
                   +:+ Error cause
       ∧ strings.Contains (Error e) root = true).
Proof.
  intros Hparse Hfail.
  rewrite (getVolumeInfo_parsed ids Hparse), Hfail. split.
  - intros [->| ->]; reflexivity.
  - intros Hcd Hrem.
    rewrite (proj2 (Z.eqb_neq _ _) Hcd), (proj2 (Z.eqb_neq _ _) Hrem).
    eexists. split; [reflexivity|]. cbn [Error orb].
    rewrite <-!append_assoc. split; [reflexivity|].
    apply Contains_append_mid.
Qed.

(** C1, as the code has it.  For a well-formed disk-extent buffer with at
    least one extent, when the volume-information query succeeds, the
    [diskIDs] text is the [;]-joined list of the decimal texts of the
    distinct disk numbers, ascending in string order (byte-wise, as
    [slices.Sort] orders strings): strictly ascending, and a permutation
    of the decimal texts of the disk numbers without their duplicates.  For
    disk numbers below ten this is the numerically ascending list. *)
Theorem getVolumeInfo_diskIDs (diskNumbers : list Z)
    (info : volumeInformation) :
  encodesExtents volumeDiskExtents diskNumbers →
  diskNumbers ≠ [] →
  os_GetVolumeInformation os root = Ok info →
  ∃ vi ids,
    getVolumeInfo os volumes rootDrive []
    = (Returned (vi, None), fullLog volumes rootDrive h)
    ∧ diskIDs vi = strings.Join ids ";"
    ∧ ids = slices.Compact (slices.Sort (strconv.FormatUint <$> diskNumbers))
    ∧ StronglySorted (strict String.le) ids
    ∧ ids ≡ₚ strconv.FormatUint <$> remove_dups diskNumbers
    ∧ ((∀ n, n ∈ diskNumbers → n < 10) →
       diskIDs vi = spec_diskIDs diskNumbers).
Proof.
  intros Hencodes Hne Hinfo.
  pose proof (encodesExtents_parses _ _ Hencodes Hne) as Hparse.
  rewrite (getVolumeInfo_parsed _ Hparse), Hinfo.
  destruct (Compact_Sort_spec (strconv.FormatUint <$> diskNumbers))
    as [Hsorted Helem].
  eexists _, _. split_and!; [reflexivity..|done| |].
  - apply NoDup_Permutation.
    + by apply StronglySorted_strict_NoDup.
    + apply NoDup_fmap_2_strong; [|apply NoDup_remove_dups].
      intros u v Hu Hv. rewrite elem_of_remove_dups in Hu, Hv.
      pose proof (encodesExtents_range _ _ _ Hencodes Hu).
      pose proof (encodesExtents_range _ _ _ Hencodes Hv).
      apply FormatUint_inj; lia.
    + intros s. rewrite Helem, !list_elem_of_fmap.
      by setoid_rewrite elem_of_remove_dups.
  - intros Hdigits. cbn [diskIDs]. apply Compact_Sort_digits.
    intros n Hn. pose proof (encodesExtents_range _ _ _ Hencodes Hn).
    pose proof (Hdigits n Hn). lia.
Qed.

End resolve.

Lemma getVolumeInfo_zero_extents_witness :
  ∃ e log,
    getVolumeInfo (Inputs.os (Ok []) windows.DRIVE_FIXED (Ok (Inputs.ntfs 0)))
      ∅ "C:" []
      = (Returned (volumeInfo_zero, Some e), log)
    ∧ strings.Contains (Error e) "no disk IDs returned" = true.
Proof.
  apply (getVolumeInfo_zero_extents _ ∅ "C:" 7
           (outBuffer (Z.to_nat volumeDiskExtentsLen) [])).
  - exists []. split_and!; reflexivity.
  - vm_compute. reflexivity.
Defined.

Lemma getVolumeInfo_query_fails_witness :
  getVolumeInfo
    (Inputs.os (Ok (Inputs.extents [(1, 0)])) windows.DRIVE_CDROM
       (Fail Inputs.notReady)) ∅ "D:" []
  = (Returned (volumeInfo_zero, None), fullLog ∅ "D:" 7)
  ∧ ∃ e,
      getVolumeInfo
        (Inputs.os (Ok (Inputs.extents [(1, 0)])) windows.DRIVE_FIXED
           (Fail Inputs.notReady)) ∅ "D:" []
      = (Returned (volumeInfo_zero, Some e), fullLog ∅ "D:" 7)
      ∧ Error e = "could not get volume information for D:\: The device is not ready."
      ∧ strings.Contains (Error e) "D:\" = true.
Proof.
  assert (∀ driveType,
            answersExtents
              (Inputs.os (Ok (Inputs.extents [(1, 0)])) driveType
                 (Fail Inputs.notReady)) ∅ "D:" 7
              (outBuffer (Z.to_nat volumeDiskExtentsLen)
                 (Inputs.extents [(1, 0)]))) as Hanswer.
  { intros driveType. eexists. split_and!; reflexivity. }
  assert (parsesExtents
            (outBuffer (Z.to_nat volumeDiskExtentsLen)
               (Inputs.extents [(1, 0)])) ["1"]) as Hparse.
  { exists 1. split_and!; [by vm_compute..]. }
  split.
  - apply (proj1 (getVolumeInfo_query_fails _ ∅ "D:" 7 _
                    (Hanswer windows.DRIVE_CDROM) ["1"] Inputs.notReady
                    Hparse eq_refl)).
    left. reflexivity.
  - apply (proj2 (getVolumeInfo_query_fails _ ∅ "D:" 7 _
                    (Hanswer windows.DRIVE_FIXED) ["1"] Inputs.notReady
                    Hparse eq_refl)); by vm_compute.
Defined.

Lemma getVolumeInfo_diskIDs_witness :
  ∃ vi,
    getVolumeInfo
      (Inputs.os (Ok (Inputs.extents [(5, 0); (3, 0); (3, 0); (9, 0)]))
         windows.DRIVE_FIXED (Ok (Inputs.ntfs 0))) ∅ "C:" []
    = (Returned (vi, None), fullLog ∅ "C:" 7)
    ∧ diskIDs vi = "3;5;9"
    ∧ diskIDs vi = spec_diskIDs [5; 3; 3; 9].
Proof.
  assert (answersExtents
            (Inputs.os (Ok (Inputs.extents [(5, 0); (3, 0); (3, 0); (9, 0)]))
               windows.DRIVE_FIXED (Ok (Inputs.ntfs 0))) ∅ "C:" 7
            (outBuffer (Z.to_nat volumeDiskExtentsLen)
               (Inputs.extents [(5, 0); (3, 0); (3, 0); (9, 0)])))
    as Hanswer.
  { eexists. split_and!; reflexivity. }
  destruct (getVolumeInfo_diskIDs _ ∅ "C:" 7 _ Hanswer [5; 3; 3; 9]
              (Inputs.ntfs 0))
    as (vi & ids & Hrun & Hjoin & Hids & _ & _ & Hspec).
  - split_and!; [by vm_compute..|].
    intros [|[|[|[|i]]]] n Hn; simpl in Hn; try discriminate;
      injection Hn as <-; by vm_compute.
  - discriminate.
  - reflexivity.
  - exists vi. split_and!; [exact Hrun| |].
    + rewrite Hjoin, Hids. by vm_compute.
    + apply Hspec. intros n Hn. set_unfold in Hn. lia.
Defined.

(** C1, as stated, fails: for the disk numbers 10 and 9 (found at either
    reading of the record layout) the text is ["10;9"], in string order,
    and not ["9;10"]. *)
Lemma getVolumeInfo_diskIDs_counterexample :
  let volumeDiskExtents :=
    outBuffer (Z.to_nat volumeDiskExtentsLen)
      (Inputs.extents [(10, 10); (9, 9)]) in
  encodesExtents volumeDiskExtents [10; 9]
  ∧ uint32At volumeDiskExtents (4 + 24 * 0 + 8) = Some 10
  ∧ uint32At volumeDiskExtents (4 + 24 * 1 + 8) = Some 9
  ∧ spec_diskIDs [10; 9] = "9;10"
  ∧ ∃ vi log,
      getVolumeInfo
        (Inputs.os (Ok (Inputs.extents [(10, 10); (9, 9)]))
           windows.DRIVE_FIXED (Ok (Inputs.ntfs 0))) ∅ "C:" []
      = (Returned (vi, None), log)
      ∧ diskIDs vi = "10;9"
      ∧ diskIDs vi ≠ spec_diskIDs [10; 9].
Proof.
  split_and!; [|by vm_compute..|].
  - split_and!; [by vm_compute..|].
    intros [|[|i]] n Hn; simpl in Hn; try discriminate;
      injection Hn as <-; by vm_compute.
  - eexists _, _. split_and!; by vm_compute.
Qed.

(** ** The read-only flag *)

(** The bit of a power of two, as a mask. *)
Lemma land_pow2 (a k : Z) :
  0 <= k → Z.land a (2 ^ k) = if Z.testbit a k then 2 ^ k else 0.
Proof.
  intros Hk. apply Z.bits_inj'. intros n Hn.
  rewrite Z.land_spec, Z.pow2_bits_eqb by done.
  destruct (Z.eqb_spec k n) as [->|Hne].
  - destruct (Z.testbit a n); simpl;
      [by rewrite Z.pow2_bits_true|by rewrite Z.bits_0].
  - rewrite andb_false_r.
    destruct (Z.testbit a k);
      [by rewrite Z.pow2_bits_false|by rewrite Z.bits_0].
Qed.

(** C9. On a successful resolve the [readonly] field is the masked flag
    value [fsFlags & FILE_READ_ONLY_VOLUME] itself: [0] when the read-only
    bit (bit 19) is clear and [524288] when it is set.  [fsFlags] is what
    the volume-information query stored, or its initial [0] when the query
    failed and the failure was not an error (CD-ROM and removable drives).
    A resolve whose volume-information query succeeds is successful. *)
Theorem getVolumeInfo_readonly (os : OS) (volumes : gmap string string)
    (rootDrive : string) :
  let root := volumeInformationRootDrive (volumePath volumes rootDrive) in
  let fsFlags :=
    match os_GetVolumeInformation os root with
    | Ok info => fsFlags info
    | Fail _ => 0
    end in
  (∀ vi log,
     getVolumeInfo os volumes rootDrive [] = (Returned (vi, None), log) →
     readonly vi = Z.land (uint32 fsFlags) windows.FILE_READ_ONLY_VOLUME
     ∧ readonly vi = if Z.testbit fsFlags 19 then 524288 else 0)
  ∧ (∀ h volumeDiskExtents ids,
       answersExtents os volumes rootDrive h volumeDiskExtents →
       parsesExtents volumeDiskExtents ids →
       is_Ok (os_GetVolumeInformation os root) →
       ∃ vi,
         getVolumeInfo os volumes rootDrive []
         = (Returned (vi, None), fullLog volumes rootDrive h)
         ∧ readonly vi = if Z.testbit fsFlags 19 then 524288 else 0).
Proof.
  intros root flags.
  assert (Z.land (uint32 flags) windows.FILE_READ_ONLY_VOLUME
          = if Z.testbit flags 19 then 524288 else 0) as Hmask.
  { change windows.FILE_READ_ONLY_VOLUME with (2 ^ 19).
    rewrite land_pow2 by lia. unfold uint32.
    by rewrite Z.mod_pow2_bits_low by lia. }
  split.
  - intros vi log. rewrite <-Hmask. unfold getVolumeInfo. sys_simpl.
    destruct (windows.StringToUTF16Ptr _) as [p|] eqn:Hptr; [|discriminate].
    destruct (StringToUTF16Ptr_Some _ _ Hptr) as [-> _].
    rewrite (volumeInformationRootDrive_ptr _ Hptr). fold root.
    destruct (os_CreateFile _ _ _ _ _ _) as [h|e]; [|discriminate].
    destruct (os_DeviceIoControl _ _ _ _) as [written|e]; [|discriminate].
    destruct (binary.Uint32 _) as [count|]; [|discriminate].
    destruct (uint count <? 1); [discriminate|].
    destruct (diskIDsLoop _ _ _ _) as [ids|]; [|discriminate].
    subst flags.
    destruct (os_GetVolumeInformation os root) as [info|e].
    + by intros [= <- _].
    + destruct (_ || _); [|discriminate]. by intros [= <- _].
  - intros h volumeDiskExtents ids Hanswer Hparse Hinfo.
    rewrite (getVolumeInfo_parsed os volumes rootDrive h _ Hanswer ids Hparse).
    fold root. rewrite <-Hmask. subst flags.
    destruct (os_GetVolumeInformation os root) as [info|e]; [|done].
    eexists. split; reflexivity.
Qed.

Lemma getVolumeInfo_readonly_witness :
  ∃ vi,
    getVolumeInfo
      (Inputs.os (Ok (Inputs.extents [(1, 0)])) windows.DRIVE_FIXED
         (Ok (Inputs.ntfs 0x00080000))) ∅ "C:" []
    = (Returned (vi, None), fullLog ∅ "C:" 7)
    ∧ readonly vi = 524288.
Proof.
  apply (proj2 (getVolumeInfo_readonly
                  (Inputs.os (Ok (Inputs.extents [(1, 0)]))
                     windows.DRIVE_FIXED (Ok (Inputs.ntfs 0x00080000)))
                  ∅ "C:") 7
           (outBuffer (Z.to_nat volumeDiskExtentsLen)
              (Inputs.extents [(1, 0)])) ["1"]).
  - eexists. split_and!; reflexivity.
  - exists 1. split_and!; by vm_compute.
  - exact I.
Defined.

(** ** The root path *)

(** C6, as the code has it.  With the GUID path stored without its trailing
    separator, as [getAllMountedVolumes] stores it, the request ["C:"] makes
    both the drive-type and the volume-information query on
    ["\\?\Volume{abc}\"]. *)
Theorem getVolumeInfo_canonical_root (os : OS) (h : Z)
    (volumeDiskExtents : list Byte.byte) (ids : list string) :
  let volumes : gmap string string := {[ "C:" := "\\?\Volume{abc}" ]} in
  answersExtents os volumes "C:" h volumeDiskExtents →
  parsesExtents volumeDiskExtents ids →
  getAllMountedVolumes
    {| hFindVolume := 3;
       replies := [VolumeFound "\\?\Volume{abc}\" [PathNamesOk "C:\" 4];
                   Inputs.noMoreVolumes] |} []
  = (Returned (Ok volumes),
     [FindFirstVolume 522;
      GetVolumePathNamesForVolumeName "\\?\Volume{abc}\" 261 522;
      FindNextVolume 3 522; FindVolumeClose 3])
  ∧ volumeInformationRootDrive (volumePath volumes "C:") = "\\?\Volume{abc}\"
  ∧ ∃ o,
      getVolumeInfo os volumes "C:" []
      = (Returned o,
         [CreateFile "\\.\Volume{abc}" 0 mode windows.OPEN_EXISTING attr;
          DeviceIoControl h controlCode (uint32 volumeDiskExtentsLen);
          GetDriveType "\\?\Volume{abc}\";
          GetVolumeInformation "\\?\Volume{abc}\";
          Close h]).
Proof.
  intros volumes Hanswer Hparse. split_and!; [by vm_compute..|].
  rewrite (getVolumeInfo_parsed os volumes "C:" h _ Hanswer ids Hparse).
  eexists. f_equal.
Qed.

Lemma getVolumeInfo_canonical_root_witness :
  ∃ o,
    getVolumeInfo
      (Inputs.os (Ok (Inputs.extents [(1, 0)])) windows.DRIVE_FIXED
         (Ok (Inputs.ntfs 0))) {[ "C:" := "\\?\Volume{abc}" ]} "C:" []
    = (Returned o,
       [CreateFile "\\.\Volume{abc}" 0 mode windows.OPEN_EXISTING attr;
        DeviceIoControl 7 controlCode (uint32 volumeDiskExtentsLen);
        GetDriveType "\\?\Volume{abc}\";
        GetVolumeInformation "\\?\Volume{abc}\";
        Close 7]).
Proof.
  apply (getVolumeInfo_canonical_root
           (Inputs.os (Ok (Inputs.extents [(1, 0)])) windows.DRIVE_FIXED
              (Ok (Inputs.ntfs 0))) 7
           (outBuffer (Z.to_nat volumeDiskExtentsLen)
              (Inputs.extents [(1, 0)])) ["1"]).
  - eexists. split_and!; reflexivity.
  - exists 1. split_and!; by vm_compute.
Defined.

(** C6, as stated, fails: with the map value ["\\?\Volume{abc}\"], which
    ends in a separator, both queries are made on ["\\?\Volume{abc}\\"]. *)
Lemma getVolumeInfo_canonical_root_counterexample :
  let volumes : gmap string string := {[ "C:" := "\\?\Volume{abc}\" ]} in
  volumeInformationRootDrive (volumePath volumes "C:") = "\\?\Volume{abc}\\"
  ∧ volumeInformationRootDrive (volumePath volumes "C:") ≠ "\\?\Volume{abc}\"
  ∧ ∃ o,
      getVolumeInfo
        (Inputs.os (Ok (Inputs.extents [(1, 0)])) windows.DRIVE_FIXED
           (Ok (Inputs.ntfs 0))) volumes "C:" []
      = (Returned o,
         [CreateFile "\\.\Volume{abc}\" 0 mode windows.OPEN_EXISTING attr;
          DeviceIoControl 7 controlCode (uint32 volumeDiskExtentsLen);
          GetDriveType "\\?\Volume{abc}\\";
          GetVolumeInformation "\\?\Volume{abc}\\";
          Close 7]).
Proof.
  split_and!; [by vm_compute..|].
  eexists. by vm_compute.
Qed.

(** ** Mount-point resolution *)

Lemma errorsIs_code (e : error) (a b : Z) :
  errorsIs e a = true → errorsIs e b = true → a = b.
Proof.
  induction e as [code t|prefix cause IH|t]; simpl; [|done..].
  intros Ha%bool_decide_eq_true Hb%bool_decide_eq_true. congruence.
Qed.

Lemma retried_true (reply : pathNamesReply) :
  retried reply = true →
  ∃ err rootPathLen,
    reply = PathNamesFail err rootPathLen
    ∧ errorsIs err windows.ERROR_FILE_NOT_FOUND = false
    ∧ errorsIs err windows.ERROR_NO_MORE_FILES = true.
Proof.
  destruct reply as [t n|err n]; [done|]. simpl. intros Hmore.
  exists err, n. split_and!; [done| |done].
  destruct (errorsIs err windows.ERROR_FILE_NOT_FOUND) eqn:Hnot; [|done].
  by pose proof (errorsIs_code err _ _ Hnot Hmore).
Qed.

(** The calls of the inner loop: one for the buffer it starts with and one
    more, with a buffer of [(L + 1) / 2] units, after every retried
    answer. *)
Lemma pathNamesLoop_log (guid : string) (rootPathBufLen : Z)
    (final : pathNamesReply) (rest : list pathNamesReply)
    (reports : list pathNamesReply) :
  ∀ (rootPathBuf : pathBuf) (log : list syscall),
    cap rootPathBuf ≠ 0 →
    Forall (fun r => retried r = true ∧ resized (reportedLength r) ≠ 0)
           reports →
    retried final = false →
    pathNamesLoop guid rootPathBufLen (reports ++ final :: rest)
      rootPathBuf log
    = (Returned (settle (lastPathBuf rootPathBuf reports) final),
       log ++ ((fun c => GetVolumePathNamesForVolumeName guid c rootPathBufLen)
               <$> cap rootPathBuf
                   :: ((resized ∘ reportedLength) <$> reports))).
Proof.
  induction reports as [|r reports IH]; intros rootPathBuf log Hcap Hall Hfinal.
  - cbn [app pathNamesLoop fmap list_fmap lastPathBuf foldl].
    rewrite (proj2 (Z.eqb_neq _ _) Hcap). sys_simpl.
    destruct final as [t n|err n]; [done|]. simpl in Hfinal |- *.
    destruct (errorsIs err windows.ERROR_FILE_NOT_FOUND); [done|].
    by destruct (errorsIs err windows.ERROR_NO_MORE_FILES).
  - apply Forall_cons in Hall as [[Hr Hsize] Hall].
    apply retried_true in Hr as (err & n & -> & Hnot & Hmore).
    cbn [app pathNamesLoop]. rewrite (proj2 (Z.eqb_neq _ _) Hcap). sys_simpl.
    rewrite Hnot, Hmore. fold (resized n).
    rewrite (IH (makePathBuf (resized n)) _ Hsize Hall Hfinal).
    cbn [lastPathBuf foldl fmap list_fmap reportedLength compose cap
         makePathBuf].
    by rewrite <-(assoc_L (++)).
Qed.

Lemma pathNamesCaps_fmap (guid : string) (len : Z) (caps : list Z) :
  pathNamesCaps
    ((fun c => GetVolumePathNamesForVolumeName guid c len) <$> caps) = caps.
Proof.
  induction caps as [|c caps IH]; [done|].
  unfold pathNamesCaps in *. simpl. f_equal. exact IH.
Qed.

Lemma pathNamesCalls_fmap (guid : string) (len : Z) (caps : list Z) :
  pathNamesCalls
    ((fun c => GetVolumePathNamesForVolumeName guid c len) <$> caps)
  = length caps.
Proof.
  unfold pathNamesCalls.
  induction caps as [|c caps IH]; [done|]. simpl. f_equal. exact IH.
Qed.

(** The retry path of the inner loop, taken on [ERROR_NO_MORE_FILES].
    After every such answer the buffer is replaced by a fresh one of
    [(L + 1) / 2] 16-bit units, [L] being the value of [rootPathLen], and
    the call is issued again with the length argument unchanged; after [n]
    such answers in a row the call has been issued [n + 1] times, and the
    answer that follows decides between success, skip and error. *)
Lemma pathNamesLoop_retries (guid : string) (rootPathBufLen : Z)
    (reports : list pathNamesReply) (final : pathNamesReply)
    (rest : list pathNamesReply) (rootPathBuf : pathBuf) :
  cap rootPathBuf ≠ 0 →
  Forall (fun r => retried r = true ∧ resized (reportedLength r) ≠ 0)
         reports →
  retried final = false →
  ∃ log,
    pathNamesLoop guid rootPathBufLen (reports ++ final :: rest)
      rootPathBuf []
    = (Returned (settle (lastPathBuf rootPathBuf reports) final), log)
    ∧ pathNamesCalls log = S (length reports)
    ∧ length log = S (length reports)
    ∧ pathNamesCaps log
      = cap rootPathBuf :: ((resized ∘ reportedLength) <$> reports).
Proof.
  intros Hcap Hall Hfinal.
  rewrite (pathNamesLoop_log guid rootPathBufLen final rest reports
             rootPathBuf [] Hcap Hall Hfinal).
  eexists. split; [reflexivity|]. rewrite app_nil_l.
  rewrite pathNamesCalls_fmap, pathNamesCaps_fmap, length_fmap.
  cbn [length]. by rewrite length_fmap.
Qed.

(** C5.  The code does not do what the claim says.  When the OS reports
    the output buffer undersized ([ERROR_MORE_DATA], with the required
    length), the inner loop neither resizes the buffer nor retries: the
    call has been issued once, the loop returns the error, wrapped, and the
    answers that would follow are never asked for.  When this happens for
    the first volume, [getAllMountedVolumes] returns that error and no map
    after three calls, the last of which closes the find handle.  The
    resize and retry of the source are made on [ERROR_NO_MORE_FILES]
    instead. *)
Theorem getAllMountedVolumes_undersized (h : Z) (guid : string)
    (reply : pathNamesReply) (more : list pathNamesReply)
    (rest : list volumeReply) :
  undersized reply = true →
  ∃ err,
    reply = PathNamesFail err (reportedLength reply)
    ∧ retried reply = false
    ∧ (∀ rootPathBufLen rootPathBuf log,
         cap rootPathBuf ≠ 0 →
         pathNamesLoop guid rootPathBufLen (reply :: more) rootPathBuf log
         = (Returned (Return (Wrapf "GetVolumePathNamesForVolumeName: " err)),
            log ++ [GetVolumePathNamesForVolumeName guid (cap rootPathBuf)
                      rootPathBufLen]))
    ∧ getAllMountedVolumes
        {| hFindVolume := h;
           replies := VolumeFound guid (reply :: more) :: rest |} []
      = (Returned (Fail (Wrapf "GetVolumePathNamesForVolumeName: " err)),
         [FindFirstVolume 522;
          GetVolumePathNamesForVolumeName guid 261 522;
          FindVolumeClose h]).
Proof.
  destruct reply as [t n|err n]; [done|]. cbn [undersized]. intros Hmore.
  assert (errorsIs err windows.ERROR_FILE_NOT_FOUND = false) as Hnot.
  { destruct (errorsIs err windows.ERROR_FILE_NOT_FOUND) eqn:Hnot; [|done].
    by pose proof (errorsIs_code err _ _ Hnot Hmore). }
  assert (errorsIs err windows.ERROR_NO_MORE_FILES = false) as Hfiles.
  { destruct (errorsIs err windows.ERROR_NO_MORE_FILES) eqn:Hfiles; [|done].
    by pose proof (errorsIs_code err _ _ Hfiles Hmore). }
  exists err. split_and!; [done|done| |].
  - intros rootPathBufLen rootPathBuf log Hcap. cbn [pathNamesLoop].
    rewrite (proj2 (Z.eqb_neq _ _) Hcap). sys_simpl.
    by rewrite Hnot, Hfiles.
  - unfold getAllMountedVolumes. cbn [replies hFindVolume]. sys_simpl.
    change (uint32 ((windows.MAX_PATH + 1) * 2)) with 522.
    destruct rest; cbn [volumesLoop pathNamesLoop]; sys_simpl;
      by rewrite Hnot, Hfiles.
Qed.

Lemma getAllMountedVolumes_undersized_witness :
  ∃ err,
    Inputs.moreData 600 = PathNamesFail err 600
    ∧ retried (Inputs.moreData 600) = false
    ∧ (∀ rootPathBufLen rootPathBuf log,
         cap rootPathBuf ≠ 0 →
         pathNamesLoop "\\?\Volume{abc}\" rootPathBufLen
           [Inputs.moreData 600; PathNamesOk "C:\" 4] rootPathBuf log
         = (Returned (Return (Wrapf "GetVolumePathNamesForVolumeName: " err)),
            log ++ [GetVolumePathNamesForVolumeName "\\?\Volume{abc}\"
                      (cap rootPathBuf) rootPathBufLen]))
    ∧ getAllMountedVolumes
        {| hFindVolume := 3;
           replies :=
             [VolumeFound "\\?\Volume{abc}\"
                [Inputs.moreData 600; PathNamesOk "C:\" 4];
              Inputs.noMoreVolumes] |} []
      = (Returned (Fail (Wrapf "GetVolumePathNamesForVolumeName: " err)),
         [FindFirstVolume 522;
          GetVolumePathNamesForVolumeName "\\?\Volume{abc}\" 261 522;
          FindVolumeClose 3]).
Proof.
  exact (getAllMountedVolumes_undersized 3 "\\?\Volume{abc}\"
           (Inputs.moreData 600) [PathNamesOk "C:\" 4]
           [Inputs.noMoreVolumes] eq_refl).
Defined.

(** * Further properties *)

(** ** [getVolumeInfo]: every path *)

Lemma outBuffer_length (n : nat) (written : list Byte.byte) :
  length (outBuffer n written) = n.
Proof.
  unfold outBuffer. rewrite length_take, length_app, length_replicate. lia.
Qed.

(** The runs of [getVolumeInfo], path by path, from any log. *)
Lemma getVolumeInfo_paths (os : OS) (volumes : gmap string string)
    (rootDrive : string) (log : list syscall) :
  let name := "\\.\" +:+ volumePath volumes rootDrive in
  let root := volumeInformationRootDrive (volumePath volumes rootDrive) in
  let open := CreateFile name 0 mode windows.OPEN_EXISTING attr in
  let ioctl h := DeviceIoControl h controlCode (uint32 volumeDiskExtentsLen) in
  getVolumeInfo os volumes rootDrive log
  = match windows.StringToUTF16Ptr name with
    | None => (Panicked, log)
    | Some _ =>
        match os_CreateFile os name 0 mode windows.OPEN_EXISTING attr with
        | Fail err =>
            (Returned (volumeInfo_zero,
                       Some (Wrapf ("could not open volume for " +:+ rootDrive
                                    +:+ ": ") err)),
             log ++ [open])
        | Ok h =>
            match os_DeviceIoControl os h controlCode
                    (uint32 volumeDiskExtentsLen) with
            | Fail err =>
                (Returned (volumeInfo_zero,
                           Some (Wrapf ("could not identify physical drive for "
                                        +:+ rootDrive +:+ ": ") err)),
                 log ++ [open; ioctl h; Close h])
            | Ok written =>
                let volumeDiskExtents :=
                  outBuffer (Z.to_nat volumeDiskExtentsLen) written in
                match binary.Uint32 volumeDiskExtents with
                | None => (Panicked, log ++ [open; ioctl h; Close h])
                | Some count =>
                    if uint count <? 1 then
                      (Returned
                         (volumeInfo_zero,
                          Some (Plainf ("could not identify physical drive for "
                                        +:+ rootDrive
                                        +:+ ": no disk IDs returned"))),
                       log ++ [open; ioctl h; Close h])
                    else
                      match diskIDsLoop volumeDiskExtents
                              (Z.to_nat (uint count)) 0
                              (replicate (Z.to_nat (uint count)) EmptyString)
                      with
                      | None => (Panicked, log ++ [open; ioctl h; Close h])
                      | Some ids =>
                          (Returned
                             match os_GetVolumeInformation os root with
                             | Fail err =>
                                 if (uint32 (os_GetDriveType os root)
                                     =? windows.DRIVE_CDROM)
                                    || (uint32 (os_GetDriveType os root)
                                        =? windows.DRIVE_REMOVABLE)
                                 then (volumeInfo_zero, None)
                                 else
                                   (volumeInfo_zero,
                                    Some (Wrapf
                                            ("could not get volume information for "
                                             +:+ root +:+ ": ") err))
                             | Ok info =>
                                 ({| diskIDs :=
                                       strings.Join
                                         (slices.Compact (slices.Sort ids)) ";";
                                     volumeType :=
                                       getDriveType
                                         (uint32 (os_GetDriveType os root));
                                     label := volBufLabel info;
                                     filesystem := volBufType info;
                                     serialNumber :=
                                       strconv.FormatHex
                                         (uint32 (volSerialNum info));
                                     readonly :=
                                       Z.land (uint32 (fsFlags info))
                                         windows.FILE_READ_ONLY_VOLUME |},
                                  None)
                             end,
                           log ++ [open; ioctl h; GetDriveType root;
                                   GetVolumeInformation root; Close h])
                      end
                end
            end
        end
    end.
Proof.
  intros name root open ioctl. unfold getVolumeInfo. sys_simpl. fold name.
  destruct (windows.StringToUTF16Ptr name) as [p|] eqn:Hptr; [|reflexivity].
  destruct (StringToUTF16Ptr_Some _ _ Hptr) as [-> _].
  rewrite (volumeInformationRootDrive_ptr _ Hptr). fold root.
  destruct (os_CreateFile _ _ _ _ _ _) as [h|e]; [|reflexivity].
  destruct (os_DeviceIoControl _ _ _ _) as [written|e];
    [|by rewrite <-!(assoc_L (++))].
  cbv zeta.
  destruct (binary.Uint32 _) as [count|]; [|by rewrite <-!(assoc_L (++))].
  destruct (uint count <? 1); [by rewrite <-!(assoc_L (++))|].
  destruct (diskIDsLoop _ _ _ _) as [ids|]; [|by rewrite <-!(assoc_L (++))].
  destruct (os_GetVolumeInformation os root) as [info|e];
    [by rewrite <-!(assoc_L (++))|].
  destruct (_ || _); by rewrite <-!(assoc_L (++)).
Qed.

(** X1. When the volume cannot be opened, [getVolumeInfo] returns the empty
    [volumeInfo] and an error that names the requested drive and wraps the
    cause; [CreateFile] is the only call made: no device-control query and
    no [Close]. *)
Theorem getVolumeInfo_open_fails (os : OS) (volumes : gmap string string)
    (rootDrive : string) (cause : error) :
  let name := "\\.\" +:+ volumePath volumes rootDrive in
  windows.StringToUTF16Ptr name = Some name →
  os_CreateFile os name 0 mode windows.OPEN_EXISTING attr = Fail cause →
  ∃ e,
    getVolumeInfo os volumes rootDrive []
    = (Returned (volumeInfo_zero, Some e),
       [CreateFile name 0 mode windows.OPEN_EXISTING attr])
    ∧ Error e = "could not open volume for " +:+ rootDrive +:+ ": "
                +:+ Error cause
    ∧ errorsIs e = errorsIs cause.
Proof.
  intros name Hptr Hopen. rewrite getVolumeInfo_paths. fold name.
  rewrite Hptr, Hopen. eexists. split_and!; [reflexivity| |reflexivity].
  cbn [Error]. by rewrite <-!append_assoc.
Qed.

Lemma getVolumeInfo_open_fails_witness :
  ∃ e,
    getVolumeInfo
      {| os_CreateFile := fun _ _ _ _ _ => Fail (Errno 5 "Access is denied.");
         os_DeviceIoControl := fun _ _ _ => Ok [];
         os_GetDriveType := fun _ => windows.DRIVE_FIXED;
         os_GetVolumeInformation := fun _ => Ok (Inputs.ntfs 0) |} ∅ "C:" []
    = (Returned (volumeInfo_zero, Some e),
       [CreateFile "\\.\C:" 0 mode windows.OPEN_EXISTING attr])
    ∧ Error e = "could not open volume for C:: Access is denied."
    ∧ errorsIs e = errorsIs (Errno 5 "Access is denied.").
Proof.
  exact (getVolumeInfo_open_fails
           {| os_CreateFile :=
                fun _ _ _ _ _ => Fail (Errno 5 "Access is denied.");
              os_DeviceIoControl := fun _ _ _ => Ok [];
              os_GetDriveType := fun _ => windows.DRIVE_FIXED;
              os_GetVolumeInformation := fun _ => Ok (Inputs.ntfs 0) |}
           ∅ "C:" (Errno 5 "Access is denied.") eq_refl eq_refl).
Defined.

(** X2. When the disk-extent query fails, [getVolumeInfo] returns the empty
    [volumeInfo] and an error that names the requested drive and wraps the
    cause ([errors.Is] finds in it what it finds in the cause); no
    drive-type or volume-information query is made, and the volume handle
    is closed. *)
Theorem getVolumeInfo_ioctl_fails (os : OS) (volumes : gmap string string)
    (rootDrive : string) (h : Z) (cause : error) :
  let name := "\\.\" +:+ volumePath volumes rootDrive in
  windows.StringToUTF16Ptr name = Some name →
  os_CreateFile os name 0 mode windows.OPEN_EXISTING attr = Ok h →
  os_DeviceIoControl os h controlCode (uint32 volumeDiskExtentsLen)
    = Fail cause →
  ∃ e,
    getVolumeInfo os volumes rootDrive []
    = (Returned (volumeInfo_zero, Some e),
       [CreateFile name 0 mode windows.OPEN_EXISTING attr;
        DeviceIoControl h controlCode (uint32 volumeDiskExtentsLen);
        Close h])
    ∧ Error e = "could not identify physical drive for " +:+ rootDrive
                +:+ ": " +:+ Error cause
    ∧ errorsIs e = errorsIs cause.
Proof.
  intros name Hptr Hopen Hioctl. rewrite getVolumeInfo_paths. fold name.
  rewrite Hptr, Hopen, Hioctl. eexists. split_and!; [reflexivity| |reflexivity].
  cbn [Error]. by rewrite <-!append_assoc.
Qed.

Lemma getVolumeInfo_ioctl_fails_witness :
  ∃ e,
    getVolumeInfo
      (Inputs.os (Fail (Errno 1 "Incorrect function.")) windows.DRIVE_REMOTE
         (Ok (Inputs.ntfs 0))) ∅ "Z:" []
    = (Returned (volumeInfo_zero, Some e),
       [CreateFile "\\.\Z:" 0 mode windows.OPEN_EXISTING attr;
        DeviceIoControl 7 controlCode (uint32 volumeDiskExtentsLen);
        Close 7])
    ∧ Error e = "could not identify physical drive for Z:: Incorrect function."
    ∧ errorsIs e = errorsIs (Errno 1 "Incorrect function.").
Proof.
  exact (getVolumeInfo_ioctl_fails
           (Inputs.os (Fail (Errno 1 "Incorrect function."))
              windows.DRIVE_REMOTE (Ok (Inputs.ntfs 0)))
           ∅ "Z:" 7 (Errno 1 "Incorrect function.") eq_refl eq_refl eq_refl).
Defined.

(** X3. An error is never paired with data: whenever [getVolumeInfo]
    returns a non-nil error, the [volumeInfo] it returns is the zero
    value. *)
Theorem getVolumeInfo_error_zero (os : OS) (volumes : gmap string string)
    (rootDrive : string) (log : list syscall) :
  match getVolumeInfo os volumes rootDrive log with
  | (Returned (vi, Some _), _) => vi = volumeInfo_zero
  | _ => True
  end.
Proof.
  rewrite getVolumeInfo_paths.
  destruct (windows.StringToUTF16Ptr _); [|done].
  destruct (os_CreateFile _ _ _ _ _ _) as [h|?]; [|done].
  destruct (os_DeviceIoControl _ _ _ _) as [written|?]; [|done].
  cbv zeta. destruct (binary.Uint32 _) as [count|]; [|done].
  destruct (uint count <? 1); [done|].
  destruct (diskIDsLoop _ _ _ _) as [ids|]; [|done].
  destruct (os_GetVolumeInformation _ _) as [info|?]; [done|].
  by destruct (_ || _).
Qed.

(** X4. The volume handle.  Every call [getVolumeInfo] makes asks for no
    access rights, and its [CreateFile] shares the volume for reading,
    writing and deleting.  When the volume was opened, its handle is closed
    exactly once, by the last call of the run, on every path (a panic
    included); when it was not, nothing is closed. *)
Theorem getVolumeInfo_handle (os : OS) (volumes : gmap string string)
    (rootDrive : string) :
  let name := "\\.\" +:+ volumePath volumes rootDrive in
  let log := snd (getVolumeInfo os volumes rootDrive []) in
  Forall (fun c => accessOf c = 0) log
  ∧ Forall (fun c => ∀ m, shareModeOf c = Some m →
                     m = Z.lor (Z.lor windows.FILE_SHARE_READ
                                      windows.FILE_SHARE_WRITE)
                               windows.FILE_SHARE_DELETE) log
  ∧ match windows.StringToUTF16Ptr name,
          os_CreateFile os name 0 mode windows.OPEN_EXISTING attr with
    | Some _, Ok h =>
        last log = Some (Close h) ∧ countCalls isClose log = 1%nat
    | _, _ => countCalls isClose log = 0%nat
    end.
Proof.
  intros name log. subst log. rewrite getVolumeInfo_paths. fold name.
  destruct (windows.StringToUTF16Ptr name); [|by repeat constructor].
  destruct (os_CreateFile _ _ _ _ _ _) as [h|?].
  2: { split_and!; [by repeat constructor| |done].
       repeat constructor. by intros m [= <-]. }
  destruct (os_DeviceIoControl _ _ _ _) as [written|?].
  2: { split_and!; [by repeat constructor| |done..].
       repeat constructor; by intros m [= <-]. }
  cbv zeta. destruct (binary.Uint32 _) as [count|].
  2: { split_and!; [by repeat constructor| |done..].
       repeat constructor; by intros m [= <-]. }
  destruct (uint count <? 1).
  { split_and!; [by repeat constructor| |done..].
    repeat constructor; by intros m [= <-]. }
  destruct (diskIDsLoop _ _ _ _) as [ids|].
  2: { split_and!; [by repeat constructor| |done..].
       repeat constructor; by intros m [= <-]. }
  split_and!; [by repeat constructor| |done..].
  repeat constructor; by intros m [= <-].
Qed.

(** ** [getVolumeInfo]: the bounds of the extent buffer *)

(** The loop panics when it reaches an extent that starts beyond the
    buffer. *)
Lemma diskIDsLoop_out_of_range (volumeDiskExtents : list Byte.byte)
    (todo : nat) :
  Z.of_nat (length volumeDiskExtents) = volumeDiskExtentsLen →
  ∀ (i : Z) (diskIDs : list string),
    0 <= i <= 683 → 684 <= i + Z.of_nat todo →
    diskIDsLoop volumeDiskExtents todo i diskIDs = None.
Proof.
  intros Hlen. unfold volumeDiskExtentsLen in Hlen.
  induction todo as [|todo IH]; intros i diskIDs Hi Htodo; [lia|].
  cbn [diskIDsLoop]. unfold diskExtentSize.
  rewrite uint_small by lia. unfold sliceFrom.
  destruct (decide (i = 683)) as [->|Hne].
  - rewrite (proj2 (Z.leb_gt _ _)) by lia. reflexivity.
  - rewrite (proj2 (Z.leb_le _ _)) by lia. simpl.
    destruct (binary.Uint32 _) as [n|]; [|done]. simpl.
    apply IH; lia.
Qed.

(** X5. The 16 KiB buffer holds at most 683 extents: when the OS reports an
    extent count above 683, [getVolumeInfo] panics (the slice of extent 683
    starts beyond the buffer) instead of returning, after the two calls it
    made; the deferred [Close] still runs. *)
Theorem getVolumeInfo_too_many_extents (os : OS)
    (volumes : gmap string string) (rootDrive : string) (h : Z)
    (volumeDiskExtents : list Byte.byte) (count : Z) :
  answersExtents os volumes rootDrive h volumeDiskExtents →
  binary.Uint32 volumeDiskExtents = Some count →
  684 <= count →
  getVolumeInfo os volumes rootDrive []
  = (Panicked,
     [CreateFile ("\\.\" +:+ volumePath volumes rootDrive) 0 mode
        windows.OPEN_EXISTING attr;
      DeviceIoControl h controlCode (uint32 volumeDiskExtentsLen);
      Close h]).
Proof.
  intros (written & Hptr & Hopen & Hioctl & ->) Hcount Hmany.
  pose proof (Uint32_bound _ _ Hcount) as Hbound.
  rewrite getVolumeInfo_paths, Hptr, Hopen, Hioctl. cbv zeta.
  rewrite Hcount, uint_small by lia.
  rewrite (proj2 (Z.ltb_ge _ _)) by lia.
  rewrite diskIDsLoop_out_of_range; [done| |lia|lia].
  rewrite outBuffer_length. by rewrite Z2Nat.id.
Qed.

Lemma getVolumeInfo_too_many_extents_witness :
  getVolumeInfo
    (Inputs.os (Ok (Inputs.le32 684)) windows.DRIVE_FIXED (Ok (Inputs.ntfs 0)))
    ∅ "C:" []
  = (Panicked,
     [CreateFile "\\.\C:" 0 mode windows.OPEN_EXISTING attr;
      DeviceIoControl 7 controlCode (uint32 volumeDiskExtentsLen);
      Close 7]).
Proof.
  assert (answersExtents
            (Inputs.os (Ok (Inputs.le32 684)) windows.DRIVE_FIXED
               (Ok (Inputs.ntfs 0))) ∅ "C:" 7
            (outBuffer (Z.to_nat volumeDiskExtentsLen) (Inputs.le32 684)))
    as Hanswer by (eexists; split_and!; reflexivity).
  assert (binary.Uint32
            (outBuffer (Z.to_nat volumeDiskExtentsLen) (Inputs.le32 684))
          = Some 684) as Hcount by (by vm_compute).
  exact (getVolumeInfo_too_many_extents _ ∅ "C:" 7 _ 684 Hanswer Hcount
           ltac:(lia)).
Defined.

(** ** [getVolumeInfo]: the disk IDs are never empty *)

Lemma formatBits_nonempty (fuel : nat) :
  ∀ (base u : Z) (acc : string),
    acc ≠ EmptyString → strconv.formatBits fuel base u acc ≠ EmptyString.
Proof.
  induction fuel as [|fuel IH]; intros base u acc Hacc; [done|].
  cbn [strconv.formatBits].
  destruct (u / base =? 0); [done|]. by apply IH.
Qed.

Lemma formatBits_S_nonempty (fuel : nat) (base u : Z) (acc : string) :
  strconv.formatBits (S fuel) base u acc ≠ EmptyString.
Proof.
  change (strconv.formatBits (S fuel) base u acc)
    with (if u / base =? 0 then String (strconv.digitChar (u mod base)) acc
          else strconv.formatBits fuel base (u / base)
                 (String (strconv.digitChar (u mod base)) acc)).
  destruct (u / base =? 0); [done|]. by apply formatBits_nonempty.
Qed.

Lemma FormatUint_nonempty (u : Z) : strconv.FormatUint u ≠ EmptyString.
Proof. apply formatBits_S_nonempty. Qed.

(** What the loop returns: the entries written before, then one decimal
    text per extent. *)
Lemma diskIDsLoop_Some (volumeDiskExtents : list Byte.byte) (todo : nat) :
  ∀ (pre post ids : list string),
    length post = todo →
    diskIDsLoop volumeDiskExtents todo (Z.of_nat (length pre)) (pre ++ post)
      = Some ids →
    ∃ diskNumbers : list Z,
      length diskNumbers = todo
      ∧ ids = pre ++ (strconv.FormatUint <$> diskNumbers).
Proof.
  induction todo as [|todo IH]; intros pre post ids Hpost.
  - destruct post; [|done]. intros [= <-]. by exists [].
  - destruct post as [|p post]; [done|]. cbn [diskIDsLoop].
    destruct (sliceFrom _ _) as [tail|]; [|done]. simpl.
    destruct (binary.Uint32 tail) as [n|]; [|done]. simpl.
    rewrite Nat2Z.id, insert_app_r_alt, Nat.sub_diag by lia. simpl.
    replace (Z.of_nat (length pre) + 1)
      with (Z.of_nat (length (pre ++ [strconv.FormatUint (uint64 n)])))
      by (rewrite length_app; simpl; lia).
    rewrite (cons_middle _ pre post), (assoc_L (++)).
    intros (diskNumbers & Hlen & ->)%IH; [|by injection Hpost].
    exists (uint64 n :: diskNumbers). split; [simpl; lia|].
    by rewrite <-(assoc_L (++)).
Qed.

Lemma Join_nonempty (elems : list string) (sep : string) :
  elems ≠ [] → Forall (fun e => e ≠ EmptyString) elems →
  strings.Join elems sep ≠ EmptyString.
Proof.
  destruct elems as [|e rest]; [done|]. intros _ Hall.
  apply Forall_cons in Hall as [He _].
  destruct e as [|c e]; [done|]. by destruct rest.
Qed.

(** X6. A successful result carries disk IDs unless the volume-information
    query failed: when [getVolumeInfo] returns a nil error, its [diskIDs]
    text is empty exactly when that query failed (the CD-ROM/removable
    path); after a successful query it is never empty. *)
Theorem getVolumeInfo_diskIDs_nonempty (os : OS)
    (volumes : gmap string string) (rootDrive : string) (log : list syscall) :
  let root := volumeInformationRootDrive (volumePath volumes rootDrive) in
  match getVolumeInfo os volumes rootDrive log with
  | (Returned (vi, None), _) =>
      diskIDs vi = EmptyString ↔ ¬ is_Ok (os_GetVolumeInformation os root)
  | _ => True
  end.
Proof.
  intros root. rewrite getVolumeInfo_paths. fold root.
  destruct (windows.StringToUTF16Ptr _); [|done].
  destruct (os_CreateFile _ _ _ _ _ _) as [h|?]; [|done].
  destruct (os_DeviceIoControl _ _ _ _) as [written|?]; [|done].
  cbv zeta. destruct (binary.Uint32 _) as [count|]; [|done].
  destruct (uint count <? 1) eqn:Hcount; [done|].
  apply Z.ltb_ge in Hcount.
  destruct (diskIDsLoop _ _ _ _) as [ids|] eqn:Hloop; [|done].
  destruct (os_GetVolumeInformation os root) as [info|?].
  - cbn [diskIDs is_Ok]. split; [|tauto]. intros Hempty. exfalso.
    apply (diskIDsLoop_Some _ _ []) in Hloop as (diskNumbers & Hlen & Hids);
      [|by rewrite length_replicate].
    rewrite app_nil_l in Hids. subst ids.
    destruct (Compact_Sort_spec (strconv.FormatUint <$> diskNumbers))
      as [_ Helem].
    revert Hempty. apply Join_nonempty.
    + destruct diskNumbers as [|n diskNumbers]; [simpl in Hlen; lia|].
      intros Hnil. specialize (Helem (strconv.FormatUint n)).
      rewrite Hnil in Helem.
      apply (elem_of_nil (strconv.FormatUint n)), Helem. by left.
    + apply Forall_forall. intros x [n [-> _]]%Helem%list_elem_of_fmap.
      apply FormatUint_nonempty.
  - destruct (_ || _); [|done]. cbn [diskIDs volumeInfo_zero is_Ok]. tauto.
Qed.

(** ** [getDriveType] *)

(** X7. [getDriveType] names the six drive types 1 to 6 with six different
    names, and gives "unknown" for every other code. *)
Theorem getDriveType_names (a b : Z) :
  (getDriveType a = "unknown" ↔ ¬ (1 <= a <= 6))
  ∧ (1 <= a <= 6 → 1 <= b <= 6 → getDriveType a = getDriveType b → a = b)
  ∧ getDriveType a ∈ ["unknown"; "norootdir"; "removable"; "fixed"; "remote";
                      "cdrom"; "ramdisk"].
Proof.
  assert (∀ t, (t <= 0 ∨ 7 <= t ∨ t = 1 ∨ t = 2 ∨ t = 3 ∨ t = 4 ∨ t = 5
                ∨ t = 6)) as Hcases by (intros; lia).
  assert (∀ t, t <= 0 ∨ 7 <= t → getDriveType t = "unknown") as Hout.
  { intros t Ht. unfold getDriveType.
    destruct (Z.eqb_spec t windows.DRIVE_UNKNOWN); [done|].
    repeat (match goal with
            | |- context [?x =? ?y] =>
                destruct (Z.eqb_spec x y) as [Heq|_];
                [vm_compute in Heq; lia|]
            end).
    done. }
  split_and!.
  - destruct (Hcases a) as [?|[?|Ha]].
    + rewrite Hout by tauto. split; [lia|done].
    + rewrite Hout by tauto. split; [lia|done].
    + repeat destruct Ha as [->|Ha]; try subst a; (split; [done|lia]).
  - intros Ha Hb.
    assert (a = 1 ∨ a = 2 ∨ a = 3 ∨ a = 4 ∨ a = 5 ∨ a = 6) as Has by lia.
    assert (b = 1 ∨ b = 2 ∨ b = 3 ∨ b = 4 ∨ b = 5 ∨ b = 6) as Hbs by lia.
    repeat destruct Has as [->|Has]; try subst a;
      repeat destruct Hbs as [->|Hbs]; try subst b; done.
  - rewrite list_elem_of_In.
    destruct (Hcases a) as [?|[?|Ha]].
    + rewrite Hout by tauto. simpl. tauto.
    + rewrite Hout by tauto. simpl. tauto.
    + repeat destruct Ha as [->|Ha]; try subst a; simpl; tauto.
Qed.

Lemma getDriveType_names_witness : getDriveType 9 = "unknown".
Proof.
  apply (proj2 (proj1 (getDriveType_names 9 0))). lia.
Defined.

(** ** [getAllMountedVolumes]: the enumeration *)

Lemma settled_not_retried (reply : pathNamesReply) :
  settled reply = true → retried reply = false.
Proof.
  destruct reply as [t n|e n]; [done|]. simpl. intros Hnot.
  destruct (errorsIs e windows.ERROR_NO_MORE_FILES) eqn:Hmore; [|done].
  by pose proof (errorsIs_code e _ _ Hnot Hmore).
Qed.

(** One turn of the outer loop for a volume settled by its first answer. *)
Lemma volumesLoop_settled (h : Z) (v : string * pathNamesReply)
    (more : list pathNamesReply) (reply : volumeReply)
    (script : list volumeReply) (volumes : gmap string string)
    (log : list syscall) :
  settled (snd v) = true →
  volumesLoop h 522 (fst v) (snd v :: more) (reply :: script) volumes log
  = match reply with
    | VolumeFail err =>
        (Returned (if errorsIs err windows.ERROR_NO_MORE_FILES
                   then Ok (addMount volumes v)
                   else Fail (Wrapf "FindNextVolume: " err)),
         log ++ settledCalls h [v])
    | VolumeFound guid pathNames =>
        volumesLoop h 522 guid pathNames script (addMount volumes v)
          (log ++ settledCalls h [v])
    end.
Proof.
  intros Hsettled. destruct v as [g r]. simpl in Hsettled.
  pose proof (pathNamesLoop_log g 522 r more []
                (makePathBuf (windows.MAX_PATH + 1)) log ltac:(done)
                ltac:(constructor) (settled_not_retried _ Hsettled))
    as Hinner.
  cbn [app] in Hinner.
  destruct script as [|s script], reply as [g' p'|e];
    cbn [volumesLoop fst snd]; unfold sys_bind at 1;
    change (uint32 (cap (makePathBuf (windows.MAX_PATH + 1)) * 2)) with 522;
    rewrite Hinner; cbn [lastPathBuf foldl fmap list_fmap];
    unfold settle, addMount, mountPointOf, settledCalls;
    cbn [fst snd mbind list_bind app];
    (destruct r as [t n|e' n]; simpl in Hsettled;
     [|rewrite Hsettled]); sys_simpl; cbn [text cap makePathBuf];
    rewrite <-?(assoc_L (++)); try reflexivity;
    by destruct (errorsIs e windows.ERROR_NO_MORE_FILES).
Qed.

Lemma settledCalls_cons (h : Z) (v : string * pathNamesReply)
    (found : list (string * pathNamesReply)) :
  settledCalls h (v :: found) = settledCalls h [v] ++ settledCalls h found.
Proof. reflexivity. Qed.

(** The outer loop runs through volumes settled by their first answer,
    adding their mount points in turn. *)
Lemma volumesLoop_prefix (h : Z) (found : list (string * pathNamesReply)) :
  ∀ (v : string * pathNamesReply) (more : list pathNamesReply)
    (guid : string) (pathNames : list pathNamesReply)
    (script : list volumeReply) (volumes : gmap string string)
    (log : list syscall),
    Forall (fun v => settled (snd v) = true) (v :: found) →
    volumesLoop h 522 (fst v) (snd v :: more)
      (((fun v => VolumeFound (fst v) [snd v]) <$> found)
       ++ VolumeFound guid pathNames :: script) volumes log
    = volumesLoop h 522 guid pathNames script
        (foldl addMount volumes (v :: found))
        (log ++ settledCalls h (v :: found)).
Proof.
  induction found as [|w found IH];
    intros v more guid pathNames script volumes log
      [Hv Hfound]%Forall_cons.
  - cbn [fmap list_fmap app]. by rewrite volumesLoop_settled.
  - cbn [fmap list_fmap app]. rewrite volumesLoop_settled by done.
    rewrite (IH w) by done.
    by rewrite (settledCalls_cons h v (w :: found)), (assoc_L (++)).
Qed.

Lemma volumesLoop_end (h : Z) (found : list (string * pathNamesReply)) :
  ∀ (v : string * pathNamesReply) (more : list pathNamesReply)
    (err : error) (script : list volumeReply)
    (volumes : gmap string string) (log : list syscall),
    Forall (fun v => settled (snd v) = true) (v :: found) →
    volumesLoop h 522 (fst v) (snd v :: more)
      (((fun v => VolumeFound (fst v) [snd v]) <$> found)
       ++ VolumeFail err :: script) volumes log
    = (Returned (if errorsIs err windows.ERROR_NO_MORE_FILES
                 then Ok (foldl addMount volumes (v :: found))
                 else Fail (Wrapf "FindNextVolume: " err)),
       log ++ settledCalls h (v :: found)).
Proof.
  induction found as [|w found IH];
    intros v more err script volumes log [Hv Hfound]%Forall_cons.
  - cbn [fmap list_fmap app]. by rewrite volumesLoop_settled.
  - cbn [fmap list_fmap app]. rewrite volumesLoop_settled by done.
    rewrite (IH w) by done.
    by rewrite (settledCalls_cons h v (w :: found)), (assoc_L (++)).
Qed.


Lemma countCalls_app (kind : syscall → bool) (l k : list syscall) :
  countCalls kind (l ++ k) = (countCalls kind l + countCalls kind k)%nat.
Proof. unfold countCalls. by rewrite List.filter_app, length_app. Qed.




Lemma addMount_unmounted (volumes : gmap string string)
    (v : string * pathNamesReply) :
  mountPointOf (snd v) = EmptyString → addMount volumes v = volumes.
Proof. unfold addMount. by intros ->. Qed.

(** X9. A volume that is not mounted leaves no trace: when the answer for
    one of the volumes is "not found" (or an empty list of mount points),
    the enumeration goes on without an error and returns the same map as
    if the OS had not reported that volume. *)
Theorem getAllMountedVolumes_unmounted (h : Z)
    (before after : list (string * pathNamesReply))
    (v : string * pathNamesReply) (last : error) :
  Forall (fun v => settled (snd v) = true) (before ++ v :: after) →
  mountPointOf (snd v) = EmptyString →
  errorsIs last windows.ERROR_NO_MORE_FILES = true →
  ∃ log,
    getAllMountedVolumes (enumerationOf h (before ++ v :: after) last) []
    = (Returned (Ok (foldl addMount ∅ (before ++ after))), log).
Proof.
  intros Hsettled Hunmounted Hlast.
  assert (foldl addMount ∅ (before ++ v :: after)
          = foldl addMount ∅ (before ++ after)) as <-.
  { rewrite !foldl_app. cbn [foldl]. by rewrite addMount_unmounted. }
  destruct (before ++ v :: after) as [|w found] eqn:Hfound;
    [by destruct before|].
  eexists. unfold getAllMountedVolumes, enumerationOf.
  cbn [replies hFindVolume fmap list_fmap app]. sys_simpl.
  change (uint32 ((windows.MAX_PATH + 1) * 2)) with 522.
  rewrite (volumesLoop_end h found w [] last []) by done.
  by rewrite Hlast.
Qed.

Lemma getAllMountedVolumes_unmounted_witness :
  ∃ log,
    getAllMountedVolumes
      (enumerationOf 3
         ([("\\?\Volume{a}\", PathNamesOk "C:\" 4)]
          ++ ("\\?\Volume{b}\",
              PathNamesFail (Errno windows.ERROR_FILE_NOT_FOUND "not found") 0)
             :: [("\\?\Volume{c}\", PathNamesOk "D:\" 4)])
         (Errno windows.ERROR_NO_MORE_FILES "no more files")) []
    = (Returned
         (Ok (foldl addMount ∅
                ([("\\?\Volume{a}\", PathNamesOk "C:\" 4)]
                 ++ [("\\?\Volume{c}\", PathNamesOk "D:\" 4)]))), log).
Proof.
  apply (getAllMountedVolumes_unmounted 3
           [("\\?\Volume{a}\", PathNamesOk "C:\" 4)]
           [("\\?\Volume{c}\", PathNamesOk "D:\" 4)]
           ("\\?\Volume{b}\",
            PathNamesFail (Errno windows.ERROR_FILE_NOT_FOUND "not found") 0)
           (Errno windows.ERROR_NO_MORE_FILES "no more files")).
  - repeat constructor.
  - reflexivity.
  - reflexivity.
Defined.

(** ** [getAllMountedVolumes]: errors and the find handle *)

(** The inner loop only adds mount-point queries to the log. *)
Lemma pathNamesLoop_calls (guid : string) (len : Z)
    (script : list pathNamesReply) :
  ∀ (rootPathBuf : pathBuf) (log : list syscall),
    ∃ added,
      snd (pathNamesLoop guid len script rootPathBuf log) = log ++ added
      ∧ countCalls isFindVolumeClose added = 0%nat.
Proof.
  induction script as [|reply script IH]; intros rootPathBuf log;
    cbn [pathNamesLoop].
  - exists []. rewrite app_nil_r.
    by destruct (cap rootPathBuf =? 0).
  - destruct (cap rootPathBuf =? 0); [exists []; by rewrite app_nil_r|].
    sys_simpl.
    destruct reply as [t n|e n]; [by eexists [_]|].
    destruct (errorsIs e windows.ERROR_FILE_NOT_FOUND); [by eexists [_]|].
    destruct (errorsIs e windows.ERROR_NO_MORE_FILES); [|by eexists [_]].
    destruct (IH (makePathBuf (uint32 (uint32 n + 1) / 2))
                 (log ++ [GetVolumePathNamesForVolumeName guid
                            (cap rootPathBuf) len]))
      as (added & -> & Hadded).
    eexists (_ :: added). by rewrite <-(assoc_L (++)).
Qed.

(** The outer loop never closes the find handle itself. *)
Lemma volumesLoop_calls (h len : Z) (script : list volumeReply) :
  ∀ (guid : string) (pathNames : list pathNamesReply)
    (volumes : gmap string string) (log : list syscall),
    ∃ added,
      snd (volumesLoop h len guid pathNames script volumes log) = log ++ added
      ∧ countCalls isFindVolumeClose added = 0%nat.
Proof.
  induction script as [|reply script IH];
    intros guid pathNames volumes log; cbn [volumesLoop];
    unfold sys_bind at 1;
    destruct (pathNamesLoop_calls guid
                (uint32 (cap (makePathBuf (windows.MAX_PATH + 1)) * 2))
                pathNames (makePathBuf (windows.MAX_PATH + 1)) log)
      as (inner & Hinner & Hcount);
    destruct (pathNamesLoop _ _ _ _ _) as [[[buf|e]| |] l];
    simpl in Hinner; subst l; try (by exists inner).
  - sys_simpl.
    destruct reply as [g' p'|e]; sys_simpl.
    + destruct (IH g' p'
                  (if (String.length (text buf) =? 0)%nat then volumes
                   else <[strings.TrimSuffix (text buf) "\" :=
                            strings.TrimSuffix guid "\"]> volumes)
                  ((log ++ inner) ++ [FindNextVolume h len]))
        as (added & -> & Hadded).
      exists (inner ++ FindNextVolume h len :: added).
      split; [by rewrite <-!(assoc_L (++))|].
      rewrite countCalls_app, Hcount. exact Hadded.
    + exists (inner ++ [FindNextVolume h len]).
      split; [|by rewrite countCalls_app, Hcount].
      destruct (errorsIs e windows.ERROR_NO_MORE_FILES);
        by rewrite <-!(assoc_L (++)).
Qed.

(** X10. The find handle.  [getAllMountedVolumes] closes the handle it got
    from [FindFirstVolume] exactly once, with the last call of the run, on
    every path: success, error, panic.  When [FindFirstVolume] fails there
    is no handle and nothing is closed; every such failure, "no more files"
    included, is returned as an error. *)
Theorem getAllMountedVolumes_handle (os : volumeScript) :
  let run := getAllMountedVolumes os [] in
  match replies os with
  | VolumeFound _ _ :: _ =>
      last (snd run) = Some (FindVolumeClose (hFindVolume os))
      ∧ countCalls isFindVolumeClose (snd run) = 1%nat
  | VolumeFail err :: _ =>
      run = (Returned (Fail (Wrapf "FindFirstVolume: " err)),
             [FindFirstVolume 522])
  | [] => run = (Exhausted, [])
  end.
Proof.
  unfold getAllMountedVolumes.
  destruct (replies os) as [|[guid pathNames|e] script]; [done| |done].
  sys_simpl.
  destruct (volumesLoop_calls (hFindVolume os)
              (uint32 ((windows.MAX_PATH + 1) * 2)) script guid pathNames ∅
              ([] ++ [FindFirstVolume (uint32 ((windows.MAX_PATH + 1) * 2))]))
    as (added & Hlog & Hcount).
  destruct (volumesLoop _ _ _ _ _ _ _) as [o l]. simpl in Hlog. subst l.
  cbn [snd]. split; [by rewrite last_snoc|].
  rewrite countCalls_app.
  change (countCalls isFindVolumeClose (FindFirstVolume _ :: added))
    with (countCalls isFindVolumeClose added).
  by rewrite Hcount.
Qed.

(** The script of an OS that reports the volumes [found], each settled by
    its first answer, and then answers with [rest]. *)
Lemma getAllMountedVolumes_prefix (h : Z)
    (found : list (string * pathNamesReply)) (guid : string)
    (pathNames : list pathNamesReply) (rest : list volumeReply) :
  Forall (fun v => settled (snd v) = true) found →
  getAllMountedVolumes
    {| hFindVolume := h;
       replies := ((fun v => VolumeFound (fst v) [snd v]) <$> found)
                  ++ VolumeFound guid pathNames :: rest |} []
  = sys_defer (FindVolumeClose h)
      (volumesLoop h 522 guid pathNames rest (foldl addMount ∅ found))
      (FindFirstVolume 522 :: settledCalls h found).
Proof.
  intros Hsettled. unfold getAllMountedVolumes.
  cbn [replies hFindVolume].
  change (uint32 ((windows.MAX_PATH + 1) * 2)) with 522.
  destruct found as [|v found]; cbn [fmap list_fmap app]; sys_simpl;
    [done|].
  by rewrite (volumesLoop_prefix h found v []).
Qed.

(** X11. An error of the mount-point query stops the enumeration: when the
    answer for a volume is an error other than "not found" and "no more
    files", [getAllMountedVolumes] returns that error, wrapped, and no map,
    whatever it has gathered from the volumes before; it asks for no further
    volume and closes the find handle. *)
Theorem getAllMountedVolumes_pathNames_error (h : Z)
    (found : list (string * pathNamesReply)) (guid : string) (err : error)
    (n : Z) (more : list pathNamesReply) (rest : list volumeReply) :
  Forall (fun v => settled (snd v) = true) found →
  errorsIs err windows.ERROR_FILE_NOT_FOUND = false →
  errorsIs err windows.ERROR_NO_MORE_FILES = false →
  getAllMountedVolumes
    {| hFindVolume := h;
       replies := ((fun v => VolumeFound (fst v) [snd v]) <$> found)
                  ++ VolumeFound guid (PathNamesFail err n :: more) :: rest |}
    []
  = (Returned (Fail (Wrapf "GetVolumePathNamesForVolumeName: " err)),
     FindFirstVolume 522
     :: settledCalls h found
     ++ [GetVolumePathNamesForVolumeName guid 261 522; FindVolumeClose h]).
Proof.
  intros Hsettled Hnot Hmore.
  rewrite getAllMountedVolumes_prefix by done.
  unfold sys_defer.
  assert (∀ volumes log,
            volumesLoop h 522 guid (PathNamesFail err n :: more) rest volumes
              log
            = (Returned (Fail (Wrapf "GetVolumePathNamesForVolumeName: " err)),
               log ++ [GetVolumePathNamesForVolumeName guid 261 522]))
    as ->.
  { intros volumes log.
    destruct rest; cbn [volumesLoop pathNamesLoop]; sys_simpl;
      by rewrite Hnot, Hmore. }
  by rewrite <-(assoc_L (++)).
Qed.

Lemma getAllMountedVolumes_pathNames_error_witness :
  getAllMountedVolumes
    {| hFindVolume := 3;
       replies :=
         ((fun v => VolumeFound (fst v) [snd v])
            <$> [("\\?\Volume{a}\", PathNamesOk "C:\" 4)])
         ++ VolumeFound "\\?\Volume{b}\"
              (PathNamesFail (Errno 5 "Access is denied.") 0 :: [])
            :: [Inputs.noMoreVolumes] |} []
  = (Returned
       (Fail (Wrapf "GetVolumePathNamesForVolumeName: "
                (Errno 5 "Access is denied."))),
     FindFirstVolume 522
     :: settledCalls 3 [("\\?\Volume{a}\", PathNamesOk "C:\" 4)]
     ++ [GetVolumePathNamesForVolumeName "\\?\Volume{b}\" 261 522;
         FindVolumeClose 3]).
Proof.
  apply (getAllMountedVolumes_pathNames_error 3
           [("\\?\Volume{a}\", PathNamesOk "C:\" 4)] "\\?\Volume{b}\"
           (Errno 5 "Access is denied.") 0 [] [Inputs.noMoreVolumes]).
  - repeat constructor.
  - reflexivity.
  - reflexivity.
Defined.

(** X12. An error of [FindNextVolume] other than "no more files" is
    returned, wrapped, in place of the map gathered so far, and the find
    handle is closed. *)
Theorem getAllMountedVolumes_next_error (h : Z)
    (found : list (string * pathNamesReply)) (err : error)
    (rest : list volumeReply) :
  found ≠ [] →
  Forall (fun v => settled (snd v) = true) found →
  errorsIs err windows.ERROR_NO_MORE_FILES = false →
  getAllMountedVolumes
    {| hFindVolume := h;
       replies := ((fun v => VolumeFound (fst v) [snd v]) <$> found)
                  ++ VolumeFail err :: rest |} []
  = (Returned (Fail (Wrapf "FindNextVolume: " err)),
     FindFirstVolume 522 :: settledCalls h found ++ [FindVolumeClose h]).
Proof.
  intros Hne Hsettled Hmore. destruct found as [|v found]; [done|].
  unfold getAllMountedVolumes.
  cbn [replies hFindVolume fmap list_fmap app]. sys_simpl.
  change (uint32 ((windows.MAX_PATH + 1) * 2)) with 522.
  rewrite (volumesLoop_end h found v [] err rest) by done.
  by rewrite Hmore.
Qed.

Lemma getAllMountedVolumes_next_error_witness :
  getAllMountedVolumes
    {| hFindVolume := 3;
       replies :=
         ((fun v => VolumeFound (fst v) [snd v])
            <$> [("\\?\Volume{a}\", PathNamesOk "C:\" 4)])
         ++ VolumeFail (Errno 5 "Access is denied.") :: [] |} []
  = (Returned (Fail (Wrapf "FindNextVolume: " (Errno 5 "Access is denied."))),
     FindFirstVolume 522
     :: settledCalls 3 [("\\?\Volume{a}\", PathNamesOk "C:\" 4)]
     ++ [FindVolumeClose 3]).
Proof.
  apply (getAllMountedVolumes_next_error 3
           [("\\?\Volume{a}\", PathNamesOk "C:\" 4)]
           (Errno 5 "Access is denied.") []).
  - discriminate.
  - repeat constructor.
  - reflexivity.
Defined.

(** X13. The retry path can panic.  When the mount-point query fails with
    [ERROR_NO_MORE_FILES], the error on which the loop allocates a new
    buffer, and [rootPathLen] then holds a length [L] for which
    [(L + 1) / 2] is zero in 32-bit arithmetic ([L = 0], its initial
    value, or [L = 4294967295]), the new buffer is empty and taking the
    address of its first element for the next call panics; the find handle
    is still closed. *)
Theorem getAllMountedVolumes_empty_buffer (h : Z)
    (found : list (string * pathNamesReply)) (guid : string) (err : error)
    (n : Z) (more : list pathNamesReply) (rest : list volumeReply) :
  Forall (fun v => settled (snd v) = true) found →
  retried (PathNamesFail err n) = true →
  resized n = 0 →
  getAllMountedVolumes
    {| hFindVolume := h;
       replies := ((fun v => VolumeFound (fst v) [snd v]) <$> found)
                  ++ VolumeFound guid (PathNamesFail err n :: more) :: rest |}
    []
  = (Panicked,
     FindFirstVolume 522
     :: settledCalls h found
     ++ [GetVolumePathNamesForVolumeName guid 261 522; FindVolumeClose h]).
Proof.
  intros Hsettled Hunder Hzero.
  apply retried_true in Hunder as (e' & n' & [= <- <-] & Hnot & Hmore).
  rewrite getAllMountedVolumes_prefix by done.
  unfold sys_defer.
  assert (∀ volumes log,
            volumesLoop h 522 guid (PathNamesFail err n :: more) rest volumes
              log
            = (Panicked,
               log ++ [GetVolumePathNamesForVolumeName guid 261 522])) as ->.
  { intros volumes log. unfold resized in Hzero.
    destruct rest, more; cbn [volumesLoop pathNamesLoop]; sys_simpl;
      rewrite Hnot, Hmore; cbn [cap makePathBuf]; by rewrite Hzero. }
  by rewrite <-(assoc_L (++)).
Qed.

Lemma getAllMountedVolumes_empty_buffer_witness :
  getAllMountedVolumes
    {| hFindVolume := 3;
       replies :=
         ((fun v => VolumeFound (fst v) [snd v]) <$> [])
         ++ VolumeFound "\\?\Volume{a}\"
              (PathNamesFail
                 (Errno windows.ERROR_NO_MORE_FILES "no more files")
                 0 :: [PathNamesOk "C:\" 4])
            :: [Inputs.noMoreVolumes] |} []
  = (Panicked,
     FindFirstVolume 522
     :: settledCalls 3 []
     ++ [GetVolumePathNamesForVolumeName "\\?\Volume{a}\" 261 522;
         FindVolumeClose 3]).
Proof.
  apply (getAllMountedVolumes_empty_buffer 3 [] "\\?\Volume{a}\"
           (Errno windows.ERROR_NO_MORE_FILES "no more files") 0
           [PathNamesOk "C:\" 4] [Inputs.noMoreVolumes]).
  - constructor.
  - reflexivity.
  - reflexivity.
Defined.

(** ** From the enumeration to the resolution *)










(** ** The BitLocker worker: resources and order *)

(** X15. The shell item and the variant.  In the query made for a request,
    a shell item that was created is released exactly once, by the last
    call, whether the property could be read or not; the variant is
    cleared, once and before the release, only when the property was read.
    When the item cannot be created nothing is released or cleared. *)
Theorem bitlockerQuery_resources (sh : Shell) (path : string) :
  let log := snd (bitlockerQuery sh path []) in
  match sh_SHCreateItemFromParsingName sh path with
  | Ok item =>
      last log = Some (Release item)
      ∧ countCalls isRelease log = 1%nat
      ∧ match sh_GetProperty sh item with
        | Ok v =>
            log = [SHCreateItemFromParsingName path; GetProperty item;
                   VariantClear (Val v); Release item]
        | Fail _ =>
            log = [SHCreateItemFromParsingName path; GetProperty item;
                   Release item]
        end
  | Fail _ => log = [SHCreateItemFromParsingName path]
  end.
Proof.
  unfold bitlockerQuery. sys_simpl.
  destruct (sh_SHCreateItemFromParsingName sh path) as [item|e]; [|done].
  by destruct (sh_GetProperty sh item) as [v|e].
Qed.

(** A request is answered whatever was logged before, and only adds to the
    log. *)
Lemma workerBitlocker_request_log (sh : Shell) (path : string)
    (log : list syscall) :
  workerBitlocker_request sh path log
  = (Returned (responseTo sh path),
     log ++ snd (workerBitlocker_request sh path [])).
Proof.
  unfold responseTo, workerBitlocker_request, bitlockerQuery. sys_simpl.
  destruct (negb _); [by rewrite app_nil_r|].
  destruct (sh_SHCreateItemFromParsingName sh path) as [item|e]; [|done].
  destruct (sh_GetProperty sh item) as [v|e]; cbn [fst snd];
    by rewrite <-!(assoc_L (++)).
Qed.

(** ** The BitLocker worker: initialisation *)

(** X17. [CoInitializeEx].  The worker gives up exactly when
    [CoInitializeEx] returns an OLE error whose code is neither [S_OK] nor
    [1] (already initialised): then the receiver of [initErrCh] gets
    "CoInitializeEx: ..." wrapping that error, no request is served, the
    property key is not looked up, [CoUninitialize] is not called, and the
    thread is unlocked.  With any other answer the property key is looked
    up. *)
Theorem workerBitlocker_CoInitializeEx (com : COM) (sh : Shell)
    (events : list selected) :
  let coinit :=
    Z.lor ole.COINIT_APARTMENTTHREADED ole.COINIT_DISABLE_OLE1DDE in
  let run := workerBitlocker com sh events in
  match com_CoInitializeEx com 0 coinit with
  | Some {| oleCode := Some code; comErr := cause |} =>
      if decide (code = 0 ∨ code = 1) then
        PSGetPropertyKeyFromName "System.Volume.BitLockerProtection"
          ∈ workerCalls run
      else
        run = {| initErr := Some (Wrapf "CoInitializeEx: " cause);
                 sent := [];
                 workerCalls := [LockOSThread; CoInitializeEx 0 coinit;
                                 UnlockOSThread] |}
  | _ =>
      PSGetPropertyKeyFromName "System.Volume.BitLockerProtection"
        ∈ workerCalls run
  end.
Proof.
  intros coinit run. subst run. unfold workerBitlocker. fold coinit.
  assert (∀ l k, PSGetPropertyKeyFromName "System.Volume.BitLockerProtection"
                 ∈ [LockOSThread; CoInitializeEx 0 coinit]
                   ++ PSGetPropertyKeyFromName
                        "System.Volume.BitLockerProtection" :: l ++ k)
    as Hin by (intros; set_unfold; tauto).
  assert (PSGetPropertyKeyFromName "System.Volume.BitLockerProtection"
          ∈ workerCalls
              match com_PSGetPropertyKeyFromName com
                      "System.Volume.BitLockerProtection" with
              | Some e =>
                  {| initErr :=
                       Some (Wrapf "PSGetPropertyKeyFromName failed: " e);
                     sent := [];
                     workerCalls :=
                       [LockOSThread; CoInitializeEx 0 coinit]
                       ++ [PSGetPropertyKeyFromName
                             "System.Volume.BitLockerProtection";
                           CoUninitialize; UnlockOSThread] |}
              | None =>
                  {| initErr := None;
                     sent := match fst (workerBitlocker_loop sh events [])
                             with Returned rs => rs | _ => [] end;
                     workerCalls :=
                       [LockOSThread; CoInitializeEx 0 coinit]
                       ++ [PSGetPropertyKeyFromName
                             "System.Volume.BitLockerProtection"]
                       ++ (ShellCall <$> snd (workerBitlocker_loop sh events []))
                       ++ (if stopped events
                           then [CoUninitialize; UnlockOSThread] else []) |}
              end) as Hlookup.
  { destruct (com_PSGetPropertyKeyFromName com _); cbn [workerCalls].
    - apply (Hin [CoUninitialize] [UnlockOSThread]).
    - apply Hin. }
  destruct (com_CoInitializeEx com 0 coinit) as [[[code|] cause]|];
    [|exact Hlookup..].
  unfold refuses. cbn [oleCode comErr].
  destruct (decide (code = 0 ∨ code = 1)) as [[-> | ->]|Hcode];
    [exact Hlookup..|].
  rewrite (proj2 (Z.eqb_neq code ole.S_OK)) by (unfold ole.S_OK; lia).
  rewrite (proj2 (Z.eqb_neq code 1)) by lia. reflexivity.
Qed.

(** ** The BitLocker worker under faults *)

(** A request is run whatever was logged before, and only adds to the
    log. *)
Lemma guarded_request_log (sh : Shell) (panics : syscall -> bool)
    (path : string) (log : list syscall) :
  guarded.workerBitlocker_request sh panics path log
  = (fst (guarded.workerBitlocker_request sh panics path []),
     log ++ requestCalls sh panics path).
Proof.
  unfold requestCalls, guarded.workerBitlocker_request,
    guarded.bitlockerQuery, guarded.shell_call, guarded.shell_defer.
  destruct (negb _); [sys_simpl; by rewrite app_nil_r|].
  destruct (panics (SHCreateItemFromParsingName path)); [done|]. sys_simpl.
  destruct (sh_SHCreateItemFromParsingName sh path) as [item|e]; [|done].
  destruct (panics (GetProperty item)), (panics (Release item));
    try (sys_simpl; cbn [fst snd]; by rewrite <-!(assoc_L (++))).
  all: destruct (sh_GetProperty sh item) as [v|e];
    try (sys_simpl; cbn [fst snd]; by rewrite <-!(assoc_L (++))).
  all: destruct (panics (VariantClear (Val v)));
    sys_simpl; cbn [fst snd]; by rewrite <-!(assoc_L (++)).
Qed.

(** A request returns or panics. *)
Lemma guarded_request_outcome (sh : Shell) (panics : syscall -> bool)
    (path : string) :
  match responseOf sh panics path with
  | Some res =>
      guarded.workerBitlocker_request sh panics path []
      = (Returned res, requestCalls sh panics path)
  | None =>
      guarded.workerBitlocker_request sh panics path []
      = (Panicked, requestCalls sh panics path)
  end.
Proof.
  unfold responseOf, requestCalls, guarded.workerBitlocker_request,
    guarded.bitlockerQuery, guarded.shell_call, guarded.shell_defer.
  destruct (negb _); [done|].
  destruct (panics (SHCreateItemFromParsingName path)); [done|]. sys_simpl.
  destruct (sh_SHCreateItemFromParsingName sh path) as [item|e]; [|done].
  destruct (panics (GetProperty item)), (panics (Release item));
    try done.
  all: destruct (sh_GetProperty sh item) as [v|e]; try done.
  all: by destruct (panics (VariantClear (Val v))).
Qed.

(** With no panicking call the request is the one of the worker modelled
    without faults. *)
Lemma guarded_request_no_panic (sh : Shell) (path : string)
    (log : list syscall) :
  guarded.workerBitlocker_request sh (fun _ => false) path log
  = workerBitlocker_request sh path log.
Proof. reflexivity. Qed.

(** The loop over requests that all return. *)
Lemma guarded_loop_returns (com : nat -> COM) (sh : Shell)
    (panics : syscall -> bool) (n : nat) (before : list string)
    (rest : list selected) :
  Forall (fun path => is_Some (responseOf sh panics path)) before →
  guarded.workerBitlocker_loop com sh panics n
    ((received <$> before) ++ rest)
  = (omap (responseOf sh panics) before
     ++ fst (guarded.workerBitlocker_loop com sh panics n rest),
     (ShellCall <$> (before ≫= requestCalls sh panics))
     ++ snd (guarded.workerBitlocker_loop com sh panics n rest)).
Proof.
  induction 1 as [|path before [res Hres] _ IH];
    [by destruct (guarded.workerBitlocker_loop _ _ _ _ _)|].
  cbn [fmap list_fmap app guarded.workerBitlocker_loop omap list_omap].
  pose proof (guarded_request_outcome sh panics path) as Hrun.
  rewrite Hres in Hrun |- *. rewrite Hrun, IH. cbn [fst snd app].
  by rewrite bind_cons, fmap_app, <-(assoc_L (++)).
Qed.

(** The events as the requests taken up and what follows them. *)
Lemma served_stopped (events : list selected) :
  ∃ rest,
    events = (received <$> served events) ++ rest
    ∧ served rest = []
    ∧ stopped rest = stopped events.
Proof.
  induction events as [|[|path|] events (rest & Hevents & Hserved & Hstop)];
    [by exists []|by eexists (ctxDone :: _)| |by eexists (closed :: _)].
  exists rest. cbn [served stopped fmap list_fmap app].
  by rewrite <-Hevents.
Qed.

Lemma guarded_loop_idle (com : nat -> COM) (sh : Shell)
    (panics : syscall -> bool) (n : nat) (rest : list selected) :
  served rest = [] →
  guarded.workerBitlocker_loop com sh panics n rest
  = ([], if stopped rest then [CoUninitialize; UnlockOSThread] else []).
Proof. by destruct rest as [|[|path|] rest]. Qed.

(** The loop when no query panics. *)
Lemma guarded_loop_no_panic (com : nat -> COM) (sh : Shell)
    (panics : syscall -> bool) (n : nat) (events : list selected) :
  Forall (fun path => is_Some (responseOf sh panics path)) (served events) →
  guarded.workerBitlocker_loop com sh panics n events
  = (omap (responseOf sh panics) (served events),
     (ShellCall <$> (served events ≫= requestCalls sh panics))
     ++ (if stopped events then [CoUninitialize; UnlockOSThread] else [])).
Proof.
  intros Hreturn.
  destruct (served_stopped events) as (rest & Hevents & Hserved & Hstop).
  rewrite Hevents at 1.
  rewrite guarded_loop_returns, guarded_loop_idle by done.
  simpl. by rewrite app_nil_r, Hstop.
Qed.

(** The worker modelled without faults is the worker under faults when no
    call panics: the same responses and the same calls. *)
Lemma workerBitlocker_loop_log (sh : Shell) (events : list selected)
    (log : list syscall) :
  workerBitlocker_loop sh events log
  = (Returned (responseTo sh <$> served events),
     log ++ (served events ≫= requestCalls sh (fun _ => false))).
Proof.
  revert log. induction events as [|[|path|] events IH]; intros log;
    try (cbn [workerBitlocker_loop served]; sys_simpl;
         by rewrite app_nil_r).
  cbn [workerBitlocker_loop served fmap list_fmap]. unfold sys_bind at 1.
  rewrite workerBitlocker_request_log. unfold sys_bind. rewrite IH.
  unfold sys_ret. by rewrite bind_cons, (assoc_L (++)).
Qed.

Lemma responseOf_no_panic (sh : Shell) (path : string) :
  responseOf sh (fun _ => false) path = Some (responseTo sh path).
Proof.
  unfold responseOf. rewrite guarded_request_no_panic.
  by rewrite workerBitlocker_request_log.
Qed.

Lemma guarded_workerBitlocker_no_panic (com : COM) (sh : Shell)
    (events : list selected) :
  guarded.workerBitlocker (fun _ => com) sh (fun _ => false) events
  = workerBitlocker com sh events.
Proof.
  assert (guarded.workerBitlocker_loop (fun _ => com) sh (fun _ => false) 0
            events
          = (responseTo sh <$> served events,
             (ShellCall <$> snd (workerBitlocker_loop sh events []))
             ++ (if stopped events then [CoUninitialize; UnlockOSThread]
                 else []))) as Hloop.
  { rewrite guarded_loop_no_panic, workerBitlocker_loop_log.
    - cbn [snd app]. f_equal.
      induction (served events) as [|path paths IH]; [done|].
      cbn [omap list_omap fmap list_fmap].
      by rewrite responseOf_no_panic, IH.
    - apply Forall_forall. intros path _. rewrite responseOf_no_panic.
      by eexists. }
  unfold guarded.workerBitlocker, guarded.workerBitlocker_start,
    workerBitlocker.
  rewrite workerBitlocker_loop_log in *. cbn [fst snd] in *.
  destruct (com_CoInitializeEx com 0 _) as [e|];
    [destruct (refuses e); [done|]|];
    (destruct (com_PSGetPropertyKeyFromName com _); [done|]);
    cbn [fst snd]; rewrite Hloop; cbn [fst snd app];
    by rewrite <-?(assoc_L (++)).
Qed.

(** X16. Responses, in order.  The responses the worker and its
    replacements send are, in the order of the requests, responses to
    requests received before the first cancellation or closed channel, at
    most one for each; a request during which a shell call panics gets
    none.  When every restart succeeds, every such request whose query
    returns gets its response, those that follow a panic included; when no
    query panics, there is exactly one response for each request. *)
Theorem workerBitlocker_loop_responses (com : nat -> COM) (sh : Shell)
    (panics : syscall -> bool) (n : nat) (events : list selected) :
  let sent := fst (guarded.workerBitlocker_loop com sh panics n events) in
  sent `prefix_of` omap (responseOf sh panics) (served events)
  ∧ ((∀ m, (n < m)%nat → fst (guarded.workerBitlocker_start com m) = None) →
     sent = omap (responseOf sh panics) (served events))
  ∧ (Forall (fun path => is_Some (responseOf sh panics path)) (served events) →
     sent = omap (responseOf sh panics) (served events)
     ∧ length sent = length (served events)).
Proof.
  cbv zeta. split_and!.
  - revert n. induction events as [|[|path|] events IH]; intros n;
      [done..| |done].
    cbn [guarded.workerBitlocker_loop served omap list_omap].
    pose proof (guarded_request_outcome sh panics path) as Hrun.
    destruct (responseOf sh panics path) as [res|]; rewrite Hrun.
    + cbn [fst]. apply prefix_cons, IH.
    + destruct (fst (guarded.workerBitlocker_start com (S n)));
        [apply prefix_nil|apply IH].
  - revert n. induction events as [|[|path|] events IH]; intros n Hrestarts;
      [done..| |done].
    cbn [guarded.workerBitlocker_loop served omap list_omap].
    pose proof (guarded_request_outcome sh panics path) as Hrun.
    destruct (responseOf sh panics path) as [res|]; rewrite Hrun.
    + cbn [fst]. f_equal. by apply IH.
    + rewrite (Hrestarts (S n)) by lia. cbn [fst].
      apply IH. intros m Hm. apply Hrestarts. lia.
  - intros Hreturn.
    assert (fst (guarded.workerBitlocker_loop com sh panics n events)
            = omap (responseOf sh panics) (served events)) as ->.
    { by rewrite guarded_loop_no_panic. }
    split; [done|].
    induction Hreturn as [|path paths [res Hres] _ IH]; [done|].
    cbn [omap list_omap]. rewrite Hres. cbn [length]. by rewrite IH.
Qed.

Lemma workerBitlocker_loop_responses_witness :
  fst (guarded.workerBitlocker_loop WorkerInputs.com WorkerInputs.shell
         WorkerInputs.panics 0
         [received "C:"; received "D:"; received "HarddiskVolume2";
          received "E:"; ctxDone; received "F:"])
  = [{| err := None; status := 1 |}; {| err := None; status := -1 |};
     {| err := None; status := 1 |}]
  ∧ fst (guarded.workerBitlocker_loop WorkerInputs.com WorkerInputs.shell
           WorkerInputs.panics 0
           [received "C:"; received "E:"; closed])
    = [{| err := None; status := 1 |}; {| err := None; status := 1 |}].
Proof.
  split.
  - destruct (workerBitlocker_loop_responses WorkerInputs.com
                WorkerInputs.shell WorkerInputs.panics 0
                [received "C:"; received "D:"; received "HarddiskVolume2";
                 received "E:"; ctxDone; received "F:"])
      as (_ & Hrestarts & _).
    rewrite Hrestarts; [reflexivity|]. intros m _. reflexivity.
  - destruct (workerBitlocker_loop_responses WorkerInputs.com
                WorkerInputs.shell WorkerInputs.panics 0
                [received "C:"; received "E:"; closed])
      as (_ & _ & Hreturn).
    destruct Hreturn as [Hsent _]; [|rewrite Hsent; reflexivity].
    repeat constructor; by eexists.
Defined.

(** X18. After [CoInitializeEx] is accepted.  If the property key cannot
    be resolved, the receiver of [initErrCh] gets "PSGetPropertyKeyFromName
    failed: ..." wrapping the cause, no request is served, and COM is
    uninitialised before the thread is unlocked.  If it can, the receiver
    gets nil.  Then, when no query panics, the responses are those to the
    requests received, in order, the shell calls follow the key lookup, and
    [CoUninitialize] and [UnlockOSThread] run, in this order, exactly when
    the loop returns.  When a query panics for the first time, no response
    is sent for its request, [CoUninitialize] and [UnlockOSThread] run
    after the shell calls made so far, and a new worker starts; it serves
    the requests that follow unless its start-up fails. *)
Theorem workerBitlocker_initialized (com : nat -> COM) (sh : Shell)
    (panics : syscall -> bool) (events : list selected) :
  let coinit :=
    Z.lor ole.COINIT_APARTMENTTHREADED ole.COINIT_DISABLE_OLE1DDE in
  let name := "System.Volume.BitLockerProtection" in
  let started :=
    [LockOSThread; CoInitializeEx 0 coinit; PSGetPropertyKeyFromName name] in
  let run := guarded.workerBitlocker com sh panics events in
  match com_CoInitializeEx (com 0%nat) 0 coinit with
  | Some e => refuses e = false
  | None => True
  end →
  match com_PSGetPropertyKeyFromName (com 0%nat) name with
  | Some cause =>
      run = {| initErr :=
                 Some (Wrapf "PSGetPropertyKeyFromName failed: " cause);
               sent := [];
               workerCalls :=
                 [LockOSThread; CoInitializeEx 0 coinit;
                  PSGetPropertyKeyFromName name; CoUninitialize;
                  UnlockOSThread] |}
  | None =>
      initErr run = None
      ∧ (Forall (fun path => is_Some (responseOf sh panics path))
           (served events) →
         sent run = omap (responseOf sh panics) (served events)
         ∧ workerCalls run
           = started
             ++ (ShellCall <$> (served events ≫= requestCalls sh panics))
             ++ (if stopped events then [CoUninitialize; UnlockOSThread]
                 else []))
      ∧ (∀ before path after,
           events = (received <$> before) ++ received path :: after →
           Forall (fun p => is_Some (responseOf sh panics p)) before →
           responseOf sh panics path = None →
           let restart := guarded.workerBitlocker_start com 1 in
           let next := guarded.workerBitlocker_loop com sh panics 1 after in
           sent run
           = omap (responseOf sh panics) before
             ++ match fst restart with
                | Some _ => []
                | None => fst next
                end
           ∧ workerCalls run
             = started
               ++ (ShellCall <$> ((before ++ [path]) ≫= requestCalls sh panics))
               ++ [CoUninitialize; UnlockOSThread]
               ++ snd restart
               ++ match fst restart with
                  | Some _ => []
                  | None => snd next
                  end)
  end.
Proof.
  intros coinit name started run Haccepted. subst run.
  unfold guarded.workerBitlocker.
  assert (guarded.workerBitlocker_start com 0
          = match com_PSGetPropertyKeyFromName (com 0%nat) name with
            | Some e =>
                (Some (Wrapf "PSGetPropertyKeyFromName failed: " e),
                 [LockOSThread; CoInitializeEx 0 coinit;
                  PSGetPropertyKeyFromName name; CoUninitialize;
                  UnlockOSThread])
            | None => (None, started)
            end) as ->.
  { unfold guarded.workerBitlocker_start. fold coinit. fold name.
    destruct (com_CoInitializeEx (com 0%nat) 0 coinit) as [e|];
      [by rewrite Haccepted|done]. }
  destruct (com_PSGetPropertyKeyFromName (com 0%nat) name) as [cause|];
    [done|].
  cbn [fst snd initErr sent workerCalls]. split_and!; [done| |].
  - intros Hreturn. by rewrite guarded_loop_no_panic.
  - intros before path after -> Hreturn Hpanic. cbv zeta.
    rewrite guarded_loop_returns by done.
    cbn [guarded.workerBitlocker_loop].
    pose proof (guarded_request_outcome sh panics path) as Hrun.
    rewrite Hpanic in Hrun. rewrite Hrun.
    rewrite bind_app, fmap_app.
    change ([path] ≫= requestCalls sh panics)
      with (requestCalls sh panics path ++ []).
    rewrite app_nil_r.
    destruct (guarded.workerBitlocker_start com 1) as [[e|] calls];
      cbn [fst snd]; by rewrite ?app_nil_r, <-?(assoc_L (++)).
Qed.

Lemma workerBitlocker_initialized_witness :
  sent (guarded.workerBitlocker WorkerInputs.comOnce WorkerInputs.shell
          WorkerInputs.panics
          [received "C:"; received "D:"; received "E:"; ctxDone])
  = [{| err := None; status := 1 |}]
  ∧ workerCalls
      (guarded.workerBitlocker WorkerInputs.comOnce WorkerInputs.shell
         WorkerInputs.panics
         [received "C:"; received "D:"; received "E:"; ctxDone])
    = [LockOSThread; CoInitializeEx 0 6;
       PSGetPropertyKeyFromName "System.Volume.BitLockerProtection";
       ShellCall (SHCreateItemFromParsingName "C:");
       ShellCall (GetProperty 1); ShellCall (VariantClear 1);
       ShellCall (Release 1);
       ShellCall (SHCreateItemFromParsingName "D:");
       ShellCall (GetProperty 2); ShellCall (Release 2);
       CoUninitialize; UnlockOSThread;
       LockOSThread; CoInitializeEx 0 6;
       PSGetPropertyKeyFromName "System.Volume.BitLockerProtection";
       CoUninitialize; UnlockOSThread].
Proof.
  pose proof (workerBitlocker_initialized WorkerInputs.comOnce
                WorkerInputs.shell WorkerInputs.panics
                [received "C:"; received "D:"; received "E:"; ctxDone] I)
    as (_ & _ & Hpanic).
  destruct (Hpanic ["C:"] "D:" [received "E:"; ctxDone] eq_refl)
    as [Hsent Hcalls]; [repeat constructor; by eexists|reflexivity|].
  rewrite Hsent, Hcalls. split; reflexivity.
Defined.

(** ** [Build] *)

Lemma slices_Contains_spec (s : list string) (v : string) :
  slices_Contains s v = true ↔ v ∈ s.
Proof.
  unfold slices_Contains. rewrite existsb_exists, list_elem_of_In.
  split.
  - by intros (x & Hx & ->%String.eqb_eq).
  - intros Hv. exists v. by rewrite String.eqb_refl.
Qed.

(** X19. The sub collectors.  The check of [Build] passes exactly when
    every entry of [CollectorsEnabled] is "metrics" or "bitlocker_status"
    (an empty list passes); otherwise its error names the first entry that
    is neither and lists the two possible values. *)
Theorem Build_enabled_spec (CollectorsEnabled : list string) :
  let known c := c = "metrics" ∨ c = "bitlocker_status" in
  (Build_enabled CollectorsEnabled = None ↔ Forall known CollectorsEnabled)
  ∧ (∀ e, Build_enabled CollectorsEnabled = Some e →
       ∃ before unknown after,
         CollectorsEnabled = before ++ unknown :: after
         ∧ Forall known before ∧ ¬ known unknown
         ∧ Error e = "unknown sub collector: " +:+ unknown
                     +:+ ". Possible values: metrics, bitlocker_status").
Proof.
  intros known.
  assert (∀ c, slices_Contains [subCollectorMetrics; subCollectorBitlocker] c
               = true ↔ known c) as Hknown.
  { intros c. rewrite slices_Contains_spec. unfold known.
    unfold subCollectorMetrics, subCollectorBitlocker. set_unfold. tauto. }
  induction CollectorsEnabled as [|c rest [IHnone IHsome]].
  - split; [done|]. by intros e.
  - cbn [Build_enabled].
    destruct (slices_Contains _ c) eqn:Hc; cbn [negb].
    + apply Hknown in Hc. split.
      * rewrite IHnone, Forall_cons. tauto.
      * intros e (before & unknown & after & -> & Hbefore & Hunknown & He)%IHsome.
        exists (c :: before), unknown, after. split_and!; try done.
        by constructor.
    + assert (¬ known c) as Hnot.
      { intros Hk%Hknown. congruence. }
      split.
      * split; [done|]. by intros [? _]%Forall_cons.
      * intros e [= <-]. by exists [], c, rest.
Qed.

Lemma Build_enabled_spec_witness :
  ∃ before unknown after,
    ["metrics"; "bitlocker"; "nonsense"] = before ++ unknown :: after
    ∧ Forall (fun c => c = "metrics" ∨ c = "bitlocker_status") before
    ∧ ¬ (unknown = "metrics" ∨ unknown = "bitlocker_status")
    ∧ Error (Plainf "unknown sub collector: bitlocker. Possible values: metrics, bitlocker_status")
      = "unknown sub collector: " +:+ unknown
        +:+ ". Possible values: metrics, bitlocker_status".
Proof.
  apply (proj2 (Build_enabled_spec ["metrics"; "bitlocker"; "nonsense"])).
  reflexivity.
Defined.

Lemma Build_enabled_None (CollectorsEnabled : list string) :
  Build_enabled CollectorsEnabled = None
  ↔ Forall (fun c => c = "metrics" ∨ c = "bitlocker_status")
           CollectorsEnabled.
Proof.
  induction CollectorsEnabled as [|c rest IH]; [done|].
  cbn [Build_enabled]. rewrite Forall_cons, <-IH.
  destruct (slices_Contains _ c) eqn:Hc; cbn [negb].
  - apply slices_Contains_spec in Hc.
    unfold subCollectorMetrics, subCollectorBitlocker in Hc.
    set_unfold in Hc. tauto.
  - split; [done|]. intros [Hknown _].
    assert (slices_Contains [subCollectorMetrics; subCollectorBitlocker] c
            = true) as Hc'; [|congruence].
    apply slices_Contains_spec.
    unfold subCollectorMetrics, subCollectorBitlocker. set_unfold. tauto.
Qed.

(** X20. [Build] as a whole.  [Build] returns a nil error exactly when every
    enabled sub collector is known, the performance-data collector could be
    created and, if "bitlocker_status" is enabled, the worker initialised.
    The worker is started exactly when the first two hold and
    "bitlocker_status" is enabled: never before the names are checked, and
    never for "metrics" alone. *)
Theorem Build_spec (CollectorsEnabled : list string)
    (newCollector : option error) (com : COM) (sh : Shell)
    (events : list selected) :
  let known c := c = "metrics" ∨ c = "bitlocker_status" in
  let result := Build CollectorsEnabled newCollector com sh events in
  (fst result = None
   ↔ Forall known CollectorsEnabled ∧ newCollector = None
     ∧ ("bitlocker_status" ∈ CollectorsEnabled →
        initErr (workerBitlocker com sh events) = None))
  ∧ (is_Some (snd result)
     ↔ Forall known CollectorsEnabled ∧ newCollector = None
       ∧ "bitlocker_status" ∈ CollectorsEnabled)
  ∧ (∀ worker, snd result = Some worker →
       worker = workerBitlocker com sh events).
Proof.
  intros known result. subst result. unfold Build.
  pose proof (Build_enabled_None CollectorsEnabled) as Hknown.
  pose proof (slices_Contains_spec CollectorsEnabled subCollectorBitlocker)
    as Hbit.
  change subCollectorBitlocker with "bitlocker_status" in Hbit at 2.
  destruct (Build_enabled CollectorsEnabled) as [e|].
  { cbn [fst snd]. split_and!; [|rewrite is_Some_alt|done].
    - split; [done|]. intros (?%Hknown & _). done.
    - split; [done|]. intros (?%Hknown & _). done. }
  assert (Forall known CollectorsEnabled) as Hall by by apply Hknown.
  destruct newCollector as [e|].
  { cbn [fst snd]. split_and!; [|rewrite is_Some_alt|done].
    - split; [done|]. by intros (_ & ? & _).
    - split; [done|]. by intros (_ & ? & _). }
  destruct (slices_Contains CollectorsEnabled subCollectorBitlocker).
  - assert ("bitlocker_status" ∈ CollectorsEnabled) as Hin by by apply Hbit.
    destruct (initErr (workerBitlocker com sh events)) as [e|] eqn:Hinit;
      cbn [fst snd]; (split_and!; [|rewrite is_Some_alt|by intros ? [= <-]]).
    + split; [done|]. intros (_ & _ & Hnone). by specialize (Hnone Hin).
    + tauto.
    + split; [|done]. intros _. split_and!; try done.
    + tauto.
  - assert (¬ "bitlocker_status" ∈ CollectorsEnabled) as Hnotin.
    { intros Hin%Hbit. done. }
    cbn [fst snd]. split_and!; [|rewrite is_Some_alt|done].
    + split; [|done]. intros _. split_and!; try done.
    + split; [done|]. tauto.
Qed.

(** ** The flag that enables sub collectors *)

Lemma Split_from_nonempty (sep : ascii) (s : string) :
  ∀ field, Split_from sep field s ≠ [].
Proof. induction s as [|c s IH]; intros field; simpl; [done|]. by destruct (Ascii.eqb c sep). Qed.

Lemma Join_cons (e : string) (rest : list string) (sep : string) :
  rest ≠ [] →
  strings.Join (e :: rest) sep = e +:+ sep +:+ strings.Join rest sep.
Proof. by destruct rest. Qed.

Lemma append_nil_r (s : string) : s +:+ EmptyString = s.
Proof. induction s as [|c s IH]; [done|]. by rewrite append_cons, IH. Qed.

(** Joining the fields with the separator gives the text back. *)
Lemma Join_Split_from (sep : ascii) (s : string) :
  ∀ field,
    strings.Join (Split_from sep field s) (String sep EmptyString)
    = field +:+ s.
Proof.
  induction s as [|c s IH]; intros field; cbn [Split_from].
  - by rewrite append_nil_r.
  - destruct (Ascii.eqb_spec c sep) as [->|Hne].
    + rewrite Join_cons by apply Split_from_nonempty.
      by rewrite IH.
    + rewrite IH, <-append_assoc. reflexivity.
Qed.

(** X21. From the flag to [Build].  The action of [NewWithFlags] splits the
    value of [--collector.logical_disk.enabled] at its commas, and the
    fields joined with commas give the value back.  A value [Build] accepts
    is therefore a comma-separated list of the two known names, with at
    least one name: the empty value gives one empty field, which [Build]
    rejects as an unknown sub collector. *)
Theorem Build_enabled_flag (collectorsEnabled : string) :
  let CollectorsEnabled := Split collectorsEnabled "," in
  strings.Join CollectorsEnabled "," = collectorsEnabled
  ∧ CollectorsEnabled ≠ []
  ∧ (Build_enabled CollectorsEnabled = None →
     Forall (fun c => c = "metrics" ∨ c = "bitlocker_status")
            CollectorsEnabled
     ∧ collectorsEnabled ≠ EmptyString).
Proof.
  intros CollectorsEnabled. subst CollectorsEnabled. unfold Split.
  split_and!.
  - apply (Join_Split_from "," collectorsEnabled EmptyString).
  - apply Split_from_nonempty.
  - intros Hnone. split; [by apply Build_enabled_None|].
    intros ->. done.
Qed.

Lemma Build_enabled_flag_witness :
  Forall (fun c => c = "metrics" ∨ c = "bitlocker_status")
         (Split "metrics,bitlocker_status" ",")
  ∧ "metrics,bitlocker_status" ≠ EmptyString.
Proof.
  apply (proj2 (proj2 (Build_enabled_flag "metrics,bitlocker_status"))).
  reflexivity.
Defined.

(** ** [Collect]: the BitLocker indicators outside the nine codes *)

(** X22. What is not a known status.  For a response with an error, or
    with status [-1], no indicator is emitted.  For any other status
    outside [0..8] (the worker passes on whatever integer the property
    holds) all nine indicators are emitted with value [0]. *)
Theorem Collect_bitlocker_other (name : string) (res : bitlockerRes) :
  (is_Some (err res) ∨ status res = -1 → Collect_bitlocker name res = [])
  ∧ (err res = None → status res < -1 ∨ 8 < status res →
     value <$> Collect_bitlocker name res = replicate 9%nat 0
     ∧ labelValues <$> Collect_bitlocker name res
       = (fun l => [name; l]) <$> bitlockerLabels).
Proof.
  unfold Collect_bitlocker. split.
  - intros [[e ->]| ->]; [done|]. by destruct (err res).
  - intros -> Hout.
    rewrite (proj2 (Z.eqb_neq _ _)) by lia.
    unfold bitlockerLabels. cbn [imap fmap list_fmap value labelValues].
    cbn [compose Nat.succ].
    rewrite !(proj2 (Z.eqb_neq _ _)) by lia. done.
Qed.

Lemma Collect_bitlocker_other_witness :
  value <$> Collect_bitlocker "C:" {| err := None; status := 9 |}
  = replicate 9%nat 0
  ∧ labelValues <$> Collect_bitlocker "C:" {| err := None; status := 9 |}
    = (fun l => ["C:"; l]) <$> bitlockerLabels.
Proof.
  apply (proj2 (Collect_bitlocker_other "C:" {| err := None; status := 9 |}));
    [reflexivity|]. right. simpl. lia.
Defined.

(** ** [Collect]: rows *)

Lemma sys_bind_ret {A} (m : Sys A) (log : list syscall) :
  sys_bind m sys_ret log = m log.
Proof. unfold sys_bind, sys_ret. by destruct (m log) as [[a| |] l]. Qed.


Section Collect_properties.

Context {float64 : Type}.
Context (config : Config) (volumes : gmap string string) (os : OS)
  (sh : Shell).

(** A row passes the filter: its name matches the include pattern and not
    the exclude pattern. *)
Let included (data : perfDataCounterValues float64) : bool :=
  negb (VolumeExclude config (Name data)) && VolumeInclude config (Name data).

(** X23. The filter.  Rows whose name matches the exclude pattern or does
    not match the include pattern leave no trace: [Collect] sends the same
    metrics and makes the same calls as for the rows that pass the filter
    alone. *)
Theorem Collect_rows_filter (rows : list (perfDataCounterValues float64))
    (log : list syscall) :
  Collect_rows config volumes os sh rows log
  = Collect_rows config volumes os sh (List.filter included rows) log.
Proof.
  revert log. induction rows as [|data rows IH]; intros log; [done|].
  cbn [List.filter]. unfold included at 1.
  destruct (VolumeExclude config (Name data)) eqn:Hex;
    [|destruct (VolumeInclude config (Name data)) eqn:Hin]; cbn [negb andb].
  - cbn [Collect_rows]. unfold Collect_row. rewrite Hex. cbn [orb].
    unfold sys_bind at 1. unfold sys_ret at 1. cbn [app].
    rewrite (sys_bind_ret (Collect_rows config volumes os sh rows)).
    apply IH.
  - cbn [Collect_rows]. unfold sys_bind at 1 3.
    destruct (Collect_row config volumes os sh data log) as [[first| |] l];
      [|done..].
    unfold sys_bind. by rewrite IH.
  - cbn [Collect_rows]. unfold Collect_row. rewrite Hex, Hin. cbn [orb negb].
    unfold sys_bind at 1. unfold sys_ret at 1. cbn [app].
    rewrite (sys_bind_ret (Collect_rows config volumes os sh rows)).
    apply IH.
Qed.

(** What a row that passes the filter sends after its "information"
    metric. *)
Let others (data : perfDataCounterValues float64) : list (sample float64) :=
  (if slices_Contains (CollectorsEnabled config) subCollectorMetrics
   then Collect_metrics data else [])
  ++ (if slices_Contains (CollectorsEnabled config) subCollectorBitlocker
      then (fun m => {| desc := bitlockerStatus; kind := GaugeValue;
                        sampleOf := literal (value m);
                        sampleLabels := labelValues m |})
             <$> Collect_bitlocker (Name data) (responseTo sh (Name data))
      else []).

Lemma Collect_row_included (data : perfDataCounterValues float64)
    (log : list syscall) :
  included data = true →
  Collect_row config volumes os sh data log
  = match getVolumeInfo os volumes (Name data) log with
    | (Returned resolved, log') =>
        (Returned (Collect_information (Name data) (fst resolved)
                   :: others data),
         if slices_Contains (CollectorsEnabled config) subCollectorBitlocker
         then log' ++ snd (workerBitlocker_request sh (Name data) [])
         else log')
    | (Panicked, log') => (Panicked, log')
    | (Exhausted, log') => (Exhausted, log')
    end.
Proof.
  unfold included. intros [Hex Hin]%andb_true_iff.
  apply negb_true_iff in Hex.
  unfold Collect_row, others. rewrite Hex, Hin. cbn [orb negb].
  unfold sys_bind at 1.
  destruct (getVolumeInfo os volumes (Name data) log) as [[resolved| |] l];
    [|done..].
  destruct (slices_Contains (CollectorsEnabled config) subCollectorBitlocker).
  - unfold sys_bind. rewrite workerBitlocker_request_log. unfold sys_ret.
    by destruct (slices_Contains _ subCollectorMetrics).
  - unfold sys_ret. by rewrite app_nil_r.
Qed.


(** X25. The metrics of a row.  A row that passes the filter sends one
    "information" metric, then 16 metrics when "metrics" is enabled, then
    the indicators when "bitlocker_status" is enabled: 9 of them, or none
    when the response has an error or the status [-1].  Every metric of the
    row carries the volume name among its labels, and none uses the
    read-only descriptor: the [readonly] field of the resolved volume never
    reaches a metric. *)
Theorem Collect_row_samples (data : perfDataCounterValues float64)
    (log log' : list syscall) (samples : list (sample float64)) :
  included data = true →
  Collect_row config volumes os sh data log = (Returned samples, log') →
  let metrics :=
    slices_Contains (CollectorsEnabled config) subCollectorMetrics in
  let bitlocker :=
    slices_Contains (CollectorsEnabled config) subCollectorBitlocker in
  let res := responseTo sh (Name data) in
  length samples
  = (1 + (if metrics then 16 else 0)
     + (if bitlocker
        then if bool_decide (err res = None ∧ (status res ≠ -1)%Z)
             then 9 else 0
        else 0))%nat
  ∧ Forall (fun s => Name data ∈ sampleLabels s) samples
  ∧ Forall (fun s => desc s ≠ readOnly) samples.
Proof.
  intros Hincluded. rewrite Collect_row_included by done.
  destruct (getVolumeInfo os volumes (Name data) log) as [[resolved| |] l];
    [|done..].
  intros [= <- _] metrics bitlocker res. unfold others.
  fold metrics. fold bitlocker. fold res.
  assert (∀ ms : list metric,
            ms = Collect_bitlocker (Name data) res →
            length ms = (if bool_decide (err res = None ∧ (status res ≠ -1)%Z)
                         then 9 else 0)%nat
            ∧ Forall (fun m => Name data ∈ labelValues m) ms) as Hind.
  { intros ms ->. unfold Collect_bitlocker.
    destruct (err res) as [e|].
    { rewrite bool_decide_eq_false_2 by (by intros [? _]). done. }
    destruct (Z.eqb_spec (status res) (-1)) as [Heq|Hne].
    { rewrite bool_decide_eq_false_2 by tauto. done. }
    rewrite bool_decide_eq_true_2 by done.
    split; [done|]. unfold bitlockerLabels. cbn [imap].
    repeat constructor; set_unfold; tauto. }
  destruct (Hind _ eq_refl) as [Hlen Hnames].
  split_and!.
  - cbn [length]. rewrite length_app.
    destruct metrics, bitlocker;
      rewrite ?length_fmap, ?Hlen; unfold Collect_metrics; cbn [length]; lia.
  - constructor; [cbn [sampleLabels Collect_information]; set_unfold; tauto|].
    apply Forall_app. split.
    + destruct metrics; [|constructor]. unfold Collect_metrics.
      repeat constructor; cbn [sampleLabels]; set_unfold; tauto.
    + destruct bitlocker; [|constructor].
      apply Forall_fmap. eapply Forall_impl; [exact Hnames|]. done.
  - constructor; [done|]. apply Forall_app. split.
    + destruct metrics; [|constructor]. by repeat constructor.
    + destruct bitlocker; [|constructor].
      apply Forall_fmap, Forall_forall. done.
Qed.

Lemma Collect_row_excluded (data : perfDataCounterValues float64)
    (log : list syscall) :
  included data = false →
  Collect_row config volumes os sh data log = (Returned [], log).
Proof.
  unfold included, Collect_row. intros Hskip.
  destruct (VolumeExclude config (Name data)); [done|].
  destruct (VolumeInclude config (Name data)); done.
Qed.

Lemma others_not_information (data : perfDataCounterValues float64) :
  List.filter (fun s => isInformation (desc s)) (others data) = [].
Proof.
  unfold others. rewrite List.filter_app.
  assert (∀ ms : list metric,
            List.filter (fun s : sample float64 => isInformation (desc s))
              ((fun m => {| desc := bitlockerStatus; kind := GaugeValue;
                            sampleOf := literal (value m);
                            sampleLabels := labelValues m |}) <$> ms)
            = []) as Hindicators.
  { induction ms as [|m ms IH]; [done|]. exact IH. }
  destruct (slices_Contains _ subCollectorMetrics),
    (slices_Contains _ subCollectorBitlocker);
    rewrite ?Hindicators; reflexivity.
Qed.

Lemma Collect_rows_information (rows : list (perfDataCounterValues float64))
    (log log' : list syscall) (samples : list (sample float64)) :
  Collect_rows config volumes os sh rows log = (Returned samples, log') →
  (fun s => sampleLabels s !! 2%nat)
    <$> List.filter (fun s => isInformation (desc s)) samples
  = (fun data => Some (Name data)) <$> List.filter included rows.
Proof.
  revert log log' samples.
  induction rows as [|data rows IH]; intros log log' samples.
  { by intros [= <- _]. }
  cbn [Collect_rows List.filter]. unfold sys_bind at 1.
  destruct (included data) eqn:Hincluded.
  - rewrite Collect_row_included by done.
    destruct (getVolumeInfo os volumes (Name data) log)
      as [[resolved| |] l]; [|done..].
    unfold sys_bind.
    match goal with
    | |- context [Collect_rows config volumes os sh rows ?l'] =>
        destruct (Collect_rows config volumes os sh rows l')
          as [[rest| |] l''] eqn:Hrest; [|done..]
    end.
    intros [= <- _]. apply IH in Hrest.
    cbn [app List.filter desc Collect_information isInformation].
    rewrite List.filter_app, others_not_information. cbn [app fmap list_fmap].
    f_equal. exact Hrest.
  - rewrite Collect_row_excluded by done. unfold sys_bind.
    destruct (Collect_rows config volumes os sh rows log)
      as [[rest| |] l''] eqn:Hrest; [|done..].
    intros [= <- _]. by apply IH in Hrest.
Qed.

End Collect_properties.

(** ** [Collect]: the whole run *)

(** X26. An error of [Collect] means nothing was sent.  [Collect] returns a
    non-nil error in two cases only: the performance data could not be
    collected, and then no OS call is made; or the volumes could not be
    enumerated, and then the only calls are those of the enumeration.  In
    both no metric is sent and no volume is opened; the error wraps the
    cause under "failed to collect LogicalDisk metrics: " or "failed to get
    volumes: ". *)
Theorem Collect_error {float64 : Type} (config : Config)
    (perfDataObject : result (list (perfDataCounterValues float64)))
    (enumeration : volumeScript) (os : OS) (sh : Shell)
    (samples : list (sample float64)) (e : error) (log' : list syscall) :
  Collect config perfDataObject enumeration os sh []
  = (Returned (samples, Some e), log') →
  samples = []
  ∧ ((∃ cause, perfDataObject = Fail cause
               ∧ e = Wrapf "failed to collect LogicalDisk metrics: " cause
               ∧ log' = [])
     ∨ (∃ cause, getAllMountedVolumes enumeration []
                 = (Returned (Fail cause), log')
                 ∧ e = Wrapf "failed to get volumes: " cause)).
Proof.
  unfold Collect. destruct perfDataObject as [rows|cause].
  - unfold sys_bind at 1.
    destruct (getAllMountedVolumes enumeration [])
      as [[[volumes|cause]| |] l]; [|intros [= <- <- <-]|done..].
    + unfold sys_bind.
      by destruct (Collect_rows config volumes os sh rows l) as [[?| |] ?].
    + split; [done|]. right. by exists cause.
  - intros [= <- <- <-]. split; [done|]. left. by exists cause.
Qed.

Lemma Collect_error_witness :
  ([] : list (sample Z)) = []
  ∧ ((∃ cause, (Ok [CollectInputs.row "C:"]
                : result (list (perfDataCounterValues Z))) = Fail cause
               ∧ Wrapf "failed to get volumes: "
                   (Wrapf "FindFirstVolume: " (Errno 5 "Access is denied."))
                 = Wrapf "failed to collect LogicalDisk metrics: " cause
               ∧ [FindFirstVolume 522] = [])
     ∨ (∃ cause, getAllMountedVolumes
                   {| hFindVolume := 3;
                      replies := [VolumeFail (Errno 5 "Access is denied.")] |}
                   []
                 = (Returned (Fail cause), [FindFirstVolume 522])
                 ∧ Wrapf "failed to get volumes: "
                     (Wrapf "FindFirstVolume: " (Errno 5 "Access is denied."))
                   = Wrapf "failed to get volumes: " cause)).
Proof.
  exact (Collect_error (CollectInputs.config ["metrics"])
           (Ok [CollectInputs.row "C:"])
           {| hFindVolume := 3;
              replies := [VolumeFail (Errno 5 "Access is denied.")] |}
           CollectInputs.healthy CollectInputs.encrypted [] _ _ eq_refl).
Defined.

(** X27. One "information" metric for each row that passes the filter.
    When [Collect] returns nil, the "information" metrics it sent are, in
    the order of the performance data, those of the rows whose name matches
    the include pattern and not the exclude pattern: one for each, carrying
    the name of the row as its third label, whether or not the volume could
    be resolved. *)
Theorem Collect_information_rows {float64 : Type} (config : Config)
    (rows : list (perfDataCounterValues float64))
    (enumeration : volumeScript) (os : OS) (sh : Shell)
    (samples : list (sample float64)) (log' : list syscall) :
  Collect config (Ok rows) enumeration os sh []
  = (Returned (samples, None), log') →
  (fun s => sampleLabels s !! 2%nat)
    <$> List.filter (fun s => isInformation (desc s)) samples
  = (fun data => Some (Name data))
      <$> List.filter
            (fun data => negb (VolumeExclude config (Name data))
                         && VolumeInclude config (Name data)) rows.
Proof.
  unfold Collect, sys_bind at 1.
  destruct (getAllMountedVolumes enumeration [])
    as [[[volumes|cause]| |] l]; [|done..].
  unfold sys_bind.
  destruct (Collect_rows config volumes os sh rows l)
    as [[sent| |] l''] eqn:Hrows; [|done..].
  intros [= <- _]. by apply Collect_rows_information in Hrows.
Qed.

Lemma Collect_information_rows_witness :
  ∃ samples log',
    Collect (CollectInputs.config ["metrics"; "bitlocker_status"])
      (Ok [CollectInputs.row "HarddiskVolume1"; CollectInputs.row "C:";
           CollectInputs.row "D:"])
      CollectInputs.oneVolume CollectInputs.healthy CollectInputs.encrypted []
    = (Returned (samples, None), log')
    ∧ length samples = 52%nat
    ∧ (fun s => sampleLabels s !! 2%nat)
        <$> List.filter (fun s => isInformation (desc s)) samples
      = [Some "C:"; Some "D:"].
Proof.
  match eval vm_compute in
    (Collect (CollectInputs.config ["metrics"; "bitlocker_status"])
       (Ok [CollectInputs.row "HarddiskVolume1"; CollectInputs.row "C:";
            CollectInputs.row "D:"])
       CollectInputs.oneVolume CollectInputs.healthy CollectInputs.encrypted
       [])
  with
  | (Returned (?samples, None), ?log') =>
      exists samples, log';
      assert (Collect (CollectInputs.config ["metrics"; "bitlocker_status"])
                (Ok [CollectInputs.row "HarddiskVolume1";
                     CollectInputs.row "C:"; CollectInputs.row "D:"])
                CollectInputs.oneVolume CollectInputs.healthy
                CollectInputs.encrypted []
              = (Returned (samples, None), log')) as Hrun
        by (vm_compute; reflexivity)
  end.
  split_and!.
  - exact Hrun.
  - reflexivity.
  - exact (Collect_information_rows _ _ _ _ _ _ _ Hrun).
Defined.


Lemma Collect_row_samples_witness :
  ∃ samples log',
    Collect_row (CollectInputs.config ["metrics"; "bitlocker_status"]) ∅
      CollectInputs.healthy CollectInputs.encrypted (CollectInputs.row "C:")
      []
    = (Returned samples, log')
    ∧ length samples = 26%nat
    ∧ Forall (fun s => "C:" ∈ sampleLabels s) samples
    ∧ Forall (fun s => desc s ≠ readOnly) samples.
Proof.
  match eval vm_compute in
    (Collect_row (CollectInputs.config ["metrics"; "bitlocker_status"]) ∅
       CollectInputs.healthy CollectInputs.encrypted (CollectInputs.row "C:")
       [])
  with
  | (Returned ?samples, ?log') =>
      exists samples, log';
      assert (Collect_row
                (CollectInputs.config ["metrics"; "bitlocker_status"]) ∅
                CollectInputs.healthy CollectInputs.encrypted
                (CollectInputs.row "C:") [] = (Returned samples, log')) as Hrun
        by (vm_compute; reflexivity)
  end.
  split; [exact Hrun|].
  exact (Collect_row_samples
           (CollectInputs.config ["metrics"; "bitlocker_status"]) ∅
           CollectInputs.healthy CollectInputs.encrypted
           (CollectInputs.row "C:") [] _ _ eq_refl Hrun).
Defined.

(** ** The older collector *)

(** X28. A collector made by [New] cannot be built.  [New] sets only the
    two pointers of the configuration; [Build] starts by reading through the
    pointer of the deprecated exclude flag, which only [NewWithFlags] sets,
    so [Build] panics for every configuration, the default one included. *)
Theorem pkg_New_Build_panics {Regexp : Type}
    (Compile : string -> result Regexp) (config : option pkg.Config) :
  pkg.Build Compile (pkg.New config) = Panicked.
Proof. reflexivity. Qed.

Lemma pkg_Build_nil {Regexp : Type} (Compile : string -> result Regexp)
    (c c' : pkg.collector Regexp) :
  pkg.Build Compile c = Returned (c', None) →
  ∃ include exclude,
    pkg.volumeIncludePattern c' = Some include
    ∧ pkg.volumeExcludePattern c' = Some exclude.
Proof.
  unfold pkg.Build.
  destruct (pkg.volumeOldExclude c) as [oldExclude|]; [|done].
  destruct (negb (String.eqb oldExclude ""));
    [destruct (negb (pkg.volumeExcludeSet c));
       [destruct (pkg.volumeExclude c); [|done]|done]|].
  all: cbv zeta.
  all: match goal with
       | |- context [pkg.volumeOldInclude ?c1] =>
           destruct (pkg.volumeOldInclude c1) as [oldInclude|]; [|done];
           destruct (negb (String.eqb oldInclude ""));
             [destruct (negb (pkg.volumeIncludeSet c1));
                [destruct (pkg.volumeInclude c1); [|done]|done]|]
       end.
  all: match goal with
       | |- context [pkg.volumeInclude ?c2] =>
           destruct (pkg.volumeInclude c2) as [include|]; [|done]
       end.
  all: destruct (Compile (pkg.anchored include)) as [ri|?]; [|done].
  all: match goal with
       | |- context [pkg.volumeExclude ?c3] =>
           destruct (pkg.volumeExclude c3) as [exclude|]; [|done]
       end.
  all: destruct (Compile (pkg.anchored exclude)) as [re|?]; [|done].
  all: intros [= <-]; by exists ri, re.
Qed.

(** X29. The deprecated flags.  For a collector whose four flag pointers
    are set, [Build] returns, and never panics.  The expression in effect
    for a pattern is that of the deprecated flag when it is not empty, and
    that of the new flag otherwise.  [Build] returns nil exactly when no
    deprecated flag is used together with its new flag given on the command
    line and both expressions in effect compile once anchored as
    [^(?:...)$]; the two patterns are then the compiled ones.  A blacklist
    used together with a given exclude flag is reported first, then a
    whitelist used together with a given include flag. *)
Theorem pkg_Build_flags {Regexp : Type} (Compile : string -> result Regexp)
    (c : pkg.collector Regexp) (oldInclude oldExclude include exclude : string) :
  pkg.volumeOldInclude c = Some oldInclude →
  pkg.volumeOldExclude c = Some oldExclude →
  pkg.volumeInclude c = Some include →
  pkg.volumeExclude c = Some exclude →
  let inEffect (old new : string) :=
    if String.eqb old "" then new else old in
  let clash (old : string) (given : bool) :=
    negb (String.eqb old "") && given in
  ∃ c' e,
    pkg.Build Compile c = Returned (c', e)
    ∧ (e = None ↔
       clash oldExclude (pkg.volumeExcludeSet c) = false
       ∧ clash oldInclude (pkg.volumeIncludeSet c) = false
       ∧ ∃ ri re,
           Compile (pkg.anchored (inEffect oldInclude include)) = Ok ri
           ∧ Compile (pkg.anchored (inEffect oldExclude exclude)) = Ok re
           ∧ pkg.volumeIncludePattern c' = Some ri
           ∧ pkg.volumeExcludePattern c' = Some re)
    ∧ (clash oldExclude (pkg.volumeExcludeSet c) = true →
       e = Some pkg.blacklistError)
    ∧ (clash oldExclude (pkg.volumeExcludeSet c) = false →
       clash oldInclude (pkg.volumeIncludeSet c) = true →
       e = Some pkg.whitelistError).
Proof.
  intros HoldInclude HoldExclude Hinclude Hexclude inEffect clash.
  unfold pkg.Build, inEffect, clash. rewrite HoldExclude.
  destruct (String.eqb oldExclude ""), (pkg.volumeExcludeSet c);
    cbn [negb andb]; rewrite ?Hexclude; cbv zeta;
    cbn [pkg.volumeOldInclude pkg.volumeIncludeSet pkg.volumeInclude
         pkg.volumeExclude pkg.setVolumeExclude];
    rewrite ?HoldInclude;
    destruct (String.eqb oldInclude ""), (pkg.volumeIncludeSet c);
    cbn [negb andb]; rewrite ?Hinclude; cbv zeta;
    cbn [pkg.volumeOldInclude pkg.volumeIncludeSet pkg.volumeInclude
         pkg.volumeExclude pkg.setVolumeExclude pkg.setVolumeInclude];
    rewrite ?Hinclude, ?Hexclude;
    try (eexists _, _; split; [reflexivity|]; split_and!;
         [split; [done|intros (? & ? & _); done]|done..]).
  all: match goal with
       | |- context [match ?compiled with Ok _ => _ | Fail _ => _ end] =>
           destruct compiled as [ri|?] eqn:Hri
       end;
       [|eexists _, _; split; [reflexivity|]; split_and!;
         [split; [done|intros (_ & _ & ? & ? & ? & _); congruence]|done..]].
  all: cbn [pkg.volumeExclude pkg.setVolumeIncludePattern
            pkg.setVolumeExclude pkg.setVolumeInclude];
       rewrite ?Hexclude.
  all: match goal with
       | |- context [match ?compiled with Ok _ => _ | Fail _ => _ end] =>
           destruct compiled as [re|?] eqn:Hre
       end;
       [|eexists _, _; split; [reflexivity|]; split_and!;
         [split; [done|intros (_ & _ & ? & ? & _ & ? & _); congruence]
         |done..]].
  all: eexists _, _; split; [reflexivity|]; split_and!; [|done..].
  all: split; [intros _; split_and!; [done..|]; by exists ri, re|done].
Qed.

Lemma pkg_Build_flags_witness :
  ∃ c' e,
    pkg.Build pkgInputs.Compile pkgInputs.flags = Returned (c', e)
    ∧ (e = None ↔
       negb (String.eqb "" "") && true = false
       ∧ negb (String.eqb "C:" "") && false = false
       ∧ ∃ ri re,
           pkgInputs.Compile (pkg.anchored "C:") = Ok ri
           ∧ pkgInputs.Compile (pkg.anchored "D:") = Ok re
           ∧ pkg.volumeIncludePattern c' = Some ri
           ∧ pkg.volumeExcludePattern c' = Some re)
    ∧ (negb (String.eqb "" "") && true = true →
       e = Some pkg.blacklistError)
    ∧ (negb (String.eqb "" "") && true = false →
       negb (String.eqb "C:" "") && false = true →
       e = Some pkg.whitelistError).
Proof.
  exact (pkg_Build_flags pkgInputs.Compile pkgInputs.flags "C:" "" ".+" "D:"
           eq_refl eq_refl eq_refl eq_refl).
Defined.

Lemma pkg_collect_rows_built {Regexp float64 : Type}
    (MatchString : Regexp -> string -> bool) (c : pkg.collector Regexp)
    (include exclude : Regexp) (dst : list (pkg.logicalDisk float64)) :
  pkg.volumeIncludePattern c = Some include →
  pkg.volumeExcludePattern c = Some exclude →
  pkg.collect_rows MatchString c dst
  = Returned
      (flat_map (fun volume => Collect_metrics (asPerfData volume))
         (List.filter
            (fun volume =>
               negb (String.eqb (pkg.Name volume) "_Total")
               && negb (MatchString exclude (pkg.Name volume))
               && MatchString include (pkg.Name volume)) dst)).
Proof.
  intros Hinclude Hexclude. induction dst as [|volume dst IH]; [done|].
  cbn [pkg.collect_rows List.filter]. rewrite IH, Hinclude, Hexclude.
  destruct (String.eqb (pkg.Name volume) "_Total"); [done|].
  destruct (MatchString exclude (pkg.Name volume)); [done|].
  destruct (MatchString include (pkg.Name volume)); [|done].
  cbn [negb andb flat_map]. by destruct volume.
Qed.

(** X30. What the built collector sends.  After a [Build] that returned
    nil, [collect] does not panic.  When the performance object cannot be
    unmarshalled it sends nothing and returns the error of
    [perflib.UnmarshalObject].  Otherwise it returns nil; it skips the rows
    named [_Total], whatever the patterns, and the rows that match the
    exclude pattern or do not match the include pattern, and for every
    other row it sends, in order, the same 16 metrics as the "metrics" sub
    collector of the newer collector sends for a row with the same
    counters. *)
Theorem pkg_collect_built {Regexp float64 : Type}
    (Compile : string -> result Regexp)
    (MatchString : Regexp -> string -> bool) (c c' : pkg.collector Regexp)
    (unmarshalled : result (list (pkg.logicalDisk float64))) :
  pkg.Build Compile c = Returned (c', None) →
  ∃ include exclude,
    pkg.volumeIncludePattern c' = Some include
    ∧ pkg.volumeExcludePattern c' = Some exclude
    ∧ pkg.collect MatchString c' unmarshalled
      = match unmarshalled with
        | Fail err => Returned ([], Some err)
        | Ok dst =>
            Returned
              (flat_map (fun volume => Collect_metrics (asPerfData volume))
                 (List.filter
                    (fun volume =>
                       negb (String.eqb (pkg.Name volume) "_Total")
                       && negb (MatchString exclude (pkg.Name volume))
                       && MatchString include (pkg.Name volume)) dst),
               None)
        end.
Proof.
  intros (include & exclude & Hinclude & Hexclude)%pkg_Build_nil.
  exists include, exclude. split_and!; [done..|].
  unfold pkg.collect. destruct unmarshalled as [dst|err]; [|done].
  by rewrite (pkg_collect_rows_built MatchString c' include exclude).
Qed.

Lemma pkg_collect_built_witness :
  (∃ include exclude,
     pkg.volumeIncludePattern
       (pkg.setVolumeExcludePattern
          (pkg.setVolumeIncludePattern
             (pkg.setVolumeInclude pkgInputs.flags "C:")
             (Some (pkg.anchored "C:")))
          (Some (pkg.anchored "D:")))
     = Some include
     ∧ pkg.volumeExcludePattern
         (pkg.setVolumeExcludePattern
            (pkg.setVolumeIncludePattern
               (pkg.setVolumeInclude pkgInputs.flags "C:")
               (Some (pkg.anchored "C:")))
            (Some (pkg.anchored "D:")))
       = Some exclude
     ∧ pkg.collect pkgInputs.MatchString
         (pkg.setVolumeExcludePattern
            (pkg.setVolumeIncludePattern
               (pkg.setVolumeInclude pkgInputs.flags "C:")
               (Some (pkg.anchored "C:")))
            (Some (pkg.anchored "D:")))
         (Ok [pkgInputs.row "_Total"; pkgInputs.row "C:"; pkgInputs.row "D:"])
       = Returned
           (flat_map (fun volume => Collect_metrics (asPerfData volume))
              (List.filter
                 (fun volume =>
                    negb (String.eqb (pkg.Name volume) "_Total")
                    && negb (pkgInputs.MatchString exclude (pkg.Name volume))
                    && pkgInputs.MatchString include (pkg.Name volume))
                 [pkgInputs.row "_Total"; pkgInputs.row "C:";
                  pkgInputs.row "D:"]),
            None))
  ∧ (∃ include exclude : string,
       pkg.volumeIncludePattern
         (pkg.setVolumeExcludePattern
            (pkg.setVolumeIncludePattern
               (pkg.setVolumeInclude pkgInputs.flags "C:")
               (Some (pkg.anchored "C:")))
            (Some (pkg.anchored "D:")))
       = Some include
       ∧ pkg.volumeExcludePattern
           (pkg.setVolumeExcludePattern
              (pkg.setVolumeIncludePattern
                 (pkg.setVolumeInclude pkgInputs.flags "C:")
                 (Some (pkg.anchored "C:")))
              (Some (pkg.anchored "D:")))
         = Some exclude
       ∧ pkg.collect (float64 := Z) pkgInputs.MatchString
           (pkg.setVolumeExcludePattern
              (pkg.setVolumeIncludePattern
                 (pkg.setVolumeInclude pkgInputs.flags "C:")
                 (Some (pkg.anchored "C:")))
              (Some (pkg.anchored "D:")))
           (Fail (Plainf "could not read object"))
         = Returned ([], Some (Plainf "could not read object"))).
Proof.
  split.
  - exact (pkg_collect_built pkgInputs.Compile pkgInputs.MatchString
             pkgInputs.flags _
             (Ok [pkgInputs.row "_Total"; pkgInputs.row "C:";
                  pkgInputs.row "D:"])
             eq_refl).
  - exact (pkg_collect_built pkgInputs.Compile pkgInputs.MatchString
             pkgInputs.flags _ (Fail (Plainf "could not read object"))
             eq_refl).
Defined.
